(** * logs-analytics: report resolution, fight selection, rankings and
    timelines, embedded from the TypeScript sources.

    Conventions of the embedding.
    - A JavaScript [number] that the code treats as an identifier or a
      millisecond timestamp is a [Z].  Where the code handles arbitrary
      numbers (ranking rows, [Number(...)] of a string) the type [number]
      below is used.
    - [undefined]/[null] of an optional field is [None].
    - A [Map] that is only looked up is a [gmap]; a [Map] whose iteration
      order is observed is an association list in insertion order.
    - An [async] function that talks to the upstream is a function of the
      replies the upstream gives, in the order the calls are made.
    - A string is a sequence of code units below 256, except in the
      modules [XivApi] and [Encounters], whose names and keywords may be
      in any script: see [Text]. *)

From Stdlib Require Import ZArith QArith Qabs Qround List Bool Ascii Lia Lqa
  Sorted.
From stdpp Require Import base option list gmap strings pretty.

Local Open Scope Z_scope.
Set Warnings "-register-all".

(** ** JavaScript values and builtins *)

Module JS.

(** A [number]: a finite value (rounding is not modelled), [NaN] or an
    infinity. *)
Inductive number : Type :=
| Finite (q : Q)
| NaN
| PosInfinity
| NegInfinity.

Definition of_Z (z : Z) : number := Finite (inject_Z z).

(** [Number.isFinite] *)
Definition isFinite (n : number) : bool :=
  match n with Finite _ => true | _ => false end.

(** [a === b] on numbers *)
Definition number_eqb (a b : number) : bool :=
  match a, b with
  | Finite p, Finite q => Qeq_bool p q
  | PosInfinity, PosInfinity | NegInfinity, NegInfinity => true
  | _, _ => false
  end.

(** [a - b] *)
Definition sub (a b : number) : number :=
  match a, b with
  | Finite p, Finite q => Finite (p - q)
  | NaN, _ | _, NaN => NaN
  | PosInfinity, PosInfinity | NegInfinity, NegInfinity => NaN
  | PosInfinity, _ | _, NegInfinity => PosInfinity
  | NegInfinity, _ | _, PosInfinity => NegInfinity
  end.

(** [a + b] *)
Definition add (a b : number) : number :=
  match a, b with
  | Finite p, Finite q => Finite (p + q)
  | NaN, _ | _, NaN => NaN
  | PosInfinity, NegInfinity | NegInfinity, PosInfinity => NaN
  | PosInfinity, _ | _, PosInfinity => PosInfinity
  | NegInfinity, _ | _, NegInfinity => NegInfinity
  end.

(** [Math.abs] *)
Definition abs (a : number) : number :=
  match a with
  | Finite p => Finite (Qabs p)
  | NaN => NaN
  | PosInfinity | NegInfinity => PosInfinity
  end.

(** [a < b] *)
Definition ltb (a b : number) : bool :=
  match a, b with
  | NaN, _ | _, NaN => false
  | Finite p, Finite q => negb (Qle_bool q p)
  | PosInfinity, _ | _, NegInfinity => false
  | NegInfinity, _ | _, PosInfinity => true
  end.

(** [a > 0], the test a sort makes on what its comparator returns. *)
Definition positive (a : number) : bool := ltb (Finite 0) a.

(** A JSON-like value.  An object lists its own properties in order. *)
Inductive value : Type :=
| VUndefined
| VNull
| VBool (b : bool)
| VNum (n : number)
| VStr (s : string)
| VArr (items : list value)
| VObj (fields : list (string * value)).

(** [v == null] *)
Definition nullish (v : value) : bool :=
  match v with VUndefined | VNull => true | _ => false end.

(** [a ?? b] *)
Definition coalesce (a b : value) : value := if nullish a then b else a.

(** Truthiness, [!!v]. *)
Definition truthy (v : value) : bool :=
  match v with
  | VUndefined | VNull => false
  | VBool b => b
  | VNum (Finite q) => negb (Qeq_bool q 0)
  | VNum NaN => false
  | VNum _ => true
  | VStr s => negb (String.eqb s EmptyString)
  | VArr _ | VObj _ => true
  end.

(** [typeof v === 'object']; [null] and arrays are objects. *)
Definition is_object (v : value) : bool :=
  match v with VNull | VArr _ | VObj _ => true | _ => false end.

Fixpoint assoc (k : string) (fields : list (string * value)) : option value :=
  match fields with
  | [] => None
  | (k', v) :: fields' => if String.eqb k k' then Some v else assoc k fields'
  end.

(** [Object.prototype.hasOwnProperty.call(v, k)] for the keys the code
    asks for, none of which is an array index or [length]. *)
Definition hasOwnProperty (v : value) (k : string) : bool :=
  match v with VObj fields => bool_decide (is_Some (assoc k fields)) | _ => false end.

(** [v?.k] (and [v.k] where [v] is not nullish), for the same keys. *)
Definition get (v : value) (k : string) : value :=
  match v with VObj fields => default VUndefined (assoc k fields) | _ => VUndefined end.

(** [Object.keys(v)] of an object; an array has its indices, which no key
    the code looks for equals. *)
Definition keys (v : value) : list string :=
  match v with VObj fields => fields.*1 | _ => [] end.

(** [Object.values(v)] *)
Definition values (v : value) : list value :=
  match v with VObj fields => fields.*2 | VArr items => items | _ => [] end.

(** The builtins the code calls and the embedding leaves open: the results
    below hold for whatever they compute. *)
Class Builtins : Type := {
  (** [Number(s)] of a string *)
  Number_of_string : string → number;
  (** [String(v)] *)
  String_of_value : value → string;
  (** [JSON.parse(s)]; [None] when it throws *)
  JSON_parse : string → option value
}.

(** [Number(v)] *)
Definition Number `{Builtins} (v : value) : number :=
  match v with
  | VUndefined => NaN
  | VNull => of_Z 0
  | VBool b => of_Z (if b then 1 else 0)
  | VNum n => n
  | VStr s => Number_of_string s
  | VArr _ | VObj _ => Number_of_string (String_of_value v)
  end.

(** *** Strings: sequences of characters with codes below 256 *)

Definition code (c : ascii) : N := N_of_ascii c.

Definition is_digit (c : ascii) : bool := (48 <=? code c)%N && (code c <=? 57)%N.
Definition is_upper (c : ascii) : bool := (65 <=? code c)%N && (code c <=? 90)%N.
Definition is_lower (c : ascii) : bool := (97 <=? code c)%N && (code c <=? 122)%N.

(** [[A-Za-z0-9]] *)
Definition is_alnum (c : ascii) : bool := is_digit c || is_upper c || is_lower c.

(** White space and line terminators, as [trim] strips them. *)
Definition is_space (c : ascii) : bool :=
  ((9 <=? code c)%N && (code c <=? 13)%N) || (code c =? 32)%N || (code c =? 160)%N.

Definition lower_char (c : ascii) : ascii :=
  if is_upper c
     || ((192 <=? code c)%N && (code c <=? 222)%N && negb (code c =? 215)%N)
  then ascii_of_N (code c + 32) else c.

Fixpoint map_string (f : ascii → ascii) (s : string) : string :=
  match s with
  | EmptyString => EmptyString
  | String c s' => String (f c) (map_string f s')
  end.

Fixpoint filter_string (f : ascii → bool) (s : string) : string :=
  match s with
  | EmptyString => EmptyString
  | String c s' => if f c then String c (filter_string f s') else filter_string f s'
  end.

Fixpoint forall_string (f : ascii → bool) (s : string) : bool :=
  match s with
  | EmptyString => true
  | String c s' => f c && forall_string f s'
  end.

(** [s.toLowerCase()] *)
Definition toLowerCase (s : string) : string := map_string lower_char s.

Fixpoint trimStart (s : string) : string :=
  match s with
  | EmptyString => EmptyString
  | String c s' => if is_space c then trimStart s' else s
  end.

Fixpoint trimEnd (s : string) : string :=
  match s with
  | EmptyString => EmptyString
  | String c s' =>
      match trimEnd s' with
      | EmptyString => if is_space c then EmptyString else String c EmptyString
      | t => String c t
      end
  end.

(** [s.trim()] *)
Definition trim (s : string) : string := trimEnd (trimStart s).

(** [s.startsWith(p)] *)
Fixpoint startsWith (s p : string) : bool :=
  match p, s with
  | EmptyString, _ => true
  | String a p', String b s' => Ascii.eqb a b && startsWith s' p'
  | String _ _, EmptyString => false
  end.

(** [s.includes(p)] *)
Fixpoint includes (s p : string) : bool :=
  startsWith s p ||
  match s with
  | EmptyString => false
  | String _ s' => includes s' p
  end.

(** [s.slice(n)] *)
Fixpoint drop_string (n : nat) (s : string) : string :=
  match n, s with
  | O, _ => s
  | S n', String _ s' => drop_string n' s'
  | S _, EmptyString => EmptyString
  end.

(** The longest prefix of characters satisfying [f], and what follows. *)
Fixpoint span_string (f : ascii → bool) (s : string) : string * string :=
  match s with
  | String c s' =>
      if f c then let '(a, b) := span_string f s' in (String c a, b)
      else (EmptyString, s)
  | EmptyString => (EmptyString, EmptyString)
  end.

(** [path.split('.')] *)
Fixpoint split_dots (s : string) : list string :=
  match s with
  | EmptyString => [EmptyString]
  | String c s' =>
      if (code c =? 46)%N then EmptyString :: split_dots s'
      else match split_dots s' with
           | part :: parts => String c part :: parts
           | [] => [String c EmptyString]
           end
  end.

(** [xs.join(sep)] *)
Fixpoint join (sep : string) (xs : list string) : string :=
  match xs with
  | [] => EmptyString
  | [x] => x
  | x :: xs' => x +:+ sep +:+ join sep xs'
  end.

(** *** [Array.prototype.sort]

    [gt a b] says that the comparator returns a positive number on
    [(a, b)].  The sort is stable; this is an insertion sort, which gives
    the order of every stable sort when the comparator is consistent. *)
Section Sort.
Context {A : Type} (gt : A → A → bool).

Fixpoint insert_sorted (x : A) (l : list A) : list A :=
  match l with
  | [] => [x]
  | y :: l' => if gt x y then y :: insert_sorted x l' else x :: l
  end.

Fixpoint sort (l : list A) : list A :=
  match l with
  | [] => []
  | x :: l' => insert_sorted x (sort l')
  end.

End Sort.

(** *** [Map] with number keys, in insertion order *)
Section OrderedMap.
Context {V : Type}.

(** [m.get(k)] *)
Fixpoint map_get (k : Z) (m : list (Z * V)) : option V :=
  match m with
  | [] => None
  | (k', v) :: m' => if k' =? k then Some v else map_get k m'
  end.

(** [m.set(k, v)]: a present key keeps its place, a new one goes last. *)
Fixpoint map_set (k : Z) (v : V) (m : list (Z * V)) : list (Z * V) :=
  match m with
  | [] => [(k, v)]
  | (k', v') :: m' => if k' =? k then (k', v) :: m' else (k', v') :: map_set k v m'
  end.

End OrderedMap.

End JS.

(** ** Outcomes of calls *)

(** What a call of an [async] function comes to: a value, an exception with
    its message, or still waiting for an upstream reply that never came. *)
Inductive Outcome (A : Type) : Type :=
| Returned (a : A)
| Thrown (message : string)
| Awaiting.
Arguments Returned {A} a.
Arguments Thrown {A} message.
Arguments Awaiting {A}.

(** What a synchronous function comes to: a value or an exception. *)
Inductive Result (A : Type) : Type :=
| Ok (a : A)
| Raise (message : string).
Arguments Ok {A} a.
Arguments Raise {A} message.

(** ** fflogs/types.ts

    One module per interface, so that [Fight.kill f] reads as [f.kill]. *)

Module Fight.
Record t : Type := {
  id : Z;
  encounterID : Z;
  name : string;
  kill : bool;
  startTime : Z;
  endTime : Z;
  boss : option Z;
  difficulty : option Z
}.
End Fight.

Module Actor.
Record t : Type := {
  id : Z;
  gameID : Z;
  name : string;
  type : string;
  subType : option string;
  petOwner : option Z
}.
End Actor.

Module AbilityRef.
Record t : Type := {
  gameID : option Z;
  guid : option Z;
  name : option string
}.
End AbilityRef.

Module CastEvent.
Record t : Type := {
  timestamp : Z;
  type : string;
  sourceID : option Z;
  targetID : option Z;
  abilityGameID : option Z;
  ability : option AbilityRef.t
}.
End CastEvent.

Module EventsPage.
Record t : Type := {
  data : option (list CastEvent.t);
  nextPageTimestamp : option Z
}.
End EventsPage.

Module ActorMap.
Record t : Type := {
  byId : gmap Z Actor.t;
  abilityByGameId : gmap Z string
}.
End ActorMap.

Module SelectedFightMeta.
Record t : Type := {
  reportCode : string;
  fightID : Z;
  encounterID : Z;
  name : string;
  startTime : Z;
  endTime : Z;
  durationMs : Z;
  difficulty : option Z;
  kill : bool;
  boss : option Z;
  reason : string
}.
End SelectedFightMeta.

Module TimelineEntry.
Record t : Type := {
  t_ : Q;
  source : string;
  ability : string;
  abilityId : Z
}.
End TimelineEntry.

Module PlayerCastEntry.
Record t : Type := {
  t_ : Q;
  source : string;
  sourceId : Z;
  ability : string;
  abilityId : Z
}.
End PlayerCastEntry.

(** ** fflogs/report.ts: cursor pagination *)

Module Report.

Record GetCastEventsParams : Type := {
  reportCode : string;
  fightID : Z;
  startTime : Z;
  endTime : Z;
  limit : option Z;
  dataType : option string;
  translate : option bool
}.

(** One call of [requestWithTranslateFallback] for the events query: the
    value of [data.reportData.report?.events], or the exception of the
    request. *)
Inductive Reply : Type :=
| ReplyEvents (events : option EventsPage.t)
| ReplyThrows (message : string).

(** A run of [getAllEvents]: what it comes to, and the [startTime] variable
    of every request it made, oldest first. *)
Record Run : Type := {
  outcome : Outcome (list CastEvent.t);
  requested : list Z
}.

Definition request_made (cursor : Z) (r : Run) : Run :=
  {| outcome := outcome r; requested := cursor :: requested r |}.

(** [events.data ?? []] *)
Definition page_data (events : EventsPage.t) : list CastEvent.t :=
  default [] (EventsPage.data events).

(** [!events.nextPageTimestamp || events.nextPageTimestamp <= cursor]:
    [!t] holds of [null], [undefined] and [0]. *)
Definition lastPage (events : EventsPage.t) (cursor : Z) : bool :=
  match EventsPage.nextPageTimestamp events with
  | None => true
  | Some t => (t =? 0) || (t <=? cursor)
  end.

Definition null_events_message (params : GetCastEventsParams) : string :=
  "events query returned null. report=" +:+ reportCode params
    +:+ ", fightID=" +:+ pretty (fightID params).

(** The [for (;;)] loop; [replies] are the upstream's answers to the
    successive requests. *)
Fixpoint getAllEvents_loop (params : GetCastEventsParams)
    (replies : list Reply) (cursor : Z) (all : list CastEvent.t) : Run :=
  match replies with
  | [] => {| outcome := Awaiting; requested := [] |}
  | reply :: replies' =>
      request_made cursor
        match reply with
        | ReplyThrows message => {| outcome := Thrown message; requested := [] |}
        | ReplyEvents None =>
            {| outcome := Thrown (null_events_message params); requested := [] |}
        | ReplyEvents (Some events) =>
            let all' := all ++ page_data events in
            if lastPage events cursor
            then {| outcome := Returned all'; requested := [] |}
            else getAllEvents_loop params replies'
                   (default cursor (EventsPage.nextPageTimestamp events)) all'
        end
  end.

Definition getAllEvents (params : GetCastEventsParams) (replies : list Reply) : Run :=
  getAllEvents_loop params replies (startTime params) [].






(** The upstream answering with the given pages. *)
Definition answering (pages : list EventsPage.t) : list Reply :=
  (λ events, ReplyEvents (Some events)) <$> pages.

End Report.

(** ** fflogs/client.ts: the retrying GraphQL client *)

Module Client.

Definition DEFAULT_RETRIES : Z := 4.
Definition RETRYABLE_STATUS : list Z := [429; 500; 502; 503; 504].

Record FFLogsClientConfig : Type := {
  graphqlUrl : string;
  maxRetries : option Z;
  locale : option string;
  requestTimeoutMs : option Z
}.

(** [GraphQLResponse<T>]; an error item is its [message]. *)
Record GraphQLResponse (T : Type) : Type := {
  data : option T;
  errors : option (list string)
}.
Arguments data {T} _.
Arguments errors {T} _.

(** What [fetch] resolves to: the status line, the body as [text()] gives
    it, and what [json()] gives: a payload, or the message of its
    exception. *)
Record Response (T : Type) : Type := {
  status : Z;
  statusText : string;
  text : string;
  json : string + GraphQLResponse T
}.
Arguments status {T} _.
Arguments statusText {T} _.
Arguments text {T} _.
Arguments json {T} _.

(** [response.ok] *)
Definition ok {T} (response : Response T) : bool :=
  (200 <=? status response) && (status response <=? 299).

(** What the upstream does to one attempt: [getAccessToken] or the fetch
    throws (transport failure, timeout), or a response arrives. *)
Inductive Attempt (T : Type) : Type :=
| Fails (message : string)
| Responds (response : Response T).
Arguments Fails {T} message.
Arguments Responds {T} response.

(** How one turn of the loop ends. *)
Inductive Turn (T : Type) : Type :=
| Sleep (ms : Z)
| Return (payload_data : T)
| Throw (message : string).
Arguments Sleep {T} ms.
Arguments Return {T} payload_data.
Arguments Throw {T} message.

(** [250 * 2 ** (attempt - 1)] *)
Definition backoff (attempt : Z) : Z := 250 * 2 ^ (attempt - 1).

(** The [catch] clause: rethrow once the attempts are used up, else sleep
    and go round again. *)
Definition caught {T} (maxRetries attempt : Z) (message : string) : Turn T :=
  if maxRetries <? attempt then Throw message else Sleep (backoff attempt).

(** The body of the [try] block, after [attempt += 1]; every [throw] in it
    lands in the [catch] clause of the same turn. *)
Definition turn {T} (maxRetries attempt : Z) (a : Attempt T) : Turn T :=
  match a with
  | Fails message => caught maxRetries attempt message
  | Responds response =>
      if bool_decide (status response ∈ RETRYABLE_STATUS) && (attempt <=? maxRetries)
      then Sleep (backoff attempt)
      else if negb (ok response)
      then caught maxRetries attempt
             ("GraphQL request failed: " +:+ pretty (status response) +:+ " "
                +:+ statusText response +:+ " " +:+ text response)
      else
        match json response with
        | inl message => caught maxRetries attempt message
        | inr payload =>
            match errors payload with
            | Some (e :: es) =>
                caught maxRetries attempt
                  ("GraphQL errors: " +:+ JS.join " | " (e :: es))
            | _ =>
                match data payload with
                | None => caught maxRetries attempt "GraphQL response returned no data."
                | Some d => Return d
                end
            end
        end
  end.

(** A run of [request]: what it comes to, the attempts made and the sleeps
    taken, oldest first. *)
Record Run (T : Type) : Type := {
  outcome : Outcome T;
  attempts : Z;
  slept : list Z
}.
Arguments outcome {T} _.
Arguments attempts {T} _.
Arguments slept {T} _.

Definition after_sleep {T} (ms : Z) (r : Run T) : Run T :=
  {| outcome := outcome r; attempts := attempts r; slept := ms :: slept r |}.

(** The [for (;;)] loop of [request]; [attempt] is the counter on entry and
    [upstream] what happens to the successive attempts. *)
Fixpoint request_loop {T} (maxRetries attempt : Z) (upstream : list (Attempt T)) : Run T :=
  match upstream with
  | [] => {| outcome := Awaiting; attempts := attempt; slept := [] |}
  | a :: upstream' =>
      let attempt := attempt + 1 in
      match turn maxRetries attempt a with
      | Sleep ms => after_sleep ms (request_loop maxRetries attempt upstream')
      | Return d => {| outcome := Returned d; attempts := attempt; slept := [] |}
      | Throw message => {| outcome := Thrown message; attempts := attempt; slept := [] |}
      end
  end.

Definition request {T} (config : FFLogsClientConfig) (upstream : list (Attempt T)) : Run T :=
  request_loop (default DEFAULT_RETRIES (maxRetries config)) 0 upstream.

End Client.

(** ** select/pickFight.ts *)

Module PickFight.

Record PickFightOptions : Type := {
  strategy : string;
  onlyKill : bool;
  difficulty : option Z;
  reportCode : string;
  debugFightID : option Z
}.

Definition duration (fight : Fight.t) : Z :=
  Fight.endTime fight - Fight.startTime fight.

Definition withDifficultyPriority (fights : list Fight.t) (difficulty : option Z)
    : list Fight.t :=
  match difficulty with
  | None => fights
  | Some d =>
      let preferred :=
        List.filter (λ f, bool_decide (Fight.difficulty f = Some d)) fights in
      if 0 <? Z.of_nat (length preferred) then preferred else fights
  end.

Definition toSelectedFight (reportCode : string) (fight : Fight.t) (reason : string)
    : SelectedFightMeta.t :=
  {| SelectedFightMeta.reportCode := reportCode;
     SelectedFightMeta.fightID := Fight.id fight;
     SelectedFightMeta.encounterID := Fight.encounterID fight;
     SelectedFightMeta.name := Fight.name fight;
     SelectedFightMeta.startTime := Fight.startTime fight;
     SelectedFightMeta.endTime := Fight.endTime fight;
     SelectedFightMeta.durationMs := duration fight;
     SelectedFightMeta.difficulty := Fight.difficulty fight;
     SelectedFightMeta.kill := Fight.kill fight;
     SelectedFightMeta.boss := Fight.boss fight;
     SelectedFightMeta.reason := reason |}.

(** The comparator of the [lastKill] and [firstKill] sorts. *)
Definition byStartTime (a b : Fight.t) : Z :=
  Fight.startTime a - Fight.startTime b.

(** The comparator of the [longest] sort. *)
Definition byDurationDesc (a b : Fight.t) : Z := duration b - duration a.

(** The comparator of the [best] sort. *)
Definition byBest (a b : Fight.t) : Z :=
  let killScore := Z.b2z (Fight.kill b) - Z.b2z (Fight.kill a) in
  if negb (killScore =? 0) then killScore
  else
    let diffScore := default 0 (Fight.difficulty b) - default 0 (Fight.difficulty a) in
    if negb (diffScore =? 0) then diffScore
    else
      let durScore := duration b - duration a in
      if negb (durScore =? 0) then durScore
      else Fight.startTime b - Fight.startTime a.

(** The order of the [best] strategy, in the words of the specification:
    kill status descending, then difficulty (0 when absent) descending,
    then duration (the end time minus the start time) descending, then
    start time descending. *)
Definition ranksAtOrAbove (a b : Fight.t) : Prop :=
  Z.b2z (Fight.kill b) < Z.b2z (Fight.kill a)
  ∨ Fight.kill a = Fight.kill b
    ∧ (default 0 (Fight.difficulty b) < default 0 (Fight.difficulty a)
       ∨ default 0 (Fight.difficulty a) = default 0 (Fight.difficulty b)
         ∧ (Fight.endTime b - Fight.startTime b
              < Fight.endTime a - Fight.startTime a
            ∨ Fight.endTime a - Fight.startTime a
                = Fight.endTime b - Fight.startTime b
              ∧ Fight.startTime b ≤ Fight.startTime a)).

(** [[...fights].sort(comparator)] *)
Definition sorted (comparator : Fight.t → Fight.t → Z) (fights : list Fight.t)
    : list Fight.t :=
  JS.sort (λ a b, 0 <? comparator a b) fights.

(** [toSelectedFight(reportCode, fights[i], reason)], where reading a field
    of [undefined] throws. *)
Definition selected (reportCode : string) (fight : option Fight.t) (reason : string)
    : Result SelectedFightMeta.t :=
  match fight with
  | Some f => Ok (toSelectedFight reportCode f reason)
  | None => Raise "TypeError: Cannot read properties of undefined (reading 'id')"
  end.

Section WithBuiltins.
Context `{JS.Builtins}.

Definition parseByBoss (strategy : string) : option JS.number :=
  if negb (JS.startsWith strategy "byBoss:") then None
  else
    let value := JS.Number_of_string (JS.drop_string 7 strategy) in
    if JS.isFinite value then Some value else None.

(** [f.boss === byBoss || f.encounterID === byBoss] *)
Definition matchesBoss (byBoss : JS.number) (f : Fight.t) : bool :=
  match Fight.boss f with
  | Some b => JS.number_eqb (JS.of_Z b) byBoss
  | None => false
  end
  || JS.number_eqb (JS.of_Z (Fight.encounterID f)) byBoss.

(** The candidates after the kill narrowing. *)
Definition killNarrowed (fights : list Fight.t) (options : PickFightOptions)
    : list Fight.t :=
  if onlyKill options then
    let kills := List.filter Fight.kill fights in
    if 0 <? Z.of_nat (length kills) then kills else fights
  else fights.

(** The candidates the strategies choose from: after the kill narrowing,
    the [byBoss] filter and the difficulty preference. *)
Definition candidatesOf (fights : list Fight.t) (options : PickFightOptions)
    : Result (list Fight.t) :=
  let candidates := killNarrowed fights options in
  match parseByBoss (strategy options) with
  | Some byBoss =>
      let bossFiltered := List.filter (matchesBoss byBoss) candidates in
      if length bossFiltered =? 0
      then Raise ("No fights matched strategy byBoss:"
                    +:+ JS.String_of_value (JS.VNum byBoss) +:+ ".")
      else Ok (withDifficultyPriority bossFiltered (difficulty options))
  | None => Ok (withDifficultyPriority candidates (difficulty options))
  end%nat.

(** The strategy applied to the candidates. *)
Definition applyStrategy (candidates : list Fight.t) (options : PickFightOptions)
    : Result SelectedFightMeta.t :=
  if String.eqb (strategy options) "lastKill" then
    let kills := sorted byStartTime (List.filter Fight.kill candidates) in
    if (length kills =? 0)%nat
    then Raise "No kill fights available for strategy=lastKill."
    else selected (reportCode options) (last kills) "strategy=lastKill"
  else if String.eqb (strategy options) "firstKill" then
    let kills := sorted byStartTime (List.filter Fight.kill candidates) in
    if (length kills =? 0)%nat
    then Raise "No kill fights available for strategy=firstKill."
    else selected (reportCode options) (head kills) "strategy=firstKill"
  else if String.eqb (strategy options) "longest" then
    selected (reportCode options) (head (sorted byDurationDesc candidates))
      "strategy=longest"
  else if String.eqb (strategy options) "best"
          || bool_decide (is_Some (parseByBoss (strategy options))) then
    selected (reportCode options) (head (sorted byBest candidates))
      ("strategy=" +:+ strategy options)
  else Raise ("Unsupported strategy: " +:+ strategy options).

Definition pickFight (fights : list Fight.t) (options : PickFightOptions)
    : Result SelectedFightMeta.t :=
  if (length fights =? 0)%nat then Raise "No fights in report."
  else
    match debugFightID options with
    | Some debugFightID =>
        match List.find (λ f, Fight.id f =? debugFightID) fights with
        | None => Raise ("--fight-id " +:+ pretty debugFightID
                           +:+ " not found in report fights.")
        | Some direct =>
            Ok (toSelectedFight (reportCode options) direct
                  "debug override (--fight-id)")
        end
    | None =>
        match candidatesOf fights options with
        | Raise message => Raise message
        | Ok candidates => applyStrategy candidates options
        end
    end.

End WithBuiltins.

End PickFight.

(** ** timeline/bossTimeline.ts *)

Module BossTimeline.

Definition isPlayer (actor : option Actor.t) : bool :=
  match actor with
  | Some a => String.eqb (Actor.type a) "Player"
  | None => false
  end.

Definition isPet (actor : option Actor.t) : bool :=
  match actor with
  | None => false
  | Some a => String.eqb (Actor.type a) "Pet" || bool_decide (is_Some (Actor.petOwner a))
  end.

Definition isEnemyCandidate (actor : option Actor.t) : bool :=
  match actor with
  | None => true
  | Some _ => if isPlayer actor || isPet actor then false else true
  end.

Definition isCastLike (event : CastEvent.t) : bool :=
  let t := JS.toLowerCase (CastEvent.type event) in
  String.eqb t "cast" || String.eqb t "begincast".

(** [event.abilityGameID ?? event.ability?.gameID ?? event.ability?.guid ?? -1] *)
Definition abilityIdOf (event : CastEvent.t) : Z :=
  default (-1)
    (CastEvent.abilityGameID event
       ∪ (CastEvent.ability event ≫= AbilityRef.gameID)
       ∪ (CastEvent.ability event ≫= AbilityRef.guid)).

Definition placeholder (abilityId : Z) : string := "Ability#" +:+ pretty abilityId.

(** A given [extraAbilityById] is authoritative: the names of the log
    service are not consulted. *)
Definition resolveAbility (event : CastEvent.t) (actors : ActorMap.t)
    (extraAbilityById : option (gmap Z string)) : string * Z :=
  let abilityId := abilityIdOf event in
  match extraAbilityById with
  | Some extra => (default (placeholder abilityId) (extra !! abilityId), abilityId)
  | None =>
      (default (placeholder abilityId)
         ((CastEvent.ability event ≫= AbilityRef.name)
            ∪ (ActorMap.abilityByGameId actors !! abilityId)),
       abilityId)
  end.

(** The first loop of [inferBossActorId]: one turn. *)
Definition countEvent (actors : ActorMap.t) (counts : list (Z * Z)) (event : CastEvent.t)
    : list (Z * Z) :=
  match CastEvent.sourceID event with
  | None => counts
  | Some sourceID =>
      if isEnemyCandidate (ActorMap.byId actors !! sourceID)
      then JS.map_set sourceID (default 0 (JS.map_get sourceID counts) + 1) counts
      else counts
  end.

(** The second loop: one turn. *)
Definition pickBest (best : option (Z * Z)) (entry : Z * Z) : option (Z * Z) :=
  match best with
  | None => Some entry
  | Some b => if b.2 <? entry.2 then Some entry else best
  end.

Definition inferBossActorId (events : list CastEvent.t) (actors : ActorMap.t) : option Z :=
  let counts := fold_left (countEvent actors) events [] in
  fst <$> fold_left pickBest counts None.

(** The event comes from the actor [id], and [id] is neither a player nor
    a pet. *)
Definition counted (actors : ActorMap.t) (id : Z) (event : CastEvent.t) : bool :=
  bool_decide (CastEvent.sourceID event = Some id)
  && isEnemyCandidate (ActorMap.byId actors !! id).

(** The number of events of the actor [id] that count. *)
Definition eventCount (actors : ActorMap.t) (events : list CastEvent.t) (id : Z) : Z :=
  Z.of_nat (length (List.filter (counted actors id) events)).

(** The counts after the first loop. *)
Definition tally (actors : ActorMap.t) (events : list CastEvent.t) : list (Z * Z) :=
  fold_left (countEvent actors) events [].

(** [(timestamp - fightStartTime) / 1000] *)
Definition relativeSeconds (timestamp fightStartTime : Z) : Q :=
  inject_Z (timestamp - fightStartTime) / 1000.

Definition buildBossTimeline (events : list CastEvent.t) (actors : ActorMap.t)
    (fightStartTime : Z) (extraAbilityById : option (gmap Z string))
    : list TimelineEntry.t :=
  match inferBossActorId events actors with
  | None => []
  | Some bossActorId =>
      let bossName :=
        default ("Actor#" +:+ pretty bossActorId)
          (Actor.name <$> ActorMap.byId actors !! bossActorId) in
      let bossEvents :=
        List.filter (λ event, bool_decide (CastEvent.sourceID event = Some bossActorId))
          events in
      let castLike := List.filter isCastLike bossEvents in
      let picked := if (0 <? length castLike)%nat then castLike else bossEvents in
      (λ event,
         let '(abilityName, abilityId) := resolveAbility event actors extraAbilityById in
         {| TimelineEntry.t_ := relativeSeconds (CastEvent.timestamp event) fightStartTime;
            TimelineEntry.source := bossName;
            TimelineEntry.ability := abilityName;
            TimelineEntry.abilityId := abilityId |})
      <$> JS.sort (λ a b, 0 <? CastEvent.timestamp a - CastEvent.timestamp b) picked
  end.

End BossTimeline.

(** ** players/playerCasts.ts *)

Module PlayerCasts.

Definition isPlayer (actor : option Actor.t) : bool :=
  match actor with
  | Some a => String.eqb (Actor.type a) "Player"
  | None => false
  end.

(** The same function as in bossTimeline.ts. *)
Definition resolveAbility := BossTimeline.resolveAbility.

(** The grouping loop: one turn. *)
Definition groupEvent (actors : ActorMap.t) (fightStartTime : Z)
    (extraAbilityById : option (gmap Z string))
    (grouped : list (Z * list PlayerCastEntry.t)) (event : CastEvent.t)
    : list (Z * list PlayerCastEntry.t) :=
  match CastEvent.sourceID event with
  | None => grouped
  | Some sourceID =>
      let actor := ActorMap.byId actors !! sourceID in
      if negb (isPlayer actor) then grouped
      else
        let '(abilityName, abilityId) := resolveAbility event actors extraAbilityById in
        let entry :=
          {| PlayerCastEntry.t_ :=
               BossTimeline.relativeSeconds (CastEvent.timestamp event) fightStartTime;
             PlayerCastEntry.source :=
               default ("Actor#" +:+ pretty sourceID) (Actor.name <$> actor);
             PlayerCastEntry.sourceId := sourceID;
             PlayerCastEntry.ability := abilityName;
             PlayerCastEntry.abilityId := abilityId |} in
        JS.map_set sourceID (default [] (JS.map_get sourceID grouped) ++ [entry]) grouped
  end.

(** [result[key] = entries] on a record with string keys, none of which is
    an array index. *)
Fixpoint record_set {V : Type} (key : string) (v : V) (r : list (string * V))
    : list (string * V) :=
  match r with
  | [] => [(key, v)]
  | (k, v') :: r' =>
      if String.eqb k key then (k, v) :: r' else (k, v') :: record_set key v r'
  end.

(** The keying loop: one turn.  A group is never empty. *)
Definition keyGroup (result : list (string * list PlayerCastEntry.t))
    (group : Z * list PlayerCastEntry.t) : list (string * list PlayerCastEntry.t) :=
  let entries :=
    JS.sort (λ a b, negb (Qle_bool (PlayerCastEntry.t_ a - PlayerCastEntry.t_ b) 0))
      group.2 in
  match entries with
  | [] => result
  | first :: _ =>
      record_set
        (PlayerCastEntry.source first +:+ "#" +:+ pretty (PlayerCastEntry.sourceId first))
        entries result
  end.

Definition buildPlayerCasts (events : list CastEvent.t) (actors : ActorMap.t)
    (fightStartTime : Z) (extraAbilityById : option (gmap Z string))
    : list (string * list PlayerCastEntry.t) :=
  let grouped := fold_left (groupEvent actors fightStartTime extraAbilityById) events [] in
  fold_left keyGroup grouped [].

End PlayerCasts.

(** ** cli.ts: the naming part of [runPipeline] *)

Module Pipeline.

(** [new Map(xivApiResolved)], then every override set on top of it. *)
Definition finalAbilityById (xivApiResolved overrides : gmap Z string) : gmap Z string :=
  map_fold (λ id name final, <[id := name]> final) xivApiResolved overrides.



(** The display name of an ability id as the claim orders the sources:
    override, resolved name, name of the log service, BossTimeline.placeholder. *)
Definition specName (overrides xivApiResolved : gmap Z string)
    (logName : option string) (abilityId : Z) : string :=
  default (BossTimeline.placeholder abilityId)
    (overrides !! abilityId ∪ xivApiResolved !! abilityId ∪ logName).


(** The name the log service has for the ability of an event. *)
Definition logName (actors : ActorMap.t) (event : CastEvent.t) : option string :=
  (CastEvent.ability event ≫= AbilityRef.name)
    ∪ (ActorMap.abilityByGameId actors !! BossTimeline.abilityIdOf event).



End Pipeline.

(** ** fflogs/rankings.ts *)

Module RankingEntry.
Record t : Type := {
  rank : JS.number;
  amount : JS.number;
  reportCode : string;
  fightID : JS.number;
  bestPercent : option JS.number;
  highestRdps : option JS.number;
  kill : option bool;
  fastestSec : option JS.number;
  medianRdps : option JS.number;
  characterName : JS.value;
  serverName : JS.value;
  region : JS.value;
  className : option string;
  specName : option string
}.

Definition optional {A : Type} (f : A → JS.value) (o : option A) : JS.value :=
  match o with Some a => f a | None => JS.VUndefined end.

(** The entry as the object it is, with the properties of the literal that
    builds it. *)
Definition to_value (e : t) : JS.value :=
  JS.VObj
    [ ("rank", JS.VNum (rank e));
      ("amount", JS.VNum (amount e));
      ("reportCode", JS.VStr (reportCode e));
      ("fightID", JS.VNum (fightID e));
      ("bestPercent", optional JS.VNum (bestPercent e));
      ("highestRdps", optional JS.VNum (highestRdps e));
      ("kill", optional JS.VBool (kill e));
      ("fastestSec", optional JS.VNum (fastestSec e));
      ("medianRdps", optional JS.VNum (medianRdps e));
      ("characterName", characterName e);
      ("serverName", serverName e);
      ("region", region e);
      ("className", optional JS.VStr (className e));
      ("specName", optional JS.VStr (specName e)) ].
End RankingEntry.

Module Rankings.

Import JS.

Record RankingsParams : Type := {
  encounterID : Z;
  metric : string;
  difficulty : option Z;
  pageSize : option Z;
  rankIndex : Z;
  region : option string;
  server : option string;
  className : option string;
  specName : option string;
  partition : option Z
}.

Definition mapDifficultyForRankings (difficulty : option Z) : option Z :=
  match difficulty with
  | None => None
  | Some 101 => Some 5
  | Some 100 => Some 4
  | Some 102 => Some 6
  | Some d => Some d
  end.

(** [/^[A-Za-z0-9]{8,}$/.test(s)] *)
Definition isReportCode (s : string) : bool :=
  forall_string is_alnum s && (8 <=? String.length s)%nat.

(** [s.match(/\/reports\/([A-Za-z0-9]+)/i)?.[1]]: the capture of the
    leftmost match. *)
Fixpoint matchReportsUrl (s : string) : option string :=
  let here :=
    if startsWith (toLowerCase s) "/reports/"
    then match span_string is_alnum (drop_string 9 s) with
         | (EmptyString, _) => None
         | (capture, _) => Some capture
         end
    else None in
  match here, s with
  | Some capture, _ => Some capture
  | None, String _ s' => matchReportsUrl s'
  | None, EmptyString => None
  end.

Definition as_string (v : value) : value :=
  match v with VStr _ => v | _ => VUndefined end.

(** The pair is known: a non-empty report code and a finite fight id. *)
Definition known (e : RankingEntry.t) : Prop :=
  RankingEntry.reportCode e ≠ EmptyString ∧ isFinite (RankingEntry.fightID e) = true.

(** The report code of an entry: latin letters and digits, at least one. *)
Definition alnumCode (code : string) : Prop :=
  forall_string is_alnum code = true ∧ code ≠ EmptyString.

(** What [normalizeRanking] guarantees of the entry it builds. *)
Record normalized (e : RankingEntry.t) : Prop := {
  normalized_code : alnumCode (RankingEntry.reportCode e);
  normalized_fight : isFinite (RankingEntry.fightID e) = true;
  normalized_best : ∀ n, RankingEntry.bestPercent e = Some n → isFinite n = true;
  normalized_median : ∀ n, RankingEntry.medianRdps e = Some n → isFinite n = true;
  normalized_kill : is_Some (RankingEntry.kill e)
}.

(** The entry that normalizing an entry again gives. *)
Definition again (e : RankingEntry.t) : RankingEntry.t :=
  {| RankingEntry.rank := RankingEntry.rank e;
     RankingEntry.amount := RankingEntry.amount e;
     RankingEntry.reportCode := RankingEntry.reportCode e;
     RankingEntry.fightID := RankingEntry.fightID e;
     RankingEntry.bestPercent := RankingEntry.bestPercent e;
     RankingEntry.highestRdps :=
       if isFinite (RankingEntry.amount e) then Some (RankingEntry.amount e) else None;
     RankingEntry.kill := RankingEntry.kill e;
     RankingEntry.fastestSec := None;
     RankingEntry.medianRdps := RankingEntry.medianRdps e;
     RankingEntry.characterName := VUndefined;
     RankingEntry.serverName := VUndefined;
     RankingEntry.region := VUndefined;
     RankingEntry.className := None;
     RankingEntry.specName := None |}.

Section WithBuiltins.
Context `{Builtins}.

Definition parseFightId (raw : value) : option number :=
  let v :=
    coalesce (get raw "fightID")
      (coalesce (get raw "fightId")
         (coalesce (get raw "fight")
            (coalesce (get raw "encounterFightID") (get raw "encounterFightId")))) in
  match v with
  | VNum n => if isFinite n then Some n else None
  | VStr s => let n := Number_of_string s in if isFinite n then Some n else None
  | _ => None
  end.

(** The first part of [parseReportCode]: a code in a nested report. *)
Definition nestedReportCode (raw : value) : option string :=
  let report := get raw "report" in
  if truthy report && is_object report then
    match coalesce (get report "code")
            (coalesce (get report "reportCode")
               (coalesce (get report "id") (get report "reportID"))) with
    | VStr nestedCode =>
        if isReportCode (trim nestedCode) then Some (trim nestedCode) else None
    | _ => None
    end
  else None.

Definition parseReportCode (raw : value) : option string :=
  match nestedReportCode raw with
  | Some code => Some code
  | None =>
      let direct :=
        coalesce (get (get raw "report") "code")
          (coalesce (get raw "reportCode")
             (coalesce (get raw "code")
                (coalesce (get (get raw "report") "reportCode")
                   (coalesce (as_string (get raw "report"))
                      (coalesce (as_string (get raw "reportURL"))
                         (coalesce (as_string (get raw "reportUrl"))
                            (as_string (get raw "url")))))))) in
      match direct with
      | VStr direct =>
          let s := trim direct in
          if String.eqb s EmptyString then None
          else
            match matchReportsUrl s with
            | Some m1 => Some m1
            | None => if isReportCode s then Some s else None
            end
      | _ => None
      end
  end.

(** [readPathCI], on the parts of the path. *)
Fixpoint readParts (cur : value) (parts : list string) : value :=
  match parts with
  | [] => cur
  | rawPart :: parts' =>
      if negb (truthy cur) || negb (is_object cur) then VUndefined
      else if hasOwnProperty cur rawPart then readParts (get cur rawPart) parts'
      else
        match List.find (λ k, String.eqb (toLowerCase k) (toLowerCase rawPart))
                (keys cur) with
        | None | Some EmptyString => VUndefined
        | Some key => readParts (get cur key) parts'
        end
  end.

Definition readPathCI (obj : value) (path : string) : value :=
  readParts obj (split_dots path).

Fixpoint pickNumber (obj : value) (paths : list string) : option number :=
  match paths with
  | [] => None
  | p :: paths' =>
      match readPathCI obj p with
      | VNum n => if isFinite n then Some n else pickNumber obj paths'
      | VStr s =>
          let n := Number_of_string
                     (trim (filter_string (λ c, negb (code c =? 44)%N) s)) in
          if isFinite n then Some n else pickNumber obj paths'
      | _ => pickNumber obj paths'
      end
  end.

Fixpoint pickBoolean (obj : value) (paths : list string) : option bool :=
  match paths with
  | [] => None
  | p :: paths' =>
      match readPathCI obj p with
      | VBool b => Some b
      | VNum n => Some (negb (number_eqb n (of_Z 0)))
      | VStr v =>
          let s := toLowerCase (trim v) in
          if String.eqb s "true" || String.eqb s "1" || String.eqb s "yes" then Some true
          else if String.eqb s "false" || String.eqb s "0" || String.eqb s "no"
          then Some false
          else pickBoolean obj paths'
      | _ => pickBoolean obj paths'
      end
  end.

Definition toSeconds (v : option number) : option number :=
  match v with
  | Some (Finite q) =>
      if ltb (of_Z 10000) (Finite q) then Some (Finite (q / 1000)) else Some (Finite q)
  | _ => None
  end.

Definition parseBracketData (raw : value) : value :=
  let bd := get raw "bracketData" in
  if negb (truthy bd) then VUndefined
  else
    match bd with
    | VStr s => default VUndefined (JSON_parse s)
    | _ => bd
    end.

Record MetricFields : Type := {
  bestPercent : option number;
  highestRdps : option number;
  kill : bool;
  fastestSec : option number;
  medianRdps : option number
}.

Definition metricFields (raw : value) : MetricFields :=
  let bd := parseBracketData raw in
  {| bestPercent :=
       pickNumber raw ["rankPercent"; "percentile"; "bestPercent"]
         ∪ pickNumber bd ["rankPercent"; "percentile"; "bestPercent"; "historicalPercent"];
     highestRdps :=
       pickNumber raw ["rDPS"; "rdps"; "amount"]
         ∪ pickNumber bd ["rDPS.max"; "rdps.max"; "rDPS"; "rdps"; "max"];
     kill :=
       default true
         (pickBoolean raw ["kill"; "isKill"; "success"]
            ∪ pickBoolean bd ["kill"; "isKill"; "success"]);
     fastestSec :=
       toSeconds
         (pickNumber raw ["fastest"; "duration"]
            ∪ pickNumber bd ["fastest"; "duration.min"; "duration.fastest"; "minDuration"]);
     medianRdps :=
       pickNumber raw ["medianRdps"; "median"]
         ∪ pickNumber bd ["rDPS.median"; "rdps.median"; "rDPS.avg"; "rdps.avg"; "median"] |}.

(** [a ? String(a) : b ? String(b) : undefined] *)
Definition firstTruthyString (a b : value) : option string :=
  if truthy a then Some (String_of_value a)
  else if truthy b then Some (String_of_value b)
  else None.

(** The entry both [normalizeRanking] and the repair in
    [resolveRankingRows] build from a row, once the pair is known. *)
Definition entryOf (raw : value) (reportCode : string) (fightID : number)
    : RankingEntry.t :=
  let m := metricFields raw in
  let character := get raw "character" in
  {| RankingEntry.rank := Number (coalesce (get raw "rank") (VNum (of_Z 0)));
     RankingEntry.amount := Number (coalesce (get raw "amount") (VNum (of_Z 0)));
     RankingEntry.reportCode := reportCode;
     RankingEntry.fightID := fightID;
     RankingEntry.bestPercent := bestPercent m;
     RankingEntry.highestRdps := highestRdps m;
     RankingEntry.kill := Some (kill m);
     RankingEntry.fastestSec := fastestSec m;
     RankingEntry.medianRdps := medianRdps m;
     RankingEntry.characterName := coalesce (get character "name") (get raw "name");
     RankingEntry.serverName :=
       coalesce (get (get character "server") "name") (get raw "server");
     RankingEntry.region := get (get (get character "server") "region") "slug";
     RankingEntry.className :=
       firstTruthyString (get character "classID") (get raw "class");
     RankingEntry.specName := firstTruthyString (get character "spec") (get raw "spec") |}.

(** [!reportCode] of a string or [null] *)
Definition noCode (reportCode : option string) : bool :=
  match reportCode with
  | None | Some EmptyString => true
  | Some _ => false
  end.

Definition normalizeRanking (raw : value) : option RankingEntry.t :=
  let reportCode := parseReportCode raw in
  let fightID := parseFightId raw in
  if noCode reportCode then None
  else
    match reportCode, fightID with
    | Some reportCode, Some fightID => Some (entryOf raw reportCode fightID)
    | _, _ => None
    end.

(** The score loop of [pickFightIdFromReport]: one turn. *)
Definition closer (targetStart : number) (targetDuration : option number)
    (best : Fight.t * number) (f : Fight.t) : Fight.t * number :=
  let ds := abs (sub (of_Z (Fight.startTime f)) targetStart) in
  let fd := of_Z (Fight.endTime f - Fight.startTime f) in
  let dd :=
    match targetDuration with
    | None => of_Z 0
    | Some d => abs (sub fd d)
    end in
  let score := add ds dd in
  if ltb score best.2 then (f, score) else best.

Definition pickFightIdFromReport (fights : list Fight.t) (encounterID : Z)
    (startTime duration : option number) : option Z :=
  let candidates := List.filter (λ f, Fight.encounterID f =? encounterID) fights in
  let pool := if (0 <? length candidates)%nat then candidates else fights in
  match pool with
  | [] => None
  | first :: _ =>
      match startTime with
      | Some (Finite targetStart) =>
          let targetDuration :=
            match duration with
            | Some (Finite d) => Some (Finite d)
            | _ => None
            end in
          Some (Fight.id
                  (fold_left (closer (Finite targetStart) targetDuration) pool
                     (first, PosInfinity)).1)
      | _ =>
          Some (default (Fight.id first) (Fight.id <$> List.find Fight.kill pool))
      end
  end.

(** [typeof v === 'number' ? v : undefined] *)
Definition as_number (v : value) : option number :=
  match v with VNum n => Some n | _ => None end.

(** What [getReportFights(client, code, { translate: false })] gives for
    a report code; [None] when it throws. *)
Definition Reports : Type := string → option (list Fight.t).

(** The repair loop of [resolveRankingRows]: the entry of a queued row. *)
Definition repairRow (reports : Reports) (encounterID : Z) (item : value * string)
    : option RankingEntry.t :=
  let '(row, reportCode) := item in
  match reports reportCode with
  | None => None
  | Some fights =>
      match pickFightIdFromReport fights encounterID
              (as_number (get row "startTime")) (as_number (get row "duration")) with
      | None => None
      | Some inferredFightId => Some (entryOf row reportCode (of_Z inferredFightId))
      end
  end.

(** The first loop of [resolveRankingRows]: the entries of the rows that
    normalize, and the queue of those that only have a report code. *)
Fixpoint sortRows (rows : list value)
    : list RankingEntry.t * list (value * string) :=
  match rows with
  | [] => ([], [])
  | row :: rows' =>
      let '(entries, unresolved) := sortRows rows' in
      match normalizeRanking row with
      | Some normalized => (normalized :: entries, unresolved)
      | None =>
          if noCode (parseReportCode row) then (entries, unresolved)
          else
            match parseReportCode row with
            | Some reportCode => (entries, (row, reportCode) :: unresolved)
            | None => (entries, unresolved)
            end
      end
  end.

Definition resolveRankingRows (reports : Reports) (encounterID : Z) (rows : list value)
    : list RankingEntry.t :=
  let '(entries, unresolved) := sortRows rows in
  entries ++ omap (repairRow reports encounterID) unresolved.

(** [x && typeof x === 'object' && ('fightID' in x || 'fightId' in x ||
    'report' in x)] *)
Definition looksLikeRow (x : value) : bool :=
  match x with
  | VObj fields =>
      bool_decide (is_Some (assoc "fightID" fields))
      || bool_decide (is_Some (assoc "fightId" fields))
      || bool_decide (is_Some (assoc "report" fields))
  | _ => false
  end.

(** [Array.isArray(v) && v.length > 0 && v.some(looksLikeRow)] *)
Definition rowsArray (v : value) : option (list value) :=
  match v with
  | VArr items => if existsb looksLikeRow items then Some items else None
  | _ => None
  end.

(** The number of nodes of a value: the turns the search below can take. *)
Fixpoint nodes (v : value) : nat :=
  match v with
  | VArr items => S (list_sum (List.map nodes items))
  | VObj fields => S (list_sum (List.map (λ kv, nodes kv.2) fields))
  | _ => 1
  end.

(** The breadth-first search of [extractRankingsRows].  A value is a tree,
    so that no node is visited twice. *)
Fixpoint searchRows (turns : nat) (queue : list value) : list value :=
  match turns, queue with
  | O, _ | _, [] => []
  | S turns', node :: queue' =>
      match node with
      | VArr items =>
          match rowsArray node with
          | Some rows => rows
          | None => searchRows turns' (queue' ++ items)
          end
      | VObj fields =>
          match list_find (λ v, is_Some (rowsArray v)) fields.*2 with
          | Some (_, VArr rows) => rows
          | _ =>
              searchRows turns'
                (queue' ++ List.filter (λ v, truthy v && is_object v) fields.*2)
          end
      | _ => searchRows turns' queue'
      end
  end.

Definition asArray (v : value) : option (list value) :=
  match v with VArr items => Some items | _ => None end.

Definition extractRankingsRows (payload : value) : list value :=
  if negb (truthy payload) then []
  else
    match asArray payload ∪ asArray (get payload "rankings")
          ∪ asArray (get payload "data") with
    | Some rows => rows
    | None => searchRows (nodes payload) [payload]
    end.

(** [s.toLowerCase().replace(/[^a-z0-9]/g, '')] *)
Definition normalizeJob (s : string) : string :=
  filter_string (λ c, is_lower c || is_digit c) (toLowerCase s).

Definition aliases : list (string * string) :=
  [ ("pld", "paladin"); ("war", "warrior"); ("drk", "darkknight");
    ("gnb", "gunbreaker"); ("whm", "whitemage"); ("sch", "scholar");
    ("ast", "astrologian"); ("sge", "sage"); ("mnk", "monk"); ("drg", "dragoon");
    ("nin", "ninja"); ("sam", "samurai"); ("rpr", "reaper"); ("vpr", "viper");
    ("brd", "bard"); ("mch", "machinist"); ("dnc", "dancer"); ("blm", "blackmage");
    ("smn", "summoner"); ("rdm", "redmage"); ("pct", "pictomancer") ].

Definition canonicalToClassId : list (string * string) :=
  [ ("paladin", "19"); ("warrior", "21"); ("darkknight", "32");
    ("gunbreaker", "37"); ("whitemage", "24"); ("scholar", "28");
    ("astrologian", "33"); ("sage", "40"); ("monk", "20"); ("dragoon", "22");
    ("ninja", "30"); ("samurai", "34"); ("reaper", "39"); ("viper", "41");
    ("bard", "23"); ("machinist", "31"); ("dancer", "38"); ("blackmage", "25");
    ("summoner", "27"); ("redmage", "35"); ("pictomancer", "42") ].

Fixpoint table (k : string) (t : list (string * string)) : option string :=
  match t with
  | [] => None
  | (k', v) :: t' => if String.eqb k k' then Some v else table k t'
  end.

(** [aliases[qRaw]] also finds [constructor], which every object inherits:
    [q] is then a function that equals and is included in no string. *)
Definition matchesJobFilter (entry : RankingEntry.t) (job : option string) : bool :=
  let qRaw := normalizeJob (trim (default EmptyString job)) in
  if String.eqb qRaw "constructor" then false
  else
    let q := default qRaw (table qRaw aliases) in
    if String.eqb q EmptyString then true
    else
      let c := normalizeJob (default EmptyString (RankingEntry.className entry)) in
      let s := normalizeJob (default EmptyString (RankingEntry.specName entry)) in
      String.eqb c q || String.eqb s q || includes c q || includes s q
      || match table q canonicalToClassId with
         | Some targetClassId => String.eqb c targetClassId
         | None => false
         end.

Definition scoreForSort (entry : RankingEntry.t) : number :=
  let a :=
    match RankingEntry.highestRdps entry with
    | Some (Finite q) => Finite q
    | _ => RankingEntry.amount entry
    end in
  if isFinite a then a else of_Z 0.

Definition finiteOr (fallback : number) (n : option number) : number :=
  match n with
  | Some (Finite q) => Finite q
  | _ => fallback
  end.

(** The comparator of [normalizeAndSortRankings]. *)
Definition byRank (a b : RankingEntry.t) : number :=
  let ra := finiteOr PosInfinity (Some (RankingEntry.rank a)) in
  let rb := finiteOr PosInfinity (Some (RankingEntry.rank b)) in
  if negb (number_eqb ra rb) then sub ra rb
  else
    let sa := scoreForSort a in
    let sb := scoreForSort b in
    if negb (number_eqb sa sb) then sub sb sa
    else
      let pa := finiteOr (of_Z (-1)) (RankingEntry.bestPercent a) in
      let pb := finiteOr (of_Z (-1)) (RankingEntry.bestPercent b) in
      if negb (number_eqb pa pb) then sub pb pa else of_Z 0.

Definition normalizeAndSortRankings (entries : list RankingEntry.t)
    (params : RankingsParams) : list RankingEntry.t :=
  let filtered :=
    List.filter
      (λ e, matchesJobFilter e (className params ∪ specName params)) entries in
  sort (λ a b, positive (byRank a b)) filtered.

(** The nodes still to visit. *)
Definition pending (queue : list value) : nat := list_sum (List.map nodes queue).

(** *** The upstream of [getRankings] *)

Inductive Query : Type :=
| CHARACTER_RANKINGS_QUERY
| CHARACTER_RANKINGS_QUERY_METRIC_ONLY.

(** A rankings request: the query and the variables that are set. *)
Record Request : Type := {
  query : Query;
  v_encounterID : Z;
  v_metric : string;
  v_difficulty : option Z;
  v_size : option Z;
  v_page : option Z;
  v_partition : option Z
}.

(** The upstream's answer to a rankings request: the value of
    [data.worldData.encounter?.characterRankings], or the message of the
    exception of [client.request]. *)
Inductive Reply : Type :=
| Data (characterRankings : value)
| Fails (message : string).

(** The answers still to come and the requests sent, latest first. *)
Record World : Type := {
  replies : list Reply;
  sent : list Request
}.

(** An [async] computation over the upstream. *)
Definition M (A : Type) : Type := World → Outcome A * World.

#[local] Instance M_ret : MRet M := λ A a w, (Returned a, w).

#[local] Instance M_bind : MBind M := λ A B k m w,
  match m w with
  | (Returned a, w') => k a w'
  | (Thrown message, w') => (Thrown message, w')
  | (Awaiting, w') => (Awaiting, w')
  end.

Definition throw {A} (message : string) : M A := λ w, (Thrown message, w).

(** [try { m } catch (error) { handler(error.message) }] *)
Definition catch {A} (m : M A) (handler : string → M A) : M A := λ w,
  match m w with
  | (Thrown message, w') => handler message w'
  | r => r
  end.

(** [client.request(query, variables)] *)
Definition send (r : Request) : M value := λ w,
  let w' rest := {| replies := rest; sent := r :: sent w |} in
  match replies w with
  | [] => (Awaiting, w' [])
  | Data v :: rest => (Returned v, w' rest)
  | Fails message :: rest => (Thrown message, w' rest)
  end.

Record Filters : Type := {
  f_region : option string;
  f_server : option string;
  f_className : option string;
  f_specName : option string;
  f_partition : option Z
}.

Record RankingsResult : Type := {
  r_encounterID : Z;
  r_metric : string;
  r_difficulty : option Z;
  r_pageSize : Z;
  r_rankIndex : Z;
  filters : Filters;
  rankings : list RankingEntry.t
}.

Definition quote : string := String "034" EmptyString.

(** [Object.keys(v)]: the indices of a string or an array, the keys of an
    object. *)
Definition ownKeys (v : value) : list string :=
  match v with
  | VObj fields => fields.*1
  | VArr items => pretty <$> seq 0 (length items)
  | VStr s => pretty <$> seq 0 (String.length s)
  | _ => []
  end.

Definition size (rows : list value) : Z := Z.of_nat (length rows).

Section GetRankings.
Context (reports : Reports) (params : RankingsParams).

Definition requestRankings (difficulty size page partition : option Z) : M value :=
  send {| query := CHARACTER_RANKINGS_QUERY;
          v_encounterID := encounterID params; v_metric := metric params;
          v_difficulty := difficulty; v_size := size; v_page := page;
          v_partition := partition |}.

Definition requestRankingsMetricOnly (size page partition : option Z) : M value :=
  send {| query := CHARACTER_RANKINGS_QUERY_METRIC_ONLY;
          v_encounterID := encounterID params; v_metric := metric params;
          v_difficulty := None; v_size := size; v_page := page;
          v_partition := partition |}.

Definition safePageSize : Z :=
  match pageSize params with
  | Some n => Z.max 1 (Z.min 100 n)
  | None => 10
  end.

Definition targetCount : Z := Z.max (rankIndex params + 1) safePageSize.

Definition shouldScanWide : bool :=
  truthy (RankingEntry.optional VStr (className params))
  || truthy (RankingEntry.optional VStr (specName params)).

Definition apiPageSize : Z :=
  if shouldScanWide then Z.max 50 safePageSize else Z.max 10 safePageSize.

(** [Math.ceil(a / b)] for a positive [b] *)
Definition ceilDiv (a b : Z) : Z := - ((- a) / b).

Definition maxPages : Z :=
  if shouldScanWide then 4 else Z.max 2 (ceilDiv targetCount apiPageSize + 1).

(** The [for] loop of [collectPagedRows] over the pages still to ask. *)
Fixpoint collectPages (fetchPage : Z → M value) (pages : list Z) (all : list value)
    : M (list value) :=
  match pages with
  | [] => mret all
  | page :: pages' =>
      next ← catch (payload ← fetchPage page; mret (Some payload))
               (λ message,
                  if includes message ("Unknown argument " +:+ quote +:+ "page" +:+ quote)
                  then mret None else throw message);
      match next with
      | None => mret all
      | Some payload =>
          let rows := extractRankingsRows payload in
          if size rows =? 0 then mret all
          else
            let all' := all ++ rows in
            if size rows <? apiPageSize then mret all'
            else if negb shouldScanWide && (targetCount <=? size all') then mret all'
            else collectPages fetchPage pages' all'
      end
  end.

Definition collectPagedRows (seed : list value) (fetchPage : Z → M value)
    : M (list value) :=
  if size seed =? 0 then mret seed
  else if size seed <? apiPageSize then mret seed
  else collectPages fetchPage (seqZ 2 (maxPages - 1)) seed.

Definition outOfRange (n : nat) : bool :=
  (rankIndex params <? 0) || (Z.of_nat n <=? rankIndex params).

Definition outOfRangeMessage (n : nat) : string :=
  "rank-index out of range. index=" +:+ pretty (rankIndex params)
    +:+ ", available=0.." +:+ pretty (Z.of_nat n - 1).

Definition resultOf (limited : list RankingEntry.t) : RankingsResult :=
  {| r_encounterID := encounterID params;
     r_metric := metric params;
     r_difficulty := difficulty params;
     r_pageSize := safePageSize;
     r_rankIndex := rankIndex params;
     filters :=
       {| f_region := region params; f_server := server params;
          f_className := className params; f_specName := specName params;
          f_partition := partition params |};
     rankings := limited |}.

(** The first request, with its fallbacks on an invalid difficulty: the
    payload, whether the metric-only query answered, and the difficulty
    that did. *)
Definition firstPage : M (value * bool * option Z) :=
  catch
    (data ← requestRankings (difficulty params) (Some apiPageSize) None (partition params);
     mret (data, false, difficulty params))
    (λ message,
       if negb (includes message "Invalid difficulty setting or size specified")
       then throw message
       else
         let mappedDifficulty := mapDifficultyForRankings (difficulty params) in
         let metricOnly :=
           data ← requestRankingsMetricOnly (Some apiPageSize) None (partition params);
           mret (data, true, None) in
         if bool_decide (mappedDifficulty ≠ difficulty params) then
           catch
             (data ← requestRankings mappedDifficulty (Some apiPageSize) None None;
              mret (data, false, mappedDifficulty))
             (λ _, metricOnly)
         else metricOnly).

(** The relaxed requests made when the payload itself reports an invalid
    difficulty. *)
Definition relaxedRows : M (list value) :=
  let mappedDifficulty := mapDifficultyForRankings (difficulty params) in
  relaxedRows ←
    (if bool_decide (mappedDifficulty ≠ difficulty params) then
       catch
         (mapped ← requestRankings mappedDifficulty (Some apiPageSize) None None;
          let rows := extractRankingsRows mapped in
          if 0 <? size rows then
            catch
              (collectPagedRows rows
                 (λ page, requestRankings mappedDifficulty (Some apiPageSize)
                            (Some page) (partition params)))
              (λ _, mret rows)
          else mret rows)
         (λ _, mret [])
     else mret []);
  if size relaxedRows =? 0 then
    relaxed ← requestRankingsMetricOnly (Some apiPageSize) None (partition params);
    let rows := extractRankingsRows relaxed in
    if 0 <? size rows then
      collectPagedRows rows
        (λ page, requestRankingsMetricOnly (Some apiPageSize) (Some page)
                   (partition params))
    else mret rows
  else mret relaxedRows.

Definition jobOf : option string := className params ∪ specName params.

(** The branch taken when no row came with the first page. *)
Definition withoutRows (payload : value) : M RankingsResult :=
  let shape :=
    if truthy payload then join ", " (take 20 (ownKeys payload)) else "null" in
  let payloadError :=
    if truthy payload && is_object payload
    then coalesce (get payload "error")
           (coalesce (get payload "message") (get payload "msg"))
    else VUndefined in
  let reason :=
    match payloadError with
    | VStr e => if truthy (VStr (trim e)) then " detail=" +:+ e else EmptyString
    | _ => EmptyString
    end in
  let notFound : M RankingsResult :=
    throw ("Rankings not found for given criteria. "
             +:+ "Check encounter/metric/difficulty/visibility." +:+ reason
             +:+ " payloadKeys=[" +:+ shape +:+ "]") in
  match payloadError with
  | VStr e =>
      if includes e "Invalid difficulty setting or size specified" then
        rows ← relaxedRows;
        if 0 <? size rows then
          let relaxedRankings := resolveRankingRows reports (encounterID params) rows in
          if (0 <? length relaxedRankings)%nat then
            if outOfRange (length relaxedRankings)
            then throw (outOfRangeMessage (length relaxedRankings))
            else
              let relaxedSorted := normalizeAndSortRankings relaxedRankings params in
              if (length relaxedSorted =? 0)%nat
              then throw ("Rankings not found for specified job filter. job="
                            +:+ default "-" jobOf)
              else if outOfRange (length relaxedSorted)
              then throw (outOfRangeMessage (length relaxedSorted))
              else
                let limited := take (Z.to_nat safePageSize) relaxedSorted in
                if outOfRange (length limited)
                then throw (outOfRangeMessage (length limited))
                else mret (resultOf limited)
          else notFound
        else notFound
      else notFound
  | _ => notFound
  end.

(** The branch taken when rows came. *)
Definition withRows (rankingsRaw : list value) : M RankingsResult :=
  let rankings :=
    normalizeAndSortRankings
      (resolveRankingRows reports (encounterID params) rankingsRaw) params in
  if (length rankings =? 0)%nat then
    let sample :=
      match rankingsRaw with
      | first :: _ =>
          if truthy first && is_object first then take 20 (ownKeys first) else []
      | [] => []
      end in
    if shouldScanWide
    then throw ("No rankings matched job filter. job=" +:+ default EmptyString jobOf
                  +:+ ". sampleKeys=[" +:+ join "," sample +:+ "]")
    else throw ("No usable ranking entries returned (missing reportCode/fightID). "
                  +:+ "sampleKeys=[" +:+ join "," sample +:+ "]")
  else if outOfRange (length rankings)
  then throw (outOfRangeMessage (length rankings))
  else
    let limited := take (Z.to_nat safePageSize) rankings in
    if outOfRange (length limited)
    then throw (outOfRangeMessage (length limited))
    else mret (resultOf limited).

Definition getRankings : M RankingsResult :=
  '(data, useMetricOnly, resolvedDifficulty) ← firstPage;
  let rankingsRaw := extractRankingsRows data in
  rankingsRaw ←
    (if 0 <? size rankingsRaw then
       collectPagedRows rankingsRaw
         (λ page,
            if useMetricOnly : bool
            then requestRankingsMetricOnly (Some apiPageSize) (Some page)
                   (partition params)
            else requestRankings resolvedDifficulty (Some apiPageSize) (Some page)
                   (partition params))
     else mret rankingsRaw);
  if size rankingsRaw =? 0 then withoutRows data else withRows rankingsRaw.

End GetRankings.

End WithBuiltins.

End Rankings.

(** ** Examples *)

Module Examples.

Import JS.

Fixpoint decimal (s : string) (acc : Z) : option Z :=
  match s with
  | EmptyString => Some acc
  | String c s' =>
      if is_digit c then decimal s' (10 * acc + Z.of_N (code c - 48)) else None
  end.

(** A stand-in for the builtins, enough for the examples below: [Number]
    reads the empty string and strings of decimal digits, [String] prints
    strings, booleans and integers, and [JSON.parse] rejects its input. *)
Definition builtins : Builtins :=
  {| Number_of_string s :=
       match decimal (trim s) 0 with
       | Some z => of_Z z
       | None => NaN
       end;
     String_of_value v :=
       match v with
       | VStr s => s
       | VBool b => if b then "true" else "false"
       | VNum (Finite q) => pretty (Qnum q / Zpos (Qden q))
       | VNum NaN => "NaN"
       | VNum PosInfinity => "Infinity"
       | VNum NegInfinity => "-Infinity"
       | VNull => "null"
       | VUndefined => "undefined"
       | VArr _ | VObj _ => "[object Object]"
       end;
     JSON_parse _ := None |}.

(** *** Pages of events *)

Definition cast (timestamp : Z) : CastEvent.t :=
  {| CastEvent.timestamp := timestamp; CastEvent.type := "cast";
     CastEvent.sourceID := Some 1; CastEvent.targetID := None;
     CastEvent.abilityGameID := Some 7; CastEvent.ability := None |}.

Definition page (timestamp : Z) (next : option Z) : EventsPage.t :=
  {| EventsPage.data := Some [cast timestamp];
     EventsPage.nextPageTimestamp := next |}.


(** *** Responses *)

Definition defaults : Client.FFLogsClientConfig :=
  {| Client.graphqlUrl := "https://www.fflogs.com/api/v2/client";
     Client.maxRetries := None; Client.locale := None;
     Client.requestTimeoutMs := None |}.

Definition respond (status : Z) (statusText text : string)
    (payload : Client.GraphQLResponse Z) : Client.Attempt Z :=
  Client.Responds
    {| Client.status := status; Client.statusText := statusText;
       Client.text := text; Client.json := inr payload |}.

Definition tooMany : Client.Attempt Z :=
  respond 429 "Too Many Requests" "slow down"
    {| Client.data := None; Client.errors := None |}.

Definition fine : Client.Attempt Z :=
  respond 200 "OK" "{}" {| Client.data := Some 42; Client.errors := None |}.

Definition badRequest : Client.Attempt Z :=
  respond 400 "Bad Request" "bad query"
    {| Client.data := None; Client.errors := None |}.

Definition graphqlErrors : Client.Attempt Z :=
  respond 200 "OK" "{}"
    {| Client.data := None;
       Client.errors := Some ["Unknown field"; "Syntax error"] |}.

(** *** Fights, actors and events *)

Definition actor (id : Z) (name type : string) : Z * Actor.t :=
  (id, {| Actor.id := id; Actor.gameID := 0; Actor.name := name; Actor.type := type;
          Actor.subType := None; Actor.petOwner := None |}).

Definition party : ActorMap.t :=
  {| ActorMap.byId := list_to_map [actor 1 "Alice" "Player"; actor 2 "Titan" "NPC"];
     ActorMap.abilityByGameId := {[ 9 := "Landslide" ]} |}.

Definition use (timestamp source abilityId : Z) (name : option string) : CastEvent.t :=
  {| CastEvent.timestamp := timestamp; CastEvent.type := "cast";
     CastEvent.sourceID := Some source; CastEvent.targetID := None;
     CastEvent.abilityGameID := Some abilityId;
     CastEvent.ability :=
       Some {| AbilityRef.gameID := None; AbilityRef.guid := None;
               AbilityRef.name := name |} |}.

Definition pull : list CastEvent.t :=
  [use 1000 1 7 (Some "Fire"); use 2000 2 9 None].


Definition playerEntry (ability : string) : PlayerCastEntry.t :=
  {| PlayerCastEntry.t_ := BossTimeline.relativeSeconds 1000 0;
     PlayerCastEntry.source := "Alice"; PlayerCastEntry.sourceId := 1;
     PlayerCastEntry.ability := ability; PlayerCastEntry.abilityId := 7 |}.

(** The fights of test/pickFight.test.ts. *)
Definition fight (id encounterID : Z) (name : string) (kill : bool)
    (startTime endTime difficulty : Z) : Fight.t :=
  {| Fight.id := id; Fight.encounterID := encounterID; Fight.name := name;
     Fight.kill := kill; Fight.startTime := startTime; Fight.endTime := endTime;
     Fight.boss := Some encounterID; Fight.difficulty := Some difficulty |}.

Definition fight1 : Fight.t := fight 1 100 "Boss A" false 0 120000 100.
Definition fight2 : Fight.t := fight 2 100 "Boss A" true 130000 300000 100.
Definition fight3 : Fight.t := fight 3 101 "Boss B" true 310000 520000 101.
Definition fights : list Fight.t := [fight1; fight2; fight3].

Definition pick (strategy : string) : PickFight.PickFightOptions :=
  {| PickFight.strategy := strategy; PickFight.onlyKill := true;
     PickFight.difficulty := None; PickFight.reportCode := "ABC123";
     PickFight.debugFightID := None |}.

(** Five events of the actor 2 and twelve of the actor 3, both in the
    master data as NPCs, and two of the actor 99, which is not in it. *)
Definition npcs : ActorMap.t :=
  {| ActorMap.byId :=
       list_to_map
         [actor 1 "Alice" "Player"; actor 2 "Add" "NPC"; actor 3 "Titan" "NPC"];
     ActorMap.abilityByGameId := ∅ |}.

Definition fiveAndTwelve : list CastEvent.t :=
  replicate 5 (use 1000 2 9 None) ++ replicate 12 (use 2000 3 9 None).

Definition stranger : list CastEvent.t :=
  [use 1000 99 9 None; use 1500 2 9 None; use 2000 99 9 None].

(** *** Ranking rows *)

Definition row : value :=
  VObj [ ("rank", VNum (of_Z 1)); ("amount", VNum (of_Z 5000));
         ("rDPS", VNum (of_Z 7000)); ("duration", VNum (of_Z 480000));
         ("reportCode", VStr "a1B2c3D4"); ("fightID", VNum (of_Z 3));
         ("name", VStr "Alice"); ("server", VStr "Tonberry");
         ("class", VStr "BlackMage"); ("spec", VStr "BlackMage") ].

Definition once : RankingEntry.t :=
  {| RankingEntry.rank := of_Z 1;
     RankingEntry.amount := of_Z 5000;
     RankingEntry.reportCode := "a1B2c3D4";
     RankingEntry.fightID := of_Z 3;
     RankingEntry.bestPercent := None;
     RankingEntry.highestRdps := Some (of_Z 7000);
     RankingEntry.kill := Some true;
     RankingEntry.fastestSec := Some (Finite (480000 / 1000));
     RankingEntry.medianRdps := None;
     RankingEntry.characterName := VStr "Alice";
     RankingEntry.serverName := VStr "Tonberry";
     RankingEntry.region := VUndefined;
     RankingEntry.className := Some "BlackMage";
     RankingEntry.specName := Some "BlackMage" |}.

Definition twice : RankingEntry.t :=
  {| RankingEntry.rank := of_Z 1;
     RankingEntry.amount := of_Z 5000;
     RankingEntry.reportCode := "a1B2c3D4";
     RankingEntry.fightID := of_Z 3;
     RankingEntry.bestPercent := None;
     RankingEntry.highestRdps := Some (of_Z 5000);
     RankingEntry.kill := Some true;
     RankingEntry.fastestSec := None;
     RankingEntry.medianRdps := None;
     RankingEntry.characterName := VUndefined;
     RankingEntry.serverName := VUndefined;
     RankingEntry.region := VUndefined;
     RankingEntry.className := None;
     RankingEntry.specName := None |}.

(** A row whose fight id is only in its nested report: it is queued, and
    repaired from the fights of that report. *)
Definition nestedRow : value :=
  VObj [ ("rank", VNum (of_Z 2)); ("amount", VNum (of_Z 4000));
         ("report", VObj [("code", VStr "zzZZ9988"); ("fightID", VNum (of_Z 7))]);
         ("startTime", VNum (of_Z 130000)); ("duration", VNum (of_Z 170000)) ].

(** A row with no report code. *)
Definition bareRow : value := VObj [("rank", VNum (of_Z 3))].

Definition payload : value :=
  VObj [("rankings", VArr [row; nestedRow; bareRow])].

Definition reports : Rankings.Reports :=
  λ code, if String.eqb code "zzZZ9988" then Some fights else None.

Definition firstRank : Rankings.RankingsParams :=
  {| Rankings.encounterID := 100; Rankings.metric := "rdps";
     Rankings.difficulty := Some 101; Rankings.pageSize := None;
     Rankings.rankIndex := 0; Rankings.region := None; Rankings.server := None;
     Rankings.className := None; Rankings.specName := None;
     Rankings.partition := None |}.

Definition upstream : Rankings.World :=
  {| Rankings.replies := [Rankings.Data payload]; Rankings.sent := [] |}.

Definition repaired : RankingEntry.t :=
  {| RankingEntry.rank := of_Z 2;
     RankingEntry.amount := of_Z 4000;
     RankingEntry.reportCode := "zzZZ9988";
     RankingEntry.fightID := of_Z 2;
     RankingEntry.bestPercent := None;
     RankingEntry.highestRdps := Some (of_Z 4000);
     RankingEntry.kill := Some true;
     RankingEntry.fastestSec := Some (Finite (170000 / 1000));
     RankingEntry.medianRdps := None;
     RankingEntry.characterName := VUndefined;
     RankingEntry.serverName := VUndefined;
     RankingEntry.region := VUndefined;
     RankingEntry.className := None;
     RankingEntry.specName := None |}.

End Examples.

(** ** Text in any script

    The ability names that XIVAPI gives and the keywords and names of the
    encounter search are text in any script, Japanese among them, which
    the strings of [JS] (code units below 256) do not cover.  In the
    modules [XivApi] and [Encounters] a [string] stands for a well-formed
    JavaScript string through the bytes of its UTF-8 encoding: equality,
    emptiness and [includes] are then those of the JavaScript strings.
    The two builtins that depend on the characters are left open: the
    results hold for whatever they compute. *)

Module Text.

Class Builtins : Type := {
  (** [s.trim()] *)
  trim : string → string;
  (** [s.toLowerCase()] *)
  toLowerCase : string → string
}.

End Text.

(** ** abilities/xivapi.ts *)

Module XivApi.

Import JS.

(** [event.abilityGameID ?? event.ability?.gameID ?? event.ability?.guid],
    kept when it is a positive number. *)
Definition toAbilityId (event : CastEvent.t) : option Z :=
  match CastEvent.abilityGameID event
          ∪ (CastEvent.ability event ≫= AbilityRef.gameID)
          ∪ (CastEvent.ability event ≫= AbilityRef.guid) with
  | Some id => if 0 <? id then Some id else None
  | None => None
  end.

Section WithText.
Context `{Text.Builtins}.

(** The loop over the languages in [extractStringName]. *)
Fixpoint firstNested (rec : value) (keys : list string) : option string :=
  match keys with
  | [] => None
  | key :: keys' =>
      match get rec key with
      | VStr nested =>
          if (0 <? String.length (Text.trim nested))%nat
          then Some (Text.trim nested)
          else firstNested rec keys'
      | _ => firstNested rec keys'
      end
  end.

Definition extractStringName (v : value) : option string :=
  match v with
  | VStr s =>
      if (0 <? String.length (Text.trim s))%nat then Some (Text.trim s)
      else None
  | _ =>
      if truthy v && is_object v then firstNested v ["ja"; "en"; "de"; "fr"]
      else None
  end.

(** [v?.[0]]: the first element of an array, the property [0] of an
    object, the first code unit of a string (of which only that it is a
    string matters: a string has no property [Name]). *)
Definition first (v : value) : value :=
  match v with
  | VArr items => default VUndefined (head items)
  | VObj _ => get v "0"
  | VStr (String c _) => VStr (String c EmptyString)
  | _ => VUndefined
  end.

(** The candidates of [parseAbilityNameFromPayload], in order. *)
Definition directCandidates (root : value) : list value :=
  [ get root "Name";
    get root "name";
    get (get root "fields") "Name";
    get (get root "Fields") "Name";
    get (get root "data") "Name";
    get (get root "data") "name";
    get (get root "row") "Name";
    get (get (get root "row") "fields") "Name";
    get (first (get root "results")) "Name";
    get (first (get root "Results")) "Name" ].

Fixpoint firstName (candidates : list value) : option string :=
  match candidates with
  | [] => None
  | candidate :: candidates' =>
      match extractStringName candidate with
      | Some name => Some name
      | None => firstName candidates'
      end
  end.

Definition parseAbilityNameFromPayload (payload : value) : option string :=
  if negb (truthy payload) || negb (is_object payload) then None
  else firstName (directCandidates payload).

End WithText.

Inductive Reason : Type := request | parse | notfound.

Inductive FetchResult : Type :=
| ok (payload : value)
| fail (reason : Reason).

(** What [fetchWithTimeout] resolves to: the status and what [json()]
    gives, [None] when it throws. *)
Record Response : Type := {
  status : Z;
  json : option value
}.

(** What the upstream does to one attempt: the fetch throws (transport
    failure, timeout), or a response arrives. *)
Inductive Attempt : Type :=
| Fails
| Responds (response : Response).

(** The [for] loop of [fetchJsonWithRetry]; [attempt] is the loop counter
    and [upstream] what happens to the successive fetches.  The run holds
    the fetches made and the sleeps taken. *)
Fixpoint fetch_loop (maxRetries attempt : Z) (upstream : list Attempt)
    : Client.Run FetchResult :=
  let done (result : FetchResult) (fetches : Z) : Client.Run FetchResult :=
    {| Client.outcome := Returned result; Client.attempts := fetches;
       Client.slept := [] |} in
  if maxRetries + 1 <? attempt then done (fail request) (attempt - 1)
  else
    match upstream with
    | [] =>
        {| Client.outcome := Awaiting; Client.attempts := attempt - 1;
           Client.slept := [] |}
    | a :: upstream' =>
        let again :=
          Client.after_sleep (Client.backoff attempt)
            (fetch_loop maxRetries (attempt + 1) upstream') in
        match a with
        | Fails => if maxRetries <? attempt then done (fail request) attempt else again
        | Responds response =>
            if status response =? 404 then done (fail notfound) attempt
            else if ((status response =? 429) || (500 <=? status response))
                    && (attempt <=? maxRetries)
            then again
            else if negb ((200 <=? status response) && (status response <=? 299))
            then done (fail request) attempt
            else
              match json response with
              | Some payload => done (ok payload) attempt
              | None => done (fail parse) attempt
              end
        end
    end.

Definition fetchJsonWithRetry (maxRetries : Z) (upstream : list Attempt)
    : Client.Run FetchResult :=
  fetch_loop maxRetries 1 upstream.

(** [ids.add(x)] on a [Set] in insertion order. *)
Definition set_add (x : Z) (ids : list Z) : list Z :=
  if bool_decide (x ∈ ids) then ids else ids ++ [x].

Definition candidateIds (rawId : Z) : list Z :=
  let ids := [rawId] in
  if 1000000 <=? rawId then
    let mod1m := Z.rem rawId 1000000 in
    let ids := if 0 <? mod1m then set_add mod1m ids else ids in
    let mod100k := Z.rem rawId 100000 in
    if 0 <? mod100k then set_add mod100k ids else ids
  else ids.

End XivApi.

(** ** fflogs/auth.ts *)

Module Auth.

(** The module variable [cache]. *)
Record TokenCache : Type := {
  accessToken : string;
  expiresAt : Z
}.

Record OAuthResponse : Type := {
  access_token : option string;
  token_type : option string;
  expires_in : option Z
}.

(** What the token endpoint answers: the status line, the body as [text()]
    gives it, and what [json()] gives: a payload, or the message of its
    exception. *)
Record Response : Type := {
  status : Z;
  statusText : string;
  text : string;
  json : string + OAuthResponse
}.

(** What happens to the request: the fetch throws, or a response arrives,
    at the time [received] the clock shows when the cache is written. *)
Inductive Reply : Type :=
| Fails (message : string)
| Responds (response : Response) (received : Z).

(** A call: what it comes to, the cache it leaves, and whether it
    requested a token. *)
Record Call : Type := {
  outcome : Outcome string;
  cache : option TokenCache;
  requested : bool
}.

(** [!json.access_token || !json.expires_in] *)
Definition missing (payload : OAuthResponse) : bool :=
  match access_token payload, expires_in payload with
  | Some token, Some seconds =>
      String.eqb token EmptyString || (seconds =? 0)
  | _, _ => true
  end.

(** [getAccessToken], called with the cache [cache] when the clock shows
    [now]; [reply] is what the token endpoint does if it is asked, [None]
    when it never answers. *)
Definition getAccessToken (cache : option TokenCache) (now : Z)
    (reply : option Reply) : Call :=
  let thrown message :=
    {| outcome := Thrown message; cache := cache; requested := true |} in
  let asked :=
    match reply with
    | None => {| outcome := Awaiting; cache := cache; requested := true |}
    | Some (Fails message) => thrown message
    | Some (Responds response received) =>
        if negb ((200 <=? status response) && (status response <=? 299))
        then thrown ("Failed to fetch OAuth token: "
                       +:+ pretty (status response) +:+ " "
                       +:+ statusText response +:+ " " +:+ text response)
        else
          match json response with
          | inl message => thrown message
          | inr payload =>
              if missing payload
              then thrown ("OAuth token response is missing required "
                             +:+ "fields (access_token/expires_in).")
              else
                let token := default EmptyString (access_token payload) in
                {| outcome := Returned token;
                   cache :=
                     Some {| accessToken := token;
                             expiresAt :=
                               received
                               + default 0 (expires_in payload) * 1000 |};
                   requested := true |}
          end
    end in
  match cache with
  | Some c =>
      if now + 30000 <? expiresAt c
      then {| outcome := Returned (accessToken c); cache := cache;
              requested := false |}
      else asked
  | None => asked
  end.

End Auth.

(** ** fflogs/report.ts: fights and master data *)

Module ReportData.

(** [AbilityDef] as it arrives: an entry of the array may be null, and
    either field absent. *)
Record AbilityDef : Type := {
  gameID : option Z;
  name : option string
}.

Record MasterData : Type := {
  actors : option (list Actor.t);
  abilities : option (list (option AbilityDef))
}.

Record ReportFights : Type := {
  code : string;
  fights : option (list Fight.t)
}.

Record ReportFightsResult : Type := {
  reportCode : string;
  r_fights : list Fight.t
}.

(** [getReportFights], on the value of [data.reportData.report]. *)
Definition getReportFights (reportCode : string) (report : option ReportFights)
    : Result ReportFightsResult :=
  match report with
  | None => Raise ("Report not found or inaccessible: " +:+ reportCode)
  | Some report =>
      Ok {| reportCode := code report; r_fights := default [] (fights report) |}
  end.

(** The first loop of [getReportActorMap]: one turn. *)
Definition setActor (byId : gmap Z Actor.t) (actor : Actor.t)
    : gmap Z Actor.t :=
  <[Actor.id actor := actor]> byId.

(** The second loop: one turn.  An ability without a name, with an empty
    name or without a numeric id is skipped. *)
Definition setAbility (abilityByGameId : gmap Z string)
    (ability : option AbilityDef) : gmap Z string :=
  match ability with
  | Some {| gameID := Some gameID; name := Some name |} =>
      if String.eqb name EmptyString then abilityByGameId
      else <[gameID := name]> abilityByGameId
  | _ => abilityByGameId
  end.

(** [getReportActorMap], on the master data of
    [data.reportData.report], which a report that is not null has. *)
Definition getReportActorMap (reportCode : string) (report : option MasterData)
    : Result ActorMap.t :=
  match report with
  | None => Raise ("Cannot fetch masterData for report: " +:+ reportCode)
  | Some masterData =>
      Ok {| ActorMap.byId :=
              fold_left setActor (default [] (actors masterData)) ∅;
            ActorMap.abilityByGameId :=
              fold_left setAbility (default [] (abilities masterData)) ∅ |}
  end.

End ReportData.

(** ** players/summary.ts *)

Module Summary.

Import JS.

Record AbilitySummary : Type := {
  ability : string;
  abilityId : Z;
  count : Z;
  firstUse : Q;
  lastUse : Q;
  avgInterval : option Q;
  cpm : Q
}.

Record PlayerSummary : Type := {
  player : string;
  playerId : number;
  totalCasts : Z;
  abilities : list AbilitySummary
}.

(** [a.localeCompare(b)], left open: its sign is what the sorts use. *)
Class Collation : Type := localeCompare : string → string → Z.

(** [key.split('#')] *)
Fixpoint split_on (sep : ascii) (s : string) : list string :=
  match s with
  | EmptyString => [EmptyString]
  | String c s' =>
      if Ascii.eqb c sep then EmptyString :: split_on sep s'
      else match split_on sep s' with
           | part :: parts => String c part :: parts
           | [] => [String c EmptyString]
           end
  end.

(** The pairs [(entries[i - 1], entries[i])], for [i] from 1. *)
Definition successive (entries : list PlayerCastEntry.t)
    : list (PlayerCastEntry.t * PlayerCastEntry.t) :=
  zip entries (tail entries).

Definition averageIntervalSeconds (entries : list PlayerCastEntry.t)
    : option Q :=
  if (length entries <? 2)%nat then None
  else
    let total :=
      fold_left
        (λ total pair,
           total + (PlayerCastEntry.t_ pair.2 - PlayerCastEntry.t_ pair.1))%Q
        (successive entries) 0%Q in
    Some (total / inject_Z (Z.of_nat (length entries) - 1))%Q.

(** [summarizeAbility]; reading a field of [sorted[0]] throws when there is
    no entry. *)
Definition summarizeAbility (entries : list PlayerCastEntry.t)
    (durationMinutes : Q) : Result AbilitySummary :=
  let sorted :=
    sort (λ a b, negb (Qle_bool (PlayerCastEntry.t_ a - PlayerCastEntry.t_ b) 0))
      entries in
  match head sorted, last sorted with
  | Some first, Some final =>
      let count := Z.of_nat (length sorted) in
      Ok {| ability := PlayerCastEntry.ability first;
            abilityId := PlayerCastEntry.abilityId first;
            count := count;
            firstUse := PlayerCastEntry.t_ first;
            lastUse := PlayerCastEntry.t_ final;
            avgInterval := averageIntervalSeconds sorted;
            cpm :=
              if negb (Qle_bool durationMinutes 0)
              then (inject_Z count / durationMinutes)%Q else 0%Q |}
  | _, _ =>
      Raise "TypeError: Cannot read properties of undefined (reading 'ability')"
  end.

(** The grouping loop over the entries of a player: one turn. *)
Definition groupEntry (byAbility : list (Z * list PlayerCastEntry.t))
    (entry : PlayerCastEntry.t) : list (Z * list PlayerCastEntry.t) :=
  let abilityId := PlayerCastEntry.abilityId entry in
  map_set abilityId (default [] (map_get abilityId byAbility) ++ [entry])
    byAbility.

(** [xs.map(f)], where [f] may throw. *)
Fixpoint traverse {A B : Type} (f : A → Result B) (xs : list A)
    : Result (list B) :=
  match xs with
  | [] => Ok []
  | x :: xs' =>
      match f x with
      | Raise message => Raise message
      | Ok y =>
          match traverse f xs' with
          | Raise message => Raise message
          | Ok ys => Ok (y :: ys)
          end
      end
  end.

Section WithBuiltins.
Context `{Builtins} `{Collation}.

(** [b.count - a.count || a.ability.localeCompare(b.ability)] *)
Definition byCount (a b : AbilitySummary) : Z :=
  let byCount := count b - count a in
  if negb (byCount =? 0) then byCount
  else localeCompare (ability a) (ability b).

(** [b.totalCasts - a.totalCasts || a.player.localeCompare(b.player)] *)
Definition byTotalCasts (a b : PlayerSummary) : Z :=
  let byTotal := totalCasts b - totalCasts a in
  if negb (byTotal =? 0) then byTotal
  else localeCompare (player a) (player b).

(** The body of the loop over the players. *)
Definition summarizePlayer (durationMinutes : Q)
    (keyed : string * list PlayerCastEntry.t) : Result PlayerSummary :=
  let '(key, entries) := keyed in
  let parts := split_on "#" key in
  let playerName := default EmptyString (head parts) in
  let playerId :=
    Number (default VUndefined (VStr <$> parts !! 1%nat)) in
  let byAbility := fold_left groupEntry entries [] in
  match traverse (λ group, summarizeAbility group.2 durationMinutes) byAbility with
  | Raise message => Raise message
  | Ok summaries =>
      Ok {| player := playerName;
            playerId := playerId;
            totalCasts := Z.of_nat (length entries);
            abilities := sort (λ a b, 0 <? byCount a b) summaries |}
  end.

Definition buildPlayerSummary
    (castsByPlayer : list (string * list PlayerCastEntry.t))
    (fightDurationMs : Z) : Result (list PlayerSummary) :=
  let durationMinutes := (inject_Z fightDurationMs / 1000 / 60)%Q in
  match traverse (summarizePlayer durationMinutes) castsByPlayer with
  | Raise message => Raise message
  | Ok result => Ok (sort (λ a b, 0 <? byTotalCasts a b) result)
  end.

End WithBuiltins.

End Summary.

(** ** web/lib/transform.ts *)

Module ViewModel.

(** [SelectedFight] of web/lib/types.ts. *)
Record SelectedFight : Type := {
  reportCode : string;
  fightID : Z;
  encounterID : Z;
  name : string;
  startTime : Z;
  endTime : Z;
  durationMs : Z;
  difficulty : option Z;
  kill : bool;
  reason : string
}.

Record AbilityUse : Type := {
  ability : string;
  abilityId : Z
}.

Record GridRow : Type := {
  second : Z;
  boss : list AbilityUse;
  players : list (string * list AbilityUse)
}.

Record t : Type := {
  selectedFight : SelectedFight;
  bossName : string;
  playerKeys : list string;
  rows : list GridRow
}.









End ViewModel.

(** ** fflogs/rankings.ts: the encounter search *)

Module Encounters.

Record Encounter : Type := {
  id : Z;
  name : option string
}.

Record Zone : Type := {
  zoneId : Z;
  zoneName : string;
  encounters : option (list Encounter)
}.

Record EncounterCandidate : Type := {
  c_id : Z;
  c_name : option string;
  c_zoneId : Z;
  c_zoneName : string
}.

Section WithText.
Context `{Text.Builtins}.

(** [enc.name?.toLowerCase().includes(k) || String(enc.id).includes(k)] *)
Definition matches (k : string) (enc : Encounter) : bool :=
  match name enc with
  | Some n => JS.includes (Text.toLowerCase n) k
  | None => false
  end
  || JS.includes (pretty (id enc)) k.

(** The state of the two loops: the candidates so far, and whether the
    function has returned. *)
Definition Search : Type := list EncounterCandidate * bool.

(** The inner loop: one turn. *)
Definition scanEncounter (k : string) (maxResults : Z) (zone : Zone)
    (search : Search) (enc : Encounter) : Search :=
  let '(out, returned) := search in
  if returned then search
  else if negb (matches k enc) then search
  else
    let out :=
      out ++ [{| c_id := id enc; c_name := name enc;
                 c_zoneId := zoneId zone; c_zoneName := zoneName zone |}] in
    (out, maxResults <=? Z.of_nat (length out)).

(** The outer loop: one turn. *)
Definition scanZone (k : string) (maxResults : Z) (search : Search)
    (zone : Zone) : Search :=
  fold_left (scanEncounter k maxResults zone)
    (default [] (encounters zone)) search.

(** [searchEncounters], on the value of [data.worldData.zones]. *)
Definition searchEncounters (zones : option (list Zone)) (keyword : string)
    (maxResults : Z) : list EncounterCandidate :=
  let k := Text.toLowerCase (Text.trim keyword) in
  if String.eqb k EmptyString then []
  else (fold_left (scanZone k maxResults) (default [] zones) ([], false)).1.

End WithText.

End Encounters.

(** ** Notions used in the statements of the properties *)

Module Notions.

(** [entry] is the entry [buildPlayerCasts] makes of some event of
    [events] whose source is the actor [id], an actor named as [actor]. *)
Definition made (fightStartTime : Z) (events : list CastEvent.t) (id : Z)
    (actor : Actor.t) (entry : PlayerCastEntry.t) : Prop :=
  PlayerCastEntry.sourceId entry = id ∧
  PlayerCastEntry.source entry = Actor.name actor ∧
  ∃ event, event ∈ events ∧ CastEvent.sourceID event = Some id ∧
    PlayerCastEntry.abilityId entry = BossTimeline.abilityIdOf event ∧
    PlayerCastEntry.t_ entry =
      BossTimeline.relativeSeconds (CastEvent.timestamp event) fightStartTime.

(** [entries] are casts of the player [id], and there are some. *)
Definition castsOf (actors : ActorMap.t) (fightStartTime : Z)
    (events : list CastEvent.t) (id : Z) (entries : list PlayerCastEntry.t)
    : Prop :=
  entries ≠ [] ∧
  ∃ actor, ActorMap.byId actors !! id = Some actor ∧
    Actor.type actor = "Player" ∧
    Forall (made fightStartTime events id actor) entries.

(** The entry the grouping loop of [buildPlayerCasts] makes of an event
    whose source is the actor [id]. *)
Definition castEntry (actors : ActorMap.t) (fightStartTime : Z)
    (extraAbilityById : option (gmap Z string)) (id : Z)
    (event : CastEvent.t) : PlayerCastEntry.t :=
  {| PlayerCastEntry.t_ :=
       BossTimeline.relativeSeconds (CastEvent.timestamp event) fightStartTime;
     PlayerCastEntry.source :=
       default ("Actor#" +:+ pretty id)
         (Actor.name <$> ActorMap.byId actors !! id);
     PlayerCastEntry.sourceId := id;
     PlayerCastEntry.ability :=
       (PlayerCasts.resolveAbility event actors extraAbilityById).1;
     PlayerCastEntry.abilityId :=
       (PlayerCasts.resolveAbility event actors extraAbilityById).2 |}.

(** A character other than [#]. *)
Definition plain (c : ascii) : bool := negb (Ascii.eqb c "#").

(** The keys of the ranking order: the rank ([None] for a rank that is
    not finite, which sorts last), the score (the highest rDPS when it is
    finite, else the amount, else 0) and the percentile (-1 when it is
    not finite). *)
Definition rankOf (e : RankingEntry.t) : option Q :=
  match RankingEntry.rank e with JS.Finite q => Some q | _ => None end.

Definition scoreOf (e : RankingEntry.t) : Q :=
  match RankingEntry.highestRdps e with
  | Some (JS.Finite q) => q
  | _ => match RankingEntry.amount e with JS.Finite q => q | _ => 0 end
  end.

Definition percentOf (e : RankingEntry.t) : Q :=
  match RankingEntry.bestPercent e with Some (JS.Finite q) => q | _ => -1 end.

(** [a] does not come after [b] by score (higher first), then by
    percentile (higher first). *)
Definition tieOrder (a b : RankingEntry.t) : Prop :=
  (scoreOf b < scoreOf a)%Q
  ∨ (scoreOf a == scoreOf b)%Q ∧ (percentOf b <= percentOf a)%Q.

(** [a] does not come after [b]: by rank (lower first), then as above. *)
Definition ranksAtOrBefore (a b : RankingEntry.t) : Prop :=
  match rankOf a, rankOf b with
  | Some p, Some q => (p < q)%Q ∨ (p == q)%Q ∧ tieOrder a b
  | Some _, None => True
  | None, Some _ => False
  | None, None => tieOrder a b
  end.

(** How far a fight is from the start time and, when one is given, the
    duration of a ranking row: the score [pickFightIdFromReport]
    minimizes. *)
Definition distance (targetStart : Q) (targetDuration : option Q)
    (f : Fight.t) : Q :=
  Qabs (inject_Z (Fight.startTime f) - targetStart)
  + match targetDuration with
    | Some d => Qabs (inject_Z (Fight.endTime f - Fight.startTime f) - d)
    | None => 0
    end.

(** [Number.isFinite(v) ? v : null] of an optional number. *)
Definition finitePart (n : option JS.number) : option Q :=
  match n with Some (JS.Finite q) => Some q | _ => None end.

(** The computation [m] sends at most [n] requests, whatever the upstream
    answers. *)
Definition sendsAtMost {A : Type} (m : Rankings.M A) (n : nat) : Prop :=
  ∀ w, (length (Rankings.sent (m w).2) ≤ length (Rankings.sent w) + n)%nat.

(** The encounters of [zones] whose lower-cased name, or whose id in
    decimal, contains the keyword [k], in the order of the zones and of
    their encounters, as candidates. *)
Definition found `{Text.Builtins} (k : string) (zones : list Encounters.Zone)
    : list Encounters.EncounterCandidate :=
  flat_map
    (λ zone,
       (λ enc,
          {| Encounters.c_id := Encounters.id enc;
             Encounters.c_name := Encounters.name enc;
             Encounters.c_zoneId := Encounters.zoneId zone;
             Encounters.c_zoneName := Encounters.zoneName zone |})
       <$> List.filter
             (λ enc,
                match Encounters.name enc with
                | Some n => JS.includes (Text.toLowerCase n) k
                | None => false
                end
                || JS.includes (pretty (Encounters.id enc)) k)
             (default [] (Encounters.encounters zone)))
    zones.

(** The actor [id] is neither a player nor a pet: the master data have no
    actor of type [Player], of type [Pet] or with an owner under this id
    (an id they do not have is neither). *)
Definition nonPlayerNonPet (actors : ActorMap.t) (id : Z) : Prop :=
  match ActorMap.byId actors !! id with
  | None => True
  | Some actor =>
      Actor.type actor ≠ "Player" ∧ Actor.type actor ≠ "Pet"
      ∧ Actor.petOwner actor = None
  end.

(** The number of events whose source is the actor [id]. *)
Definition eventsFrom (events : list CastEvent.t) (id : Z) : Z :=
  Z.of_nat
    (length
       (List.filter
          (λ event, bool_decide (CastEvent.sourceID event = Some id))
          events)).

(** What a timeline entry shows of an event of the boss [boss]: the time
    in seconds from the start of the fight, the name of the boss
    ([Actor#<id>] when the master data have no such actor) and the
    ability id of the event (-1 when it has none). *)
Definition shown (actors : ActorMap.t) (fightStartTime boss : Z)
    (event : CastEvent.t) : Q * string * Z :=
  ((inject_Z (CastEvent.timestamp event - fightStartTime) / 1000)%Q,
   default ("Actor#" +:+ pretty boss)
     (Actor.name <$> ActorMap.byId actors !! boss),
   default (-1)
     (CastEvent.abilityGameID event
        ∪ (CastEvent.ability event ≫= AbilityRef.gameID)
        ∪ (CastEvent.ability event ≫= AbilityRef.guid))).

(** The same of an entry. *)
Definition showing (entry : TimelineEntry.t) : Q * string * Z :=
  (TimelineEntry.t_ entry, TimelineEntry.source entry,
   TimelineEntry.abilityId entry).

(** The type of the event is [cast] or [begincast], in any case. *)
Definition castOrBegincast (event : CastEvent.t) : bool :=
  String.eqb (JS.toLowerCase (CastEvent.type event)) "cast"
  || String.eqb (JS.toLowerCase (CastEvent.type event)) "begincast".

(** The fight passes the kill narrowing: it is a fight of the list, and a
    kill when only kills are asked for and the list has one. *)
Definition narrowed (fights : list Fight.t) (onlyKill : bool) (f : Fight.t)
    : Prop :=
  f ∈ fights ∧
  (onlyKill = true → (∃ g, g ∈ fights ∧ Fight.kill g = true) →
   Fight.kill f = true).

(** The boss or the encounter of the fight is [n]. *)
Definition ofBoss (n : JS.number) (f : Fight.t) : Prop :=
  (∃ b, Fight.boss f = Some b ∧ JS.number_eqb (JS.of_Z b) n = true)
  ∨ JS.number_eqb (JS.of_Z (Fight.encounterID f)) n = true.

(** The fight is one of [pool] after the difficulty preference: it has
    the difficulty asked for when some fight of the pool has. *)
Definition preferred (pool : Fight.t → Prop) (difficulty : option Z)
    (f : Fight.t) : Prop :=
  pool f ∧
  ∀ d, difficulty = Some d → (∃ g, pool g ∧ Fight.difficulty g = Some d) →
    Fight.difficulty f = Some d.

(** A job name as the filter compares it: lower-cased, without anything
    but latin letters and digits. *)
Definition plainJob (s : string) : string :=
  JS.filter_string (λ c, JS.is_lower c || JS.is_digit c) (JS.toLowerCase s).

(** The job a query asks for: the class name, else the spec name, trimmed
    and made plain, an abbreviation standing for the full name. *)
Definition jobAsked (job : option string) : string :=
  let q := plainJob (JS.trim (default EmptyString job)) in
  default q (Rankings.table q Rankings.aliases).

(** The entry passes the job filter: no job is asked for, or the plain
    class or spec name of the entry contains the job asked for, or its
    class is the class id of that job.  (A job written [constructor]
    names a property that every object inherits, and matches nothing.) *)
Definition passesJob (e : RankingEntry.t) (job : option string) : Prop :=
  plainJob (JS.trim (default EmptyString job)) ≠ "constructor" ∧
  (jobAsked job = EmptyString
   ∨ JS.includes
       (plainJob (default EmptyString (RankingEntry.className e)))
       (jobAsked job) = true
   ∨ JS.includes
       (plainJob (default EmptyString (RankingEntry.specName e)))
       (jobAsked job) = true
   ∨ ∃ classId,
       (jobAsked job, classId) ∈ Rankings.canonicalToClassId ∧
       plainJob (default EmptyString (RankingEntry.className e)) = classId).

End Notions.

(** ** More examples *)

Module Samples.

Import JS.


(** The same, preferring a difficulty. *)
Definition prefer (strategy : string) (difficulty : Z)
    : PickFight.PickFightOptions :=
  {| PickFight.strategy := strategy; PickFight.onlyKill := true;
     PickFight.difficulty := Some difficulty; PickFight.reportCode := "ABC123";
     PickFight.debugFightID := None |}.

(** A token response: 200 with a token that lasts an hour, received when
    the clock shows 5000. *)
Definition granted : Auth.Reply :=
  Auth.Responds
    {| Auth.status := 200; Auth.statusText := "OK"; Auth.text := "{}";
       Auth.json :=
         inr {| Auth.access_token := Some "secret";
                Auth.token_type := Some "Bearer";
                Auth.expires_in := Some 3600 |} |}
    5000.

(** A fight of two seconds and a half, shown with one boss and two
    players. *)
Definition shown : ViewModel.SelectedFight :=
  {| ViewModel.reportCode := "ABC123"; ViewModel.fightID := 3;
     ViewModel.encounterID := 101; ViewModel.name := "Boss";
     ViewModel.startTime := 1000; ViewModel.endTime := 3500;
     ViewModel.durationMs := 2500; ViewModel.difficulty := Some 101;
     ViewModel.kill := true; ViewModel.reason := "best" |}.



(** *** Fights of one evening

    A wipe and four kills, all of the boss 100 but the last: a kill on a
    higher difficulty, a long and a short kill, and a kill of another
    boss that outlasts them all; and a kill as long as the long one that
    starts later. *)

Definition wipe : Fight.t := Examples.fight 20 100 "Boss A" false 0 900000 100.
Definition harder : Fight.t :=
  Examples.fight 21 100 "Boss A" true 1000000 1400000 101.
Definition longer : Fight.t :=
  Examples.fight 22 100 "Boss A" true 2000000 2300000 100.
Definition shorter : Fight.t :=
  Examples.fight 23 100 "Boss A" true 3000000 3100000 100.
Definition elsewhere : Fight.t :=
  Examples.fight 24 200 "Boss C" true 5000000 5999999 100.
Definition later : Fight.t :=
  Examples.fight 25 100 "Boss A" true 6000000 6300000 100.

Definition evening : list Fight.t :=
  [wipe; harder; longer; shorter; elsewhere].

(** What [best] selects of the fights of the test. *)
Definition third : SelectedFightMeta.t :=
  {| SelectedFightMeta.reportCode := "ABC123";
     SelectedFightMeta.fightID := 3;
     SelectedFightMeta.encounterID := 101;
     SelectedFightMeta.name := "Boss B";
     SelectedFightMeta.startTime := 310000;
     SelectedFightMeta.endTime := 520000;
     SelectedFightMeta.durationMs := 210000;
     SelectedFightMeta.difficulty := Some 101;
     SelectedFightMeta.kill := true;
     SelectedFightMeta.boss := Some 101;
     SelectedFightMeta.reason := "strategy=best" |}.

(** *** Actors and events of a pull

    A player, two enemies, a pet by its type and a pet by its owner. *)

Definition member (id : Z) (name type : string) (owner : option Z)
    : Z * Actor.t :=
  (id, {| Actor.id := id; Actor.gameID := 0; Actor.name := name;
          Actor.type := type; Actor.subType := None;
          Actor.petOwner := owner |}).

Definition roster : ActorMap.t :=
  {| ActorMap.byId :=
       list_to_map
         [member 1 "Alice" "Player" None; member 2 "Add" "NPC" None;
          member 3 "Titan" "NPC" None; member 4 "Carbuncle" "Pet" None;
          member 5 "Turret" "NPC" (Some 1)];
     ActorMap.abilityByGameId := ∅ |}.

Definition act (timestamp source abilityId : Z) (type : string)
    : CastEvent.t :=
  {| CastEvent.timestamp := timestamp; CastEvent.type := type;
     CastEvent.sourceID := Some source; CastEvent.targetID := None;
     CastEvent.abilityGameID := Some abilityId; CastEvent.ability := None |}.

(** Twenty events of the player, fifteen of the one pet and fourteen of
    the other, five of the enemy 2 and twelve of the enemy 3. *)
Definition crowd : list CastEvent.t :=
  replicate 20 (act 100 1 7 "cast") ++ replicate 15 (act 200 4 8 "cast")
  ++ replicate 14 (act 300 5 8 "cast") ++ replicate 5 (act 1000 2 9 "cast")
  ++ replicate 12 (act 2000 3 9 "cast").

(** Four casts of the player, one of each pet, and of the enemy 3 a cast,
    a hit and the beginning of a cast, out of order. *)
Definition scene : list CastEvent.t :=
  [ act 1500 1 7 "cast"; act 3000 3 10 "cast"; act 1600 4 8 "cast";
    act 2500 3 11 "damage"; act 1700 1 7 "cast"; act 2000 3 9 "BeginCast";
    act 1800 5 8 "cast"; act 1900 1 7 "cast"; act 2100 1 7 "cast" ].

(** The events of the player and of the pets alone. *)
Definition friends : list CastEvent.t :=
  [ act 1500 1 7 "cast"; act 1600 4 8 "cast"; act 1800 5 8 "cast" ].

(** *** Text *)

(** The white space and line terminators of JavaScript above U+0020, as
    three bytes of UTF-8: U+1680, U+2000 to U+200A, U+2028, U+2029,
    U+202F, U+205F, U+3000 and U+FEFF. *)
Definition space3 (a b c : N) : bool :=
  ((a =? 225) && (b =? 154) && (c =? 128))%N
  || ((a =? 226) && (b =? 128)
      && (((128 <=? c) && (c <=? 138)) || (c =? 168) || (c =? 169)
          || (c =? 175)))%N
  || ((a =? 226) && (b =? 129) && (c =? 159))%N
  || ((a =? 227) && (b =? 128) && (c =? 128))%N
  || ((a =? 239) && (b =? 187) && (c =? 191))%N.

(** What follows one character of white space at the start of [s]:
    U+0009 to U+000D and U+0020 in one byte, U+00A0 in two, the others
    in three. *)
Definition skipSpace (s : string) : option string :=
  match s with
  | EmptyString => None
  | String a s1 =>
      if ((9 <=? JS.code a) && (JS.code a <=? 13) || (JS.code a =? 32))%N
      then Some s1
      else
        match s1 with
        | EmptyString => None
        | String b s2 =>
            if ((JS.code a =? 194) && (JS.code b =? 160))%N then Some s2
            else
              match s2 with
              | EmptyString => None
              | String c s3 =>
                  if space3 (JS.code a) (JS.code b) (JS.code c) then Some s3
                  else None
              end
        end
  end.

Fixpoint skipSpaces (fuel : nat) (s : string) : string :=
  match fuel with
  | O => s
  | S fuel' =>
      match skipSpace s with
      | Some rest => skipSpaces fuel' rest
      | None => s
      end
  end.

Definition trimStart (s : string) : string := skipSpaces (String.length s) s.

(** What is left of [s] without the white space at its end. *)
Fixpoint trimEnd (s : string) : string :=
  match s with
  | EmptyString => EmptyString
  | String c s' =>
      if String.eqb (trimStart s) EmptyString then EmptyString
      else String c (trimEnd s')
  end.

Definition lowerLatin (c : ascii) : ascii :=
  if JS.is_upper c then ascii_of_N (JS.code c + 32) else c.

(** The builtins on text in UTF-8, for the examples: [trim] strips the
    white space and line terminators of JavaScript, and [toLowerCase]
    lower-cases the letters A to Z, the only cased letters of the
    examples. *)
Definition utf8 : Text.Builtins :=
  {| Text.trim s := trimEnd (trimStart s);
     Text.toLowerCase := JS.map_string lowerLatin |}.

(** A payload whose own name is an ideographic space, with a name in two
    languages under [fields], the Japanese one between an ideographic
    space and a space. *)
Definition sheet : JS.value :=
  JS.VObj
    [ ("Name", JS.VStr "　");
      ("fields",
       JS.VObj
         [("Name",
           JS.VObj
             [("en", JS.VStr " Storm "); ("ja", JS.VStr "　ストーム ")])]) ].

Definition zones : list Encounters.Zone :=
  [ {| Encounters.zoneId := 1; Encounters.zoneName := "Trials";
       Encounters.encounters :=
         Some [ {| Encounters.id := 100; Encounters.name := Some "Titan" |};
                {| Encounters.id := 101; Encounters.name := Some "Ifrit" |};
                {| Encounters.id := 1002; Encounters.name := Some "Garuda" |} ] |};
    {| Encounters.zoneId := 2; Encounters.zoneName := "Raids";
       Encounters.encounters := None |};
    {| Encounters.zoneId := 3; Encounters.zoneName := "Ultimates";
       Encounters.encounters :=
         Some [ {| Encounters.id := 103; Encounters.name := Some "TITANOMACHY" |};
                {| Encounters.id := 104; Encounters.name := None |};
                {| Encounters.id := 105;
                   Encounters.name := Some "タイタン討滅戦" |} ] |} ].

Definition candidate (id : Z) (name : string) (zoneId : Z) (zoneName : string)
    : Encounters.EncounterCandidate :=
  {| Encounters.c_id := id; Encounters.c_name := Some name;
     Encounters.c_zoneId := zoneId; Encounters.c_zoneName := zoneName |}.

(** *** A ranking page of three jobs

    Three rows of rank 1, in the order of their names: a dragoon, a black
    mage with the highest score, and a dragoon with a higher score than
    the first. *)

Definition rowOf (rdps : Z) (code name job : string) : JS.value :=
  JS.VObj
    [ ("rank", JS.VNum (JS.of_Z 1)); ("amount", JS.VNum (JS.of_Z 4000));
      ("rDPS", JS.VNum (JS.of_Z rdps)); ("reportCode", JS.VStr code);
      ("fightID", JS.VNum (JS.of_Z 3)); ("name", JS.VStr name);
      ("class", JS.VStr job); ("spec", JS.VStr job) ].

Definition ranked (rdps : Z) (code name job : string) : RankingEntry.t :=
  {| RankingEntry.rank := JS.of_Z 1;
     RankingEntry.amount := JS.of_Z 4000;
     RankingEntry.reportCode := code;
     RankingEntry.fightID := JS.of_Z 3;
     RankingEntry.bestPercent := None;
     RankingEntry.highestRdps := Some (JS.of_Z rdps);
     RankingEntry.kill := Some true;
     RankingEntry.fastestSec := None;
     RankingEntry.medianRdps := None;
     RankingEntry.characterName := JS.VStr name;
     RankingEntry.serverName := JS.VUndefined;
     RankingEntry.region := JS.VUndefined;
     RankingEntry.className := Some job;
     RankingEntry.specName := Some job |}.

Definition jobs : Rankings.World :=
  {| Rankings.replies :=
       [Rankings.Data
          (JS.VObj
             [("rankings",
               JS.VArr
                 [ rowOf 5000 "a1B2c3D4" "Alice" "Dragoon";
                   rowOf 7000 "b1B2c3D4" "Bob" "Black Mage";
                   rowOf 6000 "c1B2c3D4" "Carol" "Dragoon" ])])];
     Rankings.sent := [] |}.

(** The first rank among the dragoons, asked for by abbreviation. *)
Definition dragoons : Rankings.RankingsParams :=
  {| Rankings.encounterID := 100; Rankings.metric := "rdps";
     Rankings.difficulty := Some 101; Rankings.pageSize := None;
     Rankings.rankIndex := 0; Rankings.region := None; Rankings.server := None;
     Rankings.className := None; Rankings.specName := Some "DRG";
     Rankings.partition := None |}.

End Samples.

(** * Properties *)

(** ** Sorting *)

Module SortFacts.

Section Sort.
Context {A : Type} (gt : A → A → bool).

Lemma insert_sorted_perm x l : JS.insert_sorted gt x l ≡ₚ x :: l.
Proof.
  induction l as [|y l IH]; simpl; [done|].
  destruct (gt x y); [|done].
  rewrite IH. apply Permutation_swap.
Qed.

Lemma sort_perm l : JS.sort gt l ≡ₚ l.
Proof.
  induction l as [|x l IH]; simpl; [done|].
  by rewrite insert_sorted_perm, IH.
Qed.

Lemma elem_of_sort x l : x ∈ JS.sort gt l ↔ x ∈ l.
Proof. by rewrite sort_perm. Qed.

Lemma sort_nil_inv l : JS.sort gt l = [] → l = [].
Proof.
  intros Hnil. apply Permutation_nil_r. by rewrite <- Hnil, sort_perm.
Qed.

Lemma gt_irrefl x :
  (∀ a b, gt a b = true → gt b a = false) → gt x x = false.
Proof.
  intros Htotal. destruct (gt x x) eqn:Hrefl; [|done].
  by rewrite (Htotal _ _ Hrefl) in Hrefl.
Qed.

(** When the comparator never being positive is a total preorder, the
    sorted array starts with an element that it puts after no other. *)
Lemma head_sort_least l first :
  (∀ a b, gt a b = true → gt b a = false) →
  (∀ a b c, gt a b = false → gt b c = false → gt a c = false) →
  head (JS.sort gt l) = Some first →
  first ∈ l ∧ ∀ other, other ∈ l → gt first other = false.
Proof.
  intros Htotal Htrans. revert first.
  induction l as [|x l IH]; intros first; simpl; [done|].
  destruct (JS.sort gt l) as [|y sorted] eqn:Hsorted; simpl.
  - apply sort_nil_inv in Hsorted. subst l. intros [= <-].
    split; [by constructor|].
    intros other Hother. apply list_elem_of_singleton in Hother. subst other.
    by apply gt_irrefl.
  - destruct (IH y eq_refl) as [Hy Hleast].
    destruct (gt x y) eqn:Hxy; simpl; intros [= <-].
    + split; [by constructor|].
      intros other [->|Hother]%elem_of_cons; [by apply Htotal|by apply Hleast].
    + split; [by constructor|].
      intros other [->|Hother]%elem_of_cons; [by apply gt_irrefl|].
      eapply Htrans; [exact Hxy|by apply Hleast].
Qed.

End Sort.

End SortFacts.

(** ** Cursor pagination *)

Module ReportSpec.

Import Report.




(** The loop ends on every finite list of replies; it is left waiting only
    when every reply was a page that announces a further one. *)
Lemma getAllEvents_loop_awaiting params replies cursor all :
  outcome (getAllEvents_loop params replies cursor all) = Awaiting →
  ∃ pages, replies = answering pages ∧
    Forall (λ events, is_Some (EventsPage.nextPageTimestamp events)) pages.
Proof.
  revert cursor all.
  induction replies as [|reply replies IH]; intros cursor all; simpl.
  - by exists [].
  - destruct reply as [[events|]|message]; simpl; try done.
    destruct (lastPage events cursor) eqn:Hlast; simpl; [done|].
    intros (pages & -> & Hall)%IH.
    exists (events :: pages). split; [done|].
    constructor; [|done].
    unfold lastPage in Hlast.
    by destruct (EventsPage.nextPageTimestamp events).
Qed.






End ReportSpec.

(** ** The retrying client *)

Module ClientSpec.

Import Client.

Lemma turn_retryable {T} maxRetries attempt (response : Response T) :
  status response ∈ RETRYABLE_STATUS → attempt ≤ maxRetries →
  turn maxRetries attempt (Responds response) = Sleep (250 * 2 ^ (attempt - 1)).
Proof.
  intros Hstatus Hle. unfold turn.
  rewrite bool_decide_eq_true_2 by done.
  by rewrite (proj2 (Z.leb_le _ _) Hle).
Qed.

Lemma request_loop_cons {T} maxRetries attempt (a : Attempt T) upstream :
  request_loop maxRetries attempt (a :: upstream) =
    match turn maxRetries (attempt + 1) a with
    | Sleep ms => after_sleep ms (request_loop maxRetries (attempt + 1) upstream)
    | Return d => {| outcome := Returned d; attempts := attempt + 1; slept := [] |}
    | Throw message =>
        {| outcome := Thrown message; attempts := attempt + 1; slept := [] |}
    end.
Proof. reflexivity. Qed.

(** A response with a success status, no errors and data is returned. *)
Lemma turn_success {T} maxRetries attempt (response : Response T) payload d :
  200 ≤ status response ≤ 299 → json response = inr payload →
  errors payload = None ∨ errors payload = Some [] → data payload = Some d →
  turn maxRetries attempt (Responds response) = Return d.
Proof.
  intros [Hlo Hhi] Hjson Herrors Hdata. unfold turn.
  rewrite bool_decide_eq_false_2; simpl.
  - unfold ok. rewrite (proj2 (Z.leb_le _ _) Hlo), (proj2 (Z.leb_le _ _) Hhi).
    simpl. rewrite Hjson, Hdata. by destruct Herrors as [He | He]; rewrite He.
  - unfold RETRYABLE_STATUS. rewrite !elem_of_cons, elem_of_nil. lia.
Qed.

(** The loop takes at most [maxRetries + 1] turns: it is never left waiting
    by an upstream that has that many answers. *)
Lemma request_loop_answered {T} maxRetries attempt (upstream : list (Attempt T)) :
  0 ≤ attempt → maxRetries - attempt < Z.of_nat (length upstream) →
  0 < Z.of_nat (length upstream) →
  outcome (request_loop maxRetries attempt upstream) ≠ Awaiting.
Proof.
  revert attempt.
  induction upstream as [|a upstream IH]; intros attempt Hattempt Hlen Hpos;
    simpl in *; [lia|].
  destruct (turn maxRetries (attempt + 1) a) as [ms| |] eqn:Hturn; simpl; try done.
  apply IH; [lia| |].
  - lia.
  - assert (attempt + 1 ≤ maxRetries) as Hle.
    { unfold turn, caught in Hturn.
      repeat (case_match; simplify_eq); try lia;
        repeat match goal with
        | H : (_ && _) = true |- _ => apply andb_true_iff in H as [? ?]
        end; lia. }
    lia.
Qed.

(** [request] comes to a value or an exception once the upstream has
    answered [maxRetries + 1] attempts, and at least one. *)
Lemma request_answered {T} config (upstream : list (Attempt T)) :
  default DEFAULT_RETRIES (maxRetries config) < Z.of_nat (length upstream) →
  0 < Z.of_nat (length upstream) →
  outcome (request config upstream) ≠ Awaiting.
Proof. intros Hmax Hpos. apply request_loop_answered; lia. Qed.

(** C8: a response with a status in {429, 500, 502, 503, 504}, on an
    attempt whose counter (1 for the first) does not exceed the maximum,
    makes [request] sleep 250ms * 2^(attempt-1) and go on to the next
    attempt; with the default maximum of 4, three responses 429 followed by
    a 200 with data and no errors give that data, after sleeps of 250, 500
    and 1000 ms and no exception. *)
Theorem request_retries_with_backoff {T} :
  (∀ maxRetries attempt (response : Response T) upstream,
     status response ∈ RETRYABLE_STATUS → attempt + 1 ≤ maxRetries →
     request_loop maxRetries attempt (Responds response :: upstream) =
       after_sleep (250 * 2 ^ (attempt + 1 - 1))
         (request_loop maxRetries (attempt + 1) upstream)) ∧
  (∀ config (r1 r2 r3 r4 : Response T) payload d upstream,
     maxRetries config = None →
     status r1 = 429 → status r2 = 429 → status r3 = 429 →
     status r4 = 200 → json r4 = inr payload →
     errors payload = None ∨ errors payload = Some [] → data payload = Some d →
     request config
       (Responds r1 :: Responds r2 :: Responds r3 :: Responds r4 :: upstream) =
       {| outcome := Returned d; attempts := 4; slept := [250; 500; 1000] |}).
Proof.
  split.
  - intros maxRetries attempt response upstream Hstatus Hle.
    by rewrite request_loop_cons, turn_retryable.
  - intros config r1 r2 r3 r4 payload d upstream Hmax H1 H2 H3 H4 Hjson
      Herrors Hdata.
    unfold request. rewrite Hmax. cbn [default].
    assert (∀ s, s = 429 → s ∈ RETRYABLE_STATUS) as Hin.
    { intros s ->. by constructor. }
    unfold DEFAULT_RETRIES.
    do 3 (rewrite request_loop_cons, turn_retryable by auto with lia).
    rewrite request_loop_cons, (turn_success _ _ r4 payload d) by (auto with lia).
    reflexivity.
Qed.

Lemma request_retries_with_backoff_witness :
  request_loop 4 0 [Examples.tooMany; Examples.tooMany] =
    after_sleep 250 (request_loop 4 1 [Examples.tooMany]) ∧
  request Examples.defaults
    [Examples.tooMany; Examples.tooMany; Examples.tooMany; Examples.fine] =
    {| outcome := Returned 42; attempts := 4; slept := [250; 500; 1000] |}.
Proof.
  destruct (@request_retries_with_backoff Z) as [Hstep Hrun]. split.
  - apply (Hstep 4 0 _ [Examples.tooMany]); [|lia].
    by constructor.
  - apply (Hrun Examples.defaults _ _ _ _
             {| data := Some 42; errors := None |} 42 []);
      try reflexivity.
    by left.
Defined.

(** C3 does not hold of the code: with the default maximum of 4 retries, a
    response 400 does not fail the request at once: the exception is caught
    by the retry clause, and the request is attempted five times, with
    sleeps of 250, 500, 1000 and 2000 ms, before the error with the body
    comes out; a 200 response with GraphQL errors is retried the same way;
    and a response 400 followed by a 200 with data gives that data. *)
Theorem request_retries_non_retryable :
  request Examples.defaults (replicate 5 Examples.badRequest) =
    {| outcome := Thrown "GraphQL request failed: 400 Bad Request bad query";
       attempts := 5; slept := [250; 500; 1000; 2000] |} ∧
  request Examples.defaults (replicate 5 Examples.graphqlErrors) =
    {| outcome := Thrown "GraphQL errors: Unknown field | Syntax error";
       attempts := 5; slept := [250; 500; 1000; 2000] |} ∧
  request Examples.defaults [Examples.badRequest; Examples.fine] =
    {| outcome := Returned 42; attempts := 2; slept := [250] |}.
Proof. repeat split; vm_compute; reflexivity. Qed.

End ClientSpec.

(** ** Fight selection *)

Module PickFightSpec.

Import PickFight.

Lemma elem_of_List_filter {A} (f : A → bool) (x : A) l :
  x ∈ List.filter f l ↔ x ∈ l ∧ f x = true.
Proof. by rewrite !list_elem_of_In, filter_In. Qed.

Lemma withDifficultyPriority_subset fights difficulty f :
  f ∈ withDifficultyPriority fights difficulty → f ∈ fights.
Proof.
  unfold withDifficultyPriority.
  destruct difficulty as [d|]; [|done].
  case_match; [|done].
  by intros [? _]%elem_of_List_filter.
Qed.

Lemma byBest_ranksAtOrAbove a b :
  (0 <? byBest a b) = false ↔ ranksAtOrAbove a b.
Proof.
  unfold byBest, ranksAtOrAbove, duration. rewrite Z.ltb_ge.
  destruct (Fight.kill a), (Fight.kill b); simpl;
    repeat (case_match; simpl);
    repeat match goal with
    | H : (_ =? _) = true |- _ => apply Z.eqb_eq in H
    | H : (_ =? _) = false |- _ => apply Z.eqb_neq in H
    | H : negb _ = true |- _ => apply negb_true_iff in H
    | H : negb _ = false |- _ => apply negb_false_iff in H
    end; split; intros; try lia; intuition (try discriminate; lia).
Qed.

Lemma ranksAtOrAbove_total a b : ¬ ranksAtOrAbove a b → ranksAtOrAbove b a.
Proof.
  unfold ranksAtOrAbove.
  destruct (Fight.kill a), (Fight.kill b); simpl; intros Hnot;
    try (left; lia); try (exfalso; apply Hnot; left; lia);
    right; split; [done| |done|]; lia.
Qed.

Lemma ranksAtOrAbove_trans a b c :
  ranksAtOrAbove a b → ranksAtOrAbove b c → ranksAtOrAbove a c.
Proof.
  unfold ranksAtOrAbove.
  destruct (Fight.kill a), (Fight.kill b), (Fight.kill c); simpl;
    intros [?|[? ?]] [?|[? ?]]; try lia; try discriminate;
    right; split; try done; lia.
Qed.

Section WithBuiltins.
Context `{JS.Builtins}.

Lemma killNarrowed_nonempty fights options :
  fights ≠ [] → killNarrowed fights options ≠ [].
Proof.
  intros Hfights. unfold killNarrowed.
  destruct (onlyKill options); [|done].
  case_match eqn:Hkills; [|done].
  apply Z.ltb_lt in Hkills. by destruct (List.filter Fight.kill fights).
Qed.

Lemma killNarrowed_subset fights options f :
  f ∈ killNarrowed fights options → f ∈ fights.
Proof.
  unfold killNarrowed. repeat case_match; try done.
  by intros [? _]%elem_of_List_filter.
Qed.

Lemma killNarrowed_kills fights options killed f :
  onlyKill options = true → killed ∈ fights → Fight.kill killed = true →
  f ∈ killNarrowed fights options → Fight.kill f = true.
Proof.
  intros Honly Hin Hkill. unfold killNarrowed. rewrite Honly.
  case_match eqn:Hkills.
  - by intros [_ ?]%elem_of_List_filter.
  - apply Z.ltb_ge in Hkills.
    assert (killed ∈ List.filter Fight.kill fights) as Hfiltered
      by by apply elem_of_List_filter.
    destruct (List.filter Fight.kill fights); [|simpl in Hkills; lia].
    by apply elem_of_nil in Hfiltered.
Qed.

Lemma candidatesOf_subset fights options candidates f :
  candidatesOf fights options = Ok candidates →
  f ∈ candidates → f ∈ killNarrowed fights options.
Proof.
  unfold candidatesOf. repeat case_match; intros [= <-]; try done.
  - by intros [? _]%withDifficultyPriority_subset%elem_of_List_filter.
  - apply withDifficultyPriority_subset.
Qed.

Lemma selected_Ok reportCode fight reason sel :
  selected reportCode fight reason = Ok sel →
  ∃ f, fight = Some f ∧ sel = toSelectedFight reportCode f reason.
Proof. destruct fight as [f|]; [|done]. intros [= <-]. by exists f. Qed.

(** Whatever the strategy, the fight selected is one of the candidates. *)
Lemma applyStrategy_candidate candidates options sel :
  applyStrategy candidates options = Ok sel →
  ∃ f reason, f ∈ candidates ∧ sel = toSelectedFight (reportCode options) f reason.
Proof.
  unfold applyStrategy, sorted.
  repeat case_match; try done;
    intros (f & Hf & ->)%selected_Ok; exists f; eexists; (split; [|done]).
  - apply last_Some_elem_of, SortFacts.elem_of_sort, elem_of_List_filter in Hf.
    tauto.
  - apply head_Some_elem_of, SortFacts.elem_of_sort, elem_of_List_filter in Hf.
    tauto.
  - by apply head_Some_elem_of, SortFacts.elem_of_sort in Hf.
  - by apply head_Some_elem_of, SortFacts.elem_of_sort in Hf.
Qed.

(** C6: with [onlyKill] set and no override fight id, if some fight of the
    list is a kill then every fight [pickFight] returns is a kill; and the
    kill narrowing of a non-empty list is never empty. *)
Theorem pickFight_onlyKill_returns_kill fights options :
  (∀ killed sel,
     onlyKill options = true → debugFightID options = None →
     killed ∈ fights → Fight.kill killed = true →
     pickFight fights options = Ok sel → SelectedFightMeta.kill sel = true) ∧
  (fights ≠ [] → killNarrowed fights options ≠ []).
Proof.
  split; [|apply killNarrowed_nonempty].
  intros killed sel Honly Hdebug Hin Hkill. unfold pickFight.
  rewrite Hdebug. case_match; [done|].
  destruct (candidatesOf fights options) as [candidates|] eqn:Hcandidates; [|done].
  intros (f & reason & Hf & ->)%applyStrategy_candidate. simpl.
  apply (killNarrowed_kills fights options killed f); try done.
  by eapply candidatesOf_subset.
Qed.

(** C7: with the strategy [best] and no override, the fight [pickFight]
    returns is a candidate (after the kill narrowing and the difficulty
    preference) that ranks at or above every candidate in the order kill
    status, difficulty, duration (end time minus start time), start time,
    each descending; and over the fights 1 (no kill), 2 (kill, difficulty
    100) and 3 (kill, difficulty 101), in increasing start-time order,
    with [onlyKill] set and no difficulty asked for, both [best] and
    [lastKill] select fight 3. *)
Theorem pickFight_best_selects_top :
  (∀ fights options sel,
     strategy options = "best" → debugFightID options = None →
     pickFight fights options = Ok sel →
     let candidates :=
       withDifficultyPriority (killNarrowed fights options) (difficulty options) in
     ∃ first,
       first ∈ candidates ∧
       SelectedFightMeta.fightID sel = Fight.id first ∧
       sel = toSelectedFight (reportCode options) first "strategy=best" ∧
       ∀ other, other ∈ candidates → ranksAtOrAbove first other) ∧
  (∀ f1 f2 f3 how code,
     Fight.id f1 = 1 → Fight.kill f1 = false →
     Fight.id f2 = 2 → Fight.kill f2 = true → Fight.difficulty f2 = Some 100 →
     Fight.id f3 = 3 → Fight.kill f3 = true → Fight.difficulty f3 = Some 101 →
     Fight.startTime f1 < Fight.startTime f2 < Fight.startTime f3 →
     how = "best" ∨ how = "lastKill" →
     ∃ sel,
       pickFight [f1; f2; f3]
         {| strategy := how; onlyKill := true; difficulty := None;
            reportCode := code; debugFightID := None |} = Ok sel ∧
       SelectedFightMeta.fightID sel = 3).
Proof.
  split.
  - intros fights options sel Hbest Hdebug. unfold pickFight.
    rewrite Hdebug. case_match; [done|].
    unfold candidatesOf, parseByBoss. rewrite Hbest. simpl.
    unfold applyStrategy, sorted. rewrite Hbest. simpl.
    intros (first & Hhead & ->)%selected_Ok.
    apply SortFacts.head_sort_least in Hhead as [Hin Hleast].
    + exists first. split; [done|]. split; [done|]. split; [done|].
      intros other Hother. by apply byBest_ranksAtOrAbove, Hleast.
    + intros a b Hab. apply byBest_ranksAtOrAbove, ranksAtOrAbove_total.
      intros Hranks%byBest_ranksAtOrAbove. congruence.
    + intros a b c Hab%byBest_ranksAtOrAbove Hbc%byBest_ranksAtOrAbove.
      apply byBest_ranksAtOrAbove. by eapply ranksAtOrAbove_trans.
  - intros f1 f2 f3 how code Hid1 Hkill1 Hid2 Hkill2 Hdiff2 Hid3 Hkill3 Hdiff3
      [Hlt12 Hlt23] Hhow.
    exists (toSelectedFight code f3 ("strategy=" +:+ how)).
    split; [|done].
    unfold pickFight, candidatesOf, killNarrowed, parseByBoss; simpl.
    rewrite Hkill1, Hkill2, Hkill3; simpl.
    destruct Hhow as [-> | ->]; simpl;
      unfold applyStrategy, sorted; simpl; rewrite ?Hkill2, ?Hkill3; simpl.
    + unfold byBest. rewrite Hkill2, Hkill3, Hdiff2, Hdiff3. simpl. done.
    + unfold byStartTime.
      by rewrite (proj2 (Z.ltb_ge _ _)) by lia.
Qed.

End WithBuiltins.

Lemma pickFight_onlyKill_returns_kill_witness :
  ∃ sel,
    @pickFight Examples.builtins Examples.fights (Examples.pick "longest") =
      Ok sel ∧
    SelectedFightMeta.kill sel = true.
Proof.
  eexists. split; [reflexivity|].
  apply (proj1 (@pickFight_onlyKill_returns_kill Examples.builtins
                  Examples.fights (Examples.pick "longest")) Examples.fight2);
    try reflexivity.
  right. by left.
Defined.

(** Of two kills on one difficulty the longer is selected, although it
    comes second and starts first; of two that last as long, the one that
    starts later; and of the three fights of the claim, the third. *)
Lemma pickFight_best_selects_top_witness :
  (∃ first,
     first ∈ [Samples.shorter; Samples.longer] ∧
     22 = Fight.id first ∧
     Fight.endTime first - Fight.startTime first = 300000 ∧
     ∀ other, other ∈ [Samples.shorter; Samples.longer] →
       ranksAtOrAbove first other) ∧
  (∃ first,
     first ∈ [Samples.later; Samples.longer] ∧
     25 = Fight.id first ∧
     ∀ other, other ∈ [Samples.later; Samples.longer] →
       ranksAtOrAbove first other) ∧
  (∃ first,
     first ∈ [Examples.fight2; Examples.fight3] ∧
     3 = Fight.id first ∧
     ∀ other, other ∈ [Examples.fight2; Examples.fight3] →
       ranksAtOrAbove first other) ∧
  ∃ sel,
    @pickFight Examples.builtins Examples.fights (Examples.pick "lastKill") =
      Ok sel ∧
    SelectedFightMeta.fightID sel = 3.
Proof.
  destruct (@pickFight_best_selects_top Examples.builtins) as [Htop Hthree].
  split; [|split; [|split]].
  - destruct (Htop [Samples.shorter; Samples.longer] (Examples.pick "best")
                (toSelectedFight "ABC123" Samples.longer "strategy=best")
                eq_refl eq_refl eq_refl)
      as (first & Hin & Hid & Hsel & Hrank).
    exists first. split; [done|]. split; [exact Hid|]. split; [|done].
    pose proof (f_equal SelectedFightMeta.endTime Hsel) as Hend.
    pose proof (f_equal SelectedFightMeta.startTime Hsel) as Hstart.
    simpl in Hend, Hstart. by rewrite <- Hend, <- Hstart.
  - destruct (Htop [Samples.later; Samples.longer] (Examples.pick "best")
                (toSelectedFight "ABC123" Samples.later "strategy=best")
                eq_refl eq_refl eq_refl)
      as (first & Hin & Hid & _ & Hrank).
    exists first. done.
  - destruct (Htop Examples.fights (Examples.pick "best")
                (toSelectedFight "ABC123" Examples.fight3 "strategy=best")
                eq_refl eq_refl eq_refl)
      as (first & Hin & Hid & _ & Hrank).
    exists first. done.
  - apply (Hthree Examples.fight1 Examples.fight2 Examples.fight3 "lastKill"
             "ABC123");
      try reflexivity; [simpl; lia|by right].
Defined.

End PickFightSpec.

(** ** Boss inference *)

Module BossTimelineSpec.

Import BossTimeline.

Section OrderedMap.
Context {V : Type}.
Implicit Types (m : list (Z * V)) (k : Z) (v : V).

Lemma map_get_set_eq k v m : JS.map_get k (JS.map_set k v m) = Some v.
Proof.
  induction m as [|[k' v'] m IH]; simpl.
  - by rewrite Z.eqb_refl.
  - destruct (k' =? k) eqn:Hk; simpl; by rewrite Hk.
Qed.

Lemma map_get_set_ne k k' v m :
  k ≠ k' → JS.map_get k' (JS.map_set k v m) = JS.map_get k' m.
Proof.
  intros Hne. induction m as [|[k'' v''] m IH]; simpl.
  - by rewrite (proj2 (Z.eqb_neq _ _) Hne).
  - destruct (k'' =? k) eqn:Hk; simpl; [|by rewrite IH].
    apply Z.eqb_eq in Hk as ->. by rewrite (proj2 (Z.eqb_neq _ _) Hne).
Qed.

Lemma map_get_elem_of k v m : JS.map_get k m = Some v → (k, v) ∈ m.
Proof.
  induction m as [|[k' v'] m IH]; simpl; [done|].
  destruct (k' =? k) eqn:Hk.
  - apply Z.eqb_eq in Hk as ->. intros [= ->]. by left.
  - intros ?%IH. by right.
Qed.

Lemma map_get_None k m : JS.map_get k m = None → k ∉ m.*1.
Proof.
  induction m as [|[k' v'] m IH]; csimpl; [intros _; apply not_elem_of_nil|].
  destruct (k' =? k) eqn:Hk; [done|].
  apply Z.eqb_neq in Hk. intros ?%IH. rewrite not_elem_of_cons. done.
Qed.

Lemma map_set_keys k v m :
  (JS.map_set k v m).*1 =
    if bool_decide (is_Some (JS.map_get k m)) then m.*1 else m.*1 ++ [k].
Proof.
  induction m as [|[k' v'] m IH]; csimpl; [done|].
  destruct (k' =? k) eqn:Hk; csimpl; [done|].
  rewrite IH. by case_bool_decide.
Qed.

Lemma map_set_NoDup k v m : NoDup m.*1 → NoDup (JS.map_set k v m).*1.
Proof.
  intros Hm. rewrite map_set_keys. case_bool_decide as Hk; [done|].
  apply NoDup_app. split; [done|]. split; [|apply NoDup_singleton].
  intros k' Hk' ->%list_elem_of_singleton.
  apply Hk. destruct (JS.map_get k m) eqn:Hget; [done|].
  by apply map_get_None in Hget.
Qed.

Lemma elem_of_map_get k v m : NoDup m.*1 → (k, v) ∈ m → JS.map_get k m = Some v.
Proof.
  induction m as [|[k' v'] m IH]; csimpl; [by intros _ ?%elem_of_nil|].
  intros [Hk' Hm]%NoDup_cons [[= -> ->]|Hin]%elem_of_cons.
  - by rewrite Z.eqb_refl.
  - destruct (k' =? k) eqn:Hk; [|by apply IH].
    apply Z.eqb_eq in Hk as ->. destruct Hk'.
    by apply (list_elem_of_fmap_2 fst) in Hin.
Qed.

End OrderedMap.

Section Counting.
Context (actors : ActorMap.t).

Lemma eventCount_snoc events event id :
  eventCount actors (events ++ [event]) id =
    eventCount actors events id + (if counted actors id event then 1 else 0).
Proof.
  unfold eventCount. rewrite List.filter_app, length_app. simpl.
  destruct (counted actors id event); simpl; lia.
Qed.

Lemma eventCount_nonneg events id : 0 ≤ eventCount actors events id.
Proof. unfold eventCount. lia. Qed.

(** Only the events of actors that are neither players nor pets count. *)
Lemma eventCount_candidate events id :
  0 < eventCount actors events id →
  isEnemyCandidate (ActorMap.byId actors !! id) = true.
Proof.
  unfold eventCount, counted.
  destruct (isEnemyCandidate _); [done|].
  induction events as [|event events IH]; simpl; [lia|].
  by rewrite andb_false_r.
Qed.

(** The map of the first loop holds, for every actor with events that
    count, their number, and nothing else. *)
Lemma tally_get events id :
  JS.map_get id (tally actors events) =
    if eventCount actors events id =? 0 then None
    else Some (eventCount actors events id).
Proof.
  induction events as [|event events IH] using rev_ind; [done|].
  unfold tally in *. rewrite fold_left_app, eventCount_snoc. simpl.
  pose proof (eventCount_nonneg events id) as Hnonneg.
  unfold countEvent at 1, counted.
  destruct (CastEvent.sourceID event) as [sourceID|]; simpl.
  2: { rewrite IH, Z.add_0_r. done. }
  destruct (decide (sourceID = id)) as [->|Hne].
  - rewrite bool_decide_eq_true_2 by done. simpl.
    destruct (isEnemyCandidate _); [|by rewrite IH, Z.add_0_r].
    rewrite map_get_set_eq, IH.
    destruct (eventCount actors events id =? 0) eqn:Hzero; simpl.
    + apply Z.eqb_eq in Hzero as ->. done.
    + rewrite (proj2 (Z.eqb_neq _ _)) by lia. done.
  - rewrite bool_decide_eq_false_2 by congruence. simpl. rewrite Z.add_0_r.
    destruct (isEnemyCandidate _); [|done].
    by rewrite map_get_set_ne.
Qed.

Lemma tally_NoDup events : NoDup (tally actors events).*1.
Proof.
  induction events as [|event events IH] using rev_ind; [constructor|].
  unfold tally in *. rewrite fold_left_app. simpl.
  unfold countEvent at 1. repeat case_match; try done.
  by apply map_set_NoDup.
Qed.

(** The second loop keeps the first entry with the greatest count. *)
Lemma pickBest_fold counts best :
  match fold_left pickBest counts best with
  | Some b =>
      (Some b = best ∨ b ∈ counts)
      ∧ (∀ b0, best = Some b0 → b0.2 ≤ b.2)
      ∧ ∀ entry, entry ∈ counts → entry.2 ≤ b.2
  | None => best = None ∧ counts = []
  end.
Proof.
  revert best. induction counts as [|entry counts IH]; intros best; simpl.
  - destruct best; [|done]. split; [by left|]. split; [by intros ? [= ->]|].
    by intros ? ?%elem_of_nil.
  - specialize (IH (pickBest best entry)).
    destruct (fold_left pickBest counts (pickBest best entry)) as [b|];
      [|by destruct IH as [? _], best; simpl in *; repeat case_match].
    destruct IH as (Hfrom & Hbest & Hmax).
    assert (entry.2 ≤ b.2 ∧ ∀ b0, best = Some b0 → b0.2 ≤ b.2)
      as [Hentry Hbest'].
    { unfold pickBest in Hbest. destruct best as [b0|].
      - destruct (b0.2 <? entry.2) eqn:Hlt.
        + apply Z.ltb_lt in Hlt. specialize (Hbest _ eq_refl).
          split; [done|]. intros ? [= <-]. lia.
        + apply Z.ltb_ge in Hlt. specialize (Hbest _ eq_refl).
          split; [lia|]. by intros ? [= <-].
      - split; [by apply Hbest|done]. }
    split; [|split; [done|]].
    + destruct Hfrom as [Hfrom|Hfrom]; [|by right; right].
      unfold pickBest in Hfrom. destruct best as [b0|].
      * destruct (b0.2 <? entry.2); [|by left].
        injection Hfrom as ->. right. by left.
      * injection Hfrom as ->. right. by left.
    + intros entry' [->|Hin]%elem_of_cons; [done|by apply Hmax].
Qed.

Lemma inferBossActorId_tally events :
  match inferBossActorId events actors with
  | Some boss =>
      0 < eventCount actors events boss
      ∧ ∀ id, eventCount actors events id ≤ eventCount actors events boss
  | None => ∀ id, eventCount actors events id = 0
  end.
Proof.
  unfold inferBossActorId. fold (tally actors events).
  pose proof (pickBest_fold (tally actors events) None) as Hfold.
  assert (∀ id c, (id, c) ∈ tally actors events →
            c = eventCount actors events id ∧ 0 < c) as Hentries.
  { intros id c Hin%elem_of_map_get; [|apply tally_NoDup].
    rewrite tally_get in Hin. pose proof (eventCount_nonneg events id).
    destruct (Z.eqb_spec (eventCount actors events id) 0); [done|].
    injection Hin as <-. lia. }
  destruct (fold_left pickBest (tally actors events) None) as [[boss c]|]; simpl.
  - destruct Hfold as ([[=]|Hin] & _ & Hmax).
    destruct (Hentries _ _ Hin) as [-> Hpos]. split; [done|].
    intros id. pose proof (tally_get events id) as Hget.
    destruct (Z.eqb_spec (eventCount actors events id) 0) as [->|_]; [lia|].
    apply map_get_elem_of in Hget. by apply Hmax in Hget.
  - destruct Hfold as [_ Hnil]. intros id.
    pose proof (tally_get events id) as Hget. rewrite Hnil in Hget. simpl in Hget.
    by destruct (Z.eqb_spec (eventCount actors events id) 0).
Qed.

End Counting.

(** An actor that is the source of no event has no event that counts. *)
Lemma eventCount_no_source actors events id :
  Forall (λ event, CastEvent.sourceID event ≠ Some id) events →
  eventCount actors events id = 0.
Proof.
  unfold eventCount, counted.
  induction 1 as [|event events Hevent _ IH]; simpl; [done|].
  by rewrite bool_decide_eq_false_2.
Qed.

(** The candidates of the code are the actors that are neither players
    nor pets. *)
Lemma isEnemyCandidate_nonPlayerNonPet actors id :
  isEnemyCandidate (ActorMap.byId actors !! id) = true ↔
  Notions.nonPlayerNonPet actors id.
Proof.
  unfold isEnemyCandidate, isPlayer, isPet, Notions.nonPlayerNonPet.
  destruct (ActorMap.byId actors !! id) as [actor|]; [|done].
  destruct (Actor.petOwner actor) as [owner|];
    destruct (String.eqb_spec (Actor.type actor) "Player") as [Hplayer|Hplayer];
    destruct (String.eqb_spec (Actor.type actor) "Pet") as [Hpet|Hpet];
    simpl; (split; [intros ?|intros (? & ? & ?)]); done.
Qed.

(** Of such an actor every event counts, and of another none. *)
Lemma eventCount_eventsFrom actors events id :
  eventCount actors events id =
    if isEnemyCandidate (ActorMap.byId actors !! id)
    then Notions.eventsFrom events id else 0.
Proof.
  unfold eventCount, counted, Notions.eventsFrom.
  destruct (isEnemyCandidate _).
  - do 2 f_equal. apply List.filter_ext. intros event. apply andb_true_r.
  - induction events as [|event events IH]; simpl; [done|].
    by rewrite andb_false_r.
Qed.

Lemma eventCount_nonPlayerNonPet actors events id :
  Notions.nonPlayerNonPet actors id →
  eventCount actors events id = Notions.eventsFrom events id.
Proof.
  intros Hid%isEnemyCandidate_nonPlayerNonPet.
  by rewrite eventCount_eventsFrom, Hid.
Qed.

(** C9: [inferBossActorId] returns an actor that is neither a player nor a
    pet (no actor of type [Player], of type [Pet] or with an owner) and is
    the source of some event, and no such actor is the source of more
    events; it returns null when no such actor is the source of an event.
    In particular, when the events of such actors come from two of them,
    5 from one and 12 from the other, the actor with 12 is returned,
    however many events players and pets have. *)
Theorem inferBossActorId_most_events events actors :
  match inferBossActorId events actors with
  | Some boss =>
      Notions.nonPlayerNonPet actors boss
      ∧ 0 < Notions.eventsFrom events boss
      ∧ ∀ id, Notions.nonPlayerNonPet actors id →
          Notions.eventsFrom events id ≤ Notions.eventsFrom events boss
  | None =>
      ∀ id, Notions.nonPlayerNonPet actors id →
        Notions.eventsFrom events id = 0
  end ∧
  ∀ a b,
    Notions.nonPlayerNonPet actors a → Notions.nonPlayerNonPet actors b →
    Notions.eventsFrom events a = 5 → Notions.eventsFrom events b = 12 →
    (∀ id, id ≠ a → id ≠ b → Notions.nonPlayerNonPet actors id →
       Notions.eventsFrom events id = 0) →
    inferBossActorId events actors = Some b.
Proof.
  pose proof (inferBossActorId_tally actors events) as Hboss.
  assert (match inferBossActorId events actors with
          | Some boss =>
              Notions.nonPlayerNonPet actors boss
              ∧ 0 < Notions.eventsFrom events boss
              ∧ ∀ id, Notions.nonPlayerNonPet actors id →
                  Notions.eventsFrom events id
                    ≤ Notions.eventsFrom events boss
          | None =>
              ∀ id, Notions.nonPlayerNonPet actors id →
                Notions.eventsFrom events id = 0
          end) as Hspec.
  { destruct (inferBossActorId events actors) as [boss|].
    - destruct Hboss as [Hpos Hmax].
      assert (Notions.nonPlayerNonPet actors boss) as Hcandidate
        by by eapply isEnemyCandidate_nonPlayerNonPet, eventCount_candidate.
      rewrite (eventCount_nonPlayerNonPet _ _ _ Hcandidate) in Hpos.
      split; [done|]. split; [done|]. intros id Hid.
      specialize (Hmax id).
      by rewrite (eventCount_nonPlayerNonPet _ _ _ Hid),
        (eventCount_nonPlayerNonPet _ _ _ Hcandidate) in Hmax.
    - intros id Hid. specialize (Hboss id).
      by rewrite (eventCount_nonPlayerNonPet _ _ _ Hid) in Hboss. }
  split; [done|].
  intros a b Hcandidate_a Hcandidate_b Ha Hb Hothers.
  destruct (inferBossActorId events actors) as [boss|].
  - destruct Hspec as (Hcandidate & Hpos & Hmax). f_equal.
    destruct (decide (boss = b)) as [|Hneb]; [done|].
    specialize (Hmax b Hcandidate_b).
    destruct (decide (boss = a)) as [->|Hnea]; [lia|].
    rewrite (Hothers boss) in Hpos by done. lia.
  - specialize (Hspec b Hcandidate_b). lia.
Qed.

(** The enemy with twelve events is the boss, although the player has
    twenty and the pets fifteen and fourteen. *)
Lemma inferBossActorId_most_events_witness :
  inferBossActorId Samples.crowd Samples.roster = Some 3.
Proof.
  apply (proj2 (inferBossActorId_most_events Samples.crowd Samples.roster)
           2 3).
  - by vm_compute.
  - by vm_compute.
  - reflexivity.
  - reflexivity.
  - intros id Hne2 Hne3 Hcandidate.
    destruct (decide (id = 1)) as [->|Hne1];
      [by destruct Hcandidate as [? _]|].
    destruct (decide (id = 4)) as [->|Hne4];
      [by destruct Hcandidate as (_ & ? & _)|].
    destruct (decide (id = 5)) as [->|Hne5];
      [by destruct Hcandidate as (_ & _ & ?)|].
    unfold Notions.eventsFrom, Samples.crowd.
    rewrite !List.filter_app.
    assert (∀ n timestamp source abilityId type,
              source ≠ id →
              List.filter
                (λ event, bool_decide (CastEvent.sourceID event = Some id))
                (replicate n (Samples.act timestamp source abilityId type))
              = []) as Hnone.
    { intros n timestamp source abilityId type Hsource.
      induction n as [|n IH]; simpl; [done|].
      rewrite bool_decide_eq_false_2 by congruence. exact IH. }
    by rewrite !Hnone by done.
Defined.

(** C10: an actor id with no entry in the actor map is an enemy candidate,
    so that each event with that source counts; and when it has strictly
    more events than every other actor has events that count, it is the
    inferred boss. *)
Theorem absent_actor_can_be_boss events actors id :
  ActorMap.byId actors !! id = None →
  isEnemyCandidate (ActorMap.byId actors !! id) = true
  ∧ eventCount actors events id =
      Z.of_nat (length (List.filter
                          (λ event, bool_decide (CastEvent.sourceID event = Some id))
                          events))
  ∧ ((∀ other, other ≠ id →
        eventCount actors events other < eventCount actors events id) →
     inferBossActorId events actors = Some id).
Proof.
  intros Habsent. split; [by rewrite Habsent|]. split.
  - unfold eventCount, counted. rewrite Habsent. simpl. do 2 f_equal.
    apply List.filter_ext. intros event. apply andb_true_r.
  - intros Hmost. pose proof (inferBossActorId_tally actors events) as Hboss.
    destruct (inferBossActorId events actors) as [boss|].
    + destruct Hboss as [_ Hmax]. f_equal.
      destruct (decide (boss = id)) as [|Hne]; [done|].
      specialize (Hmost boss Hne). specialize (Hmax id). lia.
    + specialize (Hmost (id + 1)). rewrite !Hboss in Hmost. lia.
Qed.

Lemma absent_actor_can_be_boss_witness :
  inferBossActorId Examples.stranger Examples.npcs = Some 99.
Proof.
  apply (absent_actor_can_be_boss Examples.stranger Examples.npcs 99);
    [reflexivity|].
  intros other Hne.
  change (eventCount Examples.npcs Examples.stranger 99) with 2.
  destruct (decide (other = 2)) as [->|Hne2]; [by vm_compute|].
  rewrite eventCount_no_source; [lia|].
  repeat constructor; simpl; congruence.
Defined.

End BossTimelineSpec.

(** ** Display names *)

Module PipelineSpec.

Import BossTimeline Pipeline.




(** Without an extra map the names of the log service are used. *)
Lemma resolveAbility_log event actors :
  resolveAbility event actors None =
    (default (placeholder (abilityIdOf event)) (logName actors event),
     abilityIdOf event).
Proof. reflexivity. Qed.


Section Named.
Context (actors : ActorMap.t) (fightStartTime : Z).
Context (xivApiResolved overrides : gmap Z string).

Let final := Some (finalAbilityById xivApiResolved overrides).







End Named.




End PipelineSpec.

(** ** Rankings *)

Module RankingsSpec.

Import JS Rankings.

(** *** Strings *)

Lemma alnum_not_space c : is_alnum c = true → is_space c = false.
Proof. destruct c as [[] [] [] [] [] [] [] []]; by vm_compute. Qed.

Lemma alnum_lower_not_slash c :
  is_alnum c = true → Ascii.eqb "/"%char (lower_char c) = false.
Proof. destruct c as [[] [] [] [] [] [] [] []]; by vm_compute. Qed.

Lemma trimEnd_alnum s : forall_string is_alnum s = true → trimEnd s = s.
Proof.
  induction s as [|c s IH]; simpl; [done|].
  intros [Hc Hs]%andb_true_iff. rewrite (IH Hs).
  destruct s; [|done]. by rewrite alnum_not_space.
Qed.

Lemma trim_alnum s : forall_string is_alnum s = true → trim s = s.
Proof.
  intros Hs. unfold trim.
  assert (trimStart s = s) as ->; [|by apply trimEnd_alnum].
  destruct s as [|c s]; simpl in *; [done|].
  apply andb_true_iff in Hs as [Hc _]. by rewrite alnum_not_space.
Qed.

Lemma matchReportsUrl_cons c s :
  matchReportsUrl (String c s) =
    match
      (if Ascii.eqb "/"%char (lower_char c) && startsWith (toLowerCase s) "reports/"
       then match span_string is_alnum (drop_string 9 (String c s)) with
            | (EmptyString, _) => None
            | (capture, _) => Some capture
            end
       else None)
    with
    | Some capture => Some capture
    | None => matchReportsUrl s
    end.
Proof. reflexivity. Qed.

Lemma matchReportsUrl_alnum s :
  forall_string is_alnum s = true → matchReportsUrl s = None.
Proof.
  induction s as [|c s IH]; [done|].
  intros [Hc Hs]%andb_true_iff.
  rewrite matchReportsUrl_cons, alnum_lower_not_slash by done. by apply IH.
Qed.

Lemma span_string_forall f s : forall_string f (span_string f s).1 = true.
Proof.
  induction s as [|c s IH]; simpl; [done|].
  destruct (f c) eqn:Hc; [|done].
  destruct (span_string f s) as [a b]. simpl in *. by rewrite Hc, IH.
Qed.

Lemma matchReportsUrl_capture s m :
  matchReportsUrl s = Some m → forall_string is_alnum m = true ∧ m ≠ EmptyString.
Proof.
  induction s as [|c s IH].
  - unfold matchReportsUrl. simpl. done.
  - rewrite matchReportsUrl_cons.
    destruct (Ascii.eqb "/"%char (lower_char c) && startsWith (toLowerCase s) "reports/");
      [|by apply IH].
    pose proof (span_string_forall is_alnum (drop_string 9 (String c s))) as Hspan.
    destruct (span_string is_alnum (drop_string 9 (String c s))) as [[|c' capture] rest];
      [by apply IH|].
    by intros [= <-].
Qed.

Lemma isReportCode_alnum s :
  isReportCode s = true → forall_string is_alnum s = true ∧ s ≠ EmptyString.
Proof.
  unfold isReportCode. intros [Hs Hlen]%andb_true_iff. split; [done|].
  by destruct s.
Qed.

(** *** The search for rows *)

Lemma nodes_pos v : (1 ≤ nodes v)%nat.
Proof. destruct v; simpl; lia. Qed.

Lemma pending_app q1 q2 : pending (q1 ++ q2) = (pending q1 + pending q2)%nat.
Proof. unfold pending. by rewrite List.map_app, list_sum_app. Qed.

Lemma pending_filter f q : (pending (List.filter f q) ≤ pending q)%nat.
Proof.
  unfold pending. induction q as [|v q IH]; simpl; [done|].
  destruct (f v); simpl; lia.
Qed.

Lemma pending_values fields :
  pending fields.*2 = list_sum (List.map (λ kv : string * value, nodes kv.2) fields).
Proof. unfold pending. induction fields as [|[k v] fields IH]; simpl; [done|]. by rewrite <- IH. Qed.

(** A turn more than the nodes to visit changes nothing. *)
Lemma searchRows_turn turns queue :
  (pending queue ≤ turns)%nat → searchRows (S turns) queue = searchRows turns queue.
Proof.
  revert queue. induction turns as [|turns IH]; intros queue Hpending.
  - destruct queue as [|node queue]; [done|].
    pose proof (nodes_pos node). unfold pending in Hpending. simpl in Hpending. lia.
  - destruct queue as [|node queue]; [done|].
    change (pending (node :: queue)) with (nodes node + pending queue)%nat in Hpending.
    destruct node as [| | | | |items|fields].
    1-5: simpl in Hpending; apply (IH queue); lia.
    + change (searchRows (S (S turns)) (VArr items :: queue)) with
        (match rowsArray (VArr items) with
         | Some rows => rows
         | None => searchRows (S turns) (queue ++ items)
         end).
      change (searchRows (S turns) (VArr items :: queue)) with
        (match rowsArray (VArr items) with
         | Some rows => rows
         | None => searchRows turns (queue ++ items)
         end).
      destruct (rowsArray (VArr items)); [done|].
      apply IH. rewrite pending_app. simpl in Hpending. unfold pending at 2. lia.
    + change (searchRows (S (S turns)) (VObj fields :: queue)) with
        (match list_find (λ v, is_Some (rowsArray v)) fields.*2 with
         | Some (_, VArr rows) => rows
         | _ => searchRows (S turns)
                  (queue ++ List.filter (λ v, truthy v && is_object v) fields.*2)
         end).
      change (searchRows (S turns) (VObj fields :: queue)) with
        (match list_find (λ v, is_Some (rowsArray v)) fields.*2 with
         | Some (_, VArr rows) => rows
         | _ => searchRows turns
                  (queue ++ List.filter (λ v, truthy v && is_object v) fields.*2)
         end).
      assert (searchRows (S turns)
                (queue ++ List.filter (λ v, truthy v && is_object v) fields.*2) =
              searchRows turns
                (queue ++ List.filter (λ v, truthy v && is_object v) fields.*2)) as Hnext.
      { apply IH. rewrite pending_app.
        pose proof (pending_filter (λ v, truthy v && is_object v) fields.*2).
        rewrite pending_values in *. simpl in Hpending. lia. }
      repeat case_match; done.
Qed.

(** The search of [extractRankingsRows] has turns enough: with more of
    them it finds the same rows. *)
Lemma searchRows_enough payload more :
  searchRows (nodes payload + more) [payload] = searchRows (nodes payload) [payload].
Proof.
  induction more as [|more IH]; [by rewrite Nat.add_0_r|].
  rewrite Nat.add_succ_r, searchRows_turn; [done|].
  unfold pending. simpl. lia.
Qed.

Section WithBuiltins.
Context `{Builtins}.

(** *** Resolution of rows *)

Lemma parseFightId_finite raw n : parseFightId raw = Some n → isFinite n = true.
Proof.
  unfold parseFightId. repeat case_match; try done; by intros [= <-].
Qed.

Lemma noCode_false reportCode :
  noCode reportCode = false → ∃ code, reportCode = Some code ∧ code ≠ EmptyString.
Proof. destruct reportCode as [[|c code]|]; try done. intros _. by eexists. Qed.

Lemma normalizeRanking_Some raw e :
  normalizeRanking raw = Some e ↔
  ∃ code fightID,
    parseReportCode raw = Some code ∧ code ≠ EmptyString ∧
    parseFightId raw = Some fightID ∧ e = entryOf raw code fightID.
Proof.
  unfold normalizeRanking. split.
  - destruct (noCode (parseReportCode raw)) eqn:Hcode; [done|].
    apply noCode_false in Hcode as (code & Hcode & Hne). rewrite Hcode.
    destruct (parseFightId raw) as [fightID|]; [|done].
    intros [= <-]. by exists code, fightID.
  - intros (code & fightID & -> & Hne & -> & ->).
    by destruct code.
Qed.

Lemma normalizeRanking_known raw e : normalizeRanking raw = Some e → known e.
Proof.
  intros (code & fightID & _ & Hne & Hfight & ->)%normalizeRanking_Some.
  split; [done|]. by eapply parseFightId_finite.
Qed.

(** The queue of the first loop holds rows that do not normalize, each
    with its non-empty report code. *)
Lemma sortRows_spec rows :
  let '(entries, unresolved) := sortRows rows in
  (∀ e, e ∈ entries → ∃ row, row ∈ rows ∧ normalizeRanking row = Some e) ∧
  (∀ row code, (row, code) ∈ unresolved →
     row ∈ rows ∧ normalizeRanking row = None ∧
     parseReportCode row = Some code ∧ code ≠ EmptyString).
Proof.
  induction rows as [|row rows IH]; simpl.
  { split; [intros e []%elem_of_nil|intros row code []%elem_of_nil]. }
  destruct (sortRows rows) as [entries unresolved]. destruct IH as [IHe IHu].
  destruct (normalizeRanking row) as [normalized|] eqn:Hrow.
  - split.
    + intros e [->|He]%elem_of_cons; [exists row; split; [by left|done]|].
      destruct (IHe e He) as (row' & ? & ?). exists row'. split; [by right|done].
    + intros row' code Hin. destruct (IHu _ _ Hin) as (? & ? & ? & ?).
      split; [by right|done].
  - assert (∀ e, e ∈ entries → ∃ row', row' ∈ row :: rows ∧ normalizeRanking row' = Some e)
      as Hentries.
    { intros e He. destruct (IHe e He) as (row' & ? & ?).
      exists row'. split; [by right|done]. }
    assert (∀ row' code, (row', code) ∈ unresolved →
              row' ∈ row :: rows ∧ normalizeRanking row' = None ∧
              parseReportCode row' = Some code ∧ code ≠ EmptyString) as Hqueue.
    { intros row' code Hin. destruct (IHu _ _ Hin) as (? & ? & ? & ?).
      split; [by right|done]. }
    destruct (noCode (parseReportCode row)) eqn:Hcode; [done|].
    apply noCode_false in Hcode as (code & Hcode & Hne). rewrite Hcode.
    split; [done|].
    intros row' code' [[= -> ->]|Hin]%elem_of_cons; [|by apply Hqueue].
    split; [by left|done].
Qed.

Lemma repairRow_known reports encounterID row code e :
  code ≠ EmptyString → repairRow reports encounterID (row, code) = Some e → known e.
Proof.
  intros Hne. unfold repairRow. repeat case_match; try done. by intros [= <-].
Qed.

(** Every entry of [resolveRankingRows] comes from a row that normalizes,
    or from a row with a report code whose fight id was inferred from the
    report; its pair is known. *)
Lemma resolveRankingRows_spec reports encounterID rows e :
  e ∈ resolveRankingRows reports encounterID rows →
  known e ∧
  ∃ row, row ∈ rows ∧
    (normalizeRanking row = Some e
     ∨ normalizeRanking row = None ∧
       ∃ code, parseReportCode row = Some code ∧
         repairRow reports encounterID (row, code) = Some e).
Proof.
  unfold resolveRankingRows. pose proof (sortRows_spec rows) as Hsorted.
  destruct (sortRows rows) as [entries unresolved]. destruct Hsorted as [He Hu].
  intros [Hin|Hin]%elem_of_app.
  - destruct (He e Hin) as (row & Hrow & Hnorm).
    split; [by eapply normalizeRanking_known|]. exists row. by auto.
  - apply list_elem_of_omap in Hin as ([row code] & Hqueued & Hrepair).
    destruct (Hu _ _ Hqueued) as (Hrow & Hnone & Hcode & Hne).
    split; [by eapply repairRow_known|]. exists row. split; [done|].
    right. split; [done|]. by exists code.
Qed.

Lemma normalizeAndSortRankings_subset entries params e :
  e ∈ normalizeAndSortRankings entries params → e ∈ entries.
Proof.
  unfold normalizeAndSortRankings.
  rewrite SortFacts.elem_of_sort, PickFightSpec.elem_of_List_filter. tauto.
Qed.

Lemma elem_of_take_subset {A} (x : A) n l : x ∈ take n l → x ∈ l.
Proof.
  intros (i & Hi & _)%elem_of_take. by eapply list_elem_of_lookup_2.
Qed.

(** What both branches of [getRankings] return: the first entries of the
    sorted, filtered resolution of some rows. *)
Lemma limited_known reports params rows n e :
  e ∈ take n (normalizeAndSortRankings
                (resolveRankingRows reports (encounterID params) rows) params) →
  known e.
Proof.
  intros He%elem_of_take_subset%normalizeAndSortRankings_subset.
  by apply resolveRankingRows_spec in He as [? _].
Qed.

Lemma withRows_known reports params rows w result w' e :
  withRows reports params rows w = (Returned result, w') →
  e ∈ rankings result → known e.
Proof.
  unfold withRows, throw. repeat case_match; try done.
  intros [= <- <-]. simpl. apply limited_known.
Qed.

Lemma withoutRows_known reports params payload w result w' e :
  withoutRows reports params payload w = (Returned result, w') →
  e ∈ rankings result → known e.
Proof.
  unfold withoutRows, throw, mbind, M_bind.
  repeat case_match; try done;
    intros [= <- <-]; simpl; apply limited_known.
Qed.

(** C5: every entry of the rankings that [getRankings] returns has a known
    pair, a non-empty report code and a finite fight id; and every entry
    that the resolution of the rows produces comes from a row that either
    normalizes to it or has a report code and a fight id inferred from the
    fight list of that report: a row with neither produces no entry. *)
Theorem getRankings_entries_known reports params :
  (∀ w result w' e,
     getRankings reports params w = (Returned result, w') →
     e ∈ rankings result → known e) ∧
  (∀ rows e,
     e ∈ resolveRankingRows reports (encounterID params) rows →
     known e ∧
     ∃ row, row ∈ rows ∧
       (normalizeRanking row = Some e
        ∨ normalizeRanking row = None ∧
          ∃ code, parseReportCode row = Some code ∧
            repairRow reports (encounterID params) (row, code) = Some e)).
Proof.
  split; [|apply resolveRankingRows_spec].
  intros w result w' e. unfold getRankings, mbind, M_bind.
  destruct (firstPage params w) as [[[[data useMetricOnly] resolvedDifficulty]| |] w1];
    try done.
  match goal with
  | |- context [match ?m w1 with _ => _ end] =>
      destruct (m w1) as [[rankingsRaw| |] w2]; try done
  end.
  case_match; [apply withoutRows_known|apply withRows_known].
Qed.

(** *** Normalizing again *)

Lemma parseReportCode_alnum raw code : parseReportCode raw = Some code → alnumCode code.
Proof.
  unfold parseReportCode, nestedReportCode.
  repeat case_match; try done; intros [= <-]; simplify_eq;
    (by apply isReportCode_alnum) || (by eapply matchReportsUrl_capture).
Qed.

Lemma pickNumber_finite obj paths n : pickNumber obj paths = Some n → isFinite n = true.
Proof.
  induction paths as [|p paths IH]; simpl; [done|].
  repeat case_match; try done; by intros [= <-].
Qed.

Lemma option_union_Some {A} (a b : option A) x :
  a ∪ b = Some x → a = Some x ∨ b = Some x.
Proof. destruct a, b; cbv; intros [= <-]; auto. Qed.

Lemma pickNumber_union_finite obj paths obj' paths' n :
  pickNumber obj paths ∪ pickNumber obj' paths' = Some n → isFinite n = true.
Proof. intros [?|?]%option_union_Some; by eapply pickNumber_finite. Qed.

Lemma normalizeRanking_normalized raw e : normalizeRanking raw = Some e → normalized e.
Proof.
  intros (code & fightID & Hcode & _ & Hfight & ->)%normalizeRanking_Some.
  split.
  - by eapply parseReportCode_alnum.
  - by eapply parseFightId_finite.
  - intros n. apply pickNumber_union_finite.
  - intros n. apply pickNumber_union_finite.
  - done.
Qed.

Lemma parseReportCode_entry e :
  alnumCode (RankingEntry.reportCode e) →
  parseReportCode (RankingEntry.to_value e) =
    if (8 <=? String.length (RankingEntry.reportCode e))%nat
    then Some (RankingEntry.reportCode e) else None.
Proof.
  intros [Halnum Hne]. unfold parseReportCode.
  change (nestedReportCode (RankingEntry.to_value e)) with (@None string).
  cbv beta iota.
  match goal with
  | |- context [match ?direct with VStr _ => _ | _ => _ end] =>
      change direct with (VStr (RankingEntry.reportCode e))
  end.
  cbv beta iota zeta. rewrite trim_alnum by done.
  destruct (RankingEntry.reportCode e) as [|c code] eqn:Hcode; [done|].
  change (String.eqb (String c code) EmptyString) with false. cbv iota.
  rewrite matchReportsUrl_alnum by done.
  unfold isReportCode. by rewrite Halnum.
Qed.

Lemma parseFightId_entry e :
  isFinite (RankingEntry.fightID e) = true →
  parseFightId (RankingEntry.to_value e) = Some (RankingEntry.fightID e).
Proof.
  intros Hfinite. unfold parseFightId.
  match goal with
  | |- context [match ?v with VNum _ => _ | _ => _ end] =>
      change v with (VNum (RankingEntry.fightID e))
  end.
  cbv beta iota. by rewrite Hfinite.
Qed.

Lemma entryOf_entry e code fightID :
  normalized e →
  entryOf (RankingEntry.to_value e) code fightID =
    {| RankingEntry.rank := RankingEntry.rank e;
       RankingEntry.amount := RankingEntry.amount e;
       RankingEntry.reportCode := code;
       RankingEntry.fightID := fightID;
       RankingEntry.bestPercent := RankingEntry.bestPercent e;
       RankingEntry.highestRdps :=
         if isFinite (RankingEntry.amount e) then Some (RankingEntry.amount e) else None;
       RankingEntry.kill := RankingEntry.kill e;
       RankingEntry.fastestSec := None;
       RankingEntry.medianRdps := RankingEntry.medianRdps e;
       RankingEntry.characterName := VUndefined;
       RankingEntry.serverName := VUndefined;
       RankingEntry.region := VUndefined;
       RankingEntry.className := None;
       RankingEntry.specName := None |}.
Proof.
  intros [_ _ Hbest Hmedian [kill Hkill]].
  destruct e as [rank amount reportCode fid best highest k fastest median cn sn rg cl sp].
  simpl in *. subst k.
  assert (best = None ∨ ∃ q, best = Some (Finite q)) as Hb.
  { destruct best as [[q| | |]|]; eauto; by specialize (Hbest _ eq_refl). }
  assert (median = None ∨ ∃ q, median = Some (Finite q)) as Hm.
  { destruct median as [[q| | |]|]; eauto; by specialize (Hmedian _ eq_refl). }
  clear Hbest Hmedian.
  destruct Hb as [->|[qb ->]], Hm as [->|[qm ->]], amount as [qa| | |];
    reflexivity.
Qed.

Lemma again_again e : again (again e) = again e.
Proof. unfold again. simpl. by destruct (isFinite (RankingEntry.amount e)). Qed.

(** C4, as amended: normalizing again the entry that [normalizeRanking]
    produced from a row rejects it when its report code has fewer than 8
    characters, and otherwise yields an entry with the same rank, amount,
    reportCode, fightID, bestPercent, kill and medianRdps, whose
    highestRdps is the amount when that is finite (undefined otherwise),
    and whose fastestSec and character, server, region, class and spec
    descriptors are undefined; that entry is a fixed point of the
    normalization. *)
Theorem normalizeRanking_again raw e :
  normalizeRanking raw = Some e →
  normalizeRanking (RankingEntry.to_value e) =
    (if (8 <=? String.length (RankingEntry.reportCode e))%nat
     then Some (again e) else None) ∧
  ((8 ≤ String.length (RankingEntry.reportCode e))%nat →
   normalizeRanking (RankingEntry.to_value (again e)) = Some (again e)).
Proof.
  intros Hn%normalizeRanking_normalized.
  assert (∀ e', normalized e' →
            normalizeRanking (RankingEntry.to_value e') =
              if (8 <=? String.length (RankingEntry.reportCode e'))%nat
              then Some (again e') else None) as Hagain.
  { intros e' Hn'. unfold normalizeRanking.
    rewrite parseReportCode_entry by apply Hn'.
    rewrite parseFightId_entry by apply Hn'.
    destruct (8 <=? String.length (RankingEntry.reportCode e'))%nat eqn:Hlen; [|done].
    destruct (RankingEntry.reportCode e') as [|c code] eqn:Hcode; [done|].
    cbn [noCode]. rewrite <- Hcode. by rewrite entryOf_entry. }
  split; [by apply Hagain|].
  intros Hlen. rewrite Hagain.
  - cbn [again RankingEntry.reportCode].
    rewrite (proj2 (Nat.leb_le _ _) Hlen). by rewrite again_again.
  - destruct Hn as [Hcode Hfight Hbest Hmedian Hkill].
    by split.
Qed.

End WithBuiltins.

Lemma normalizeRanking_again_witness :
  @normalizeRanking Examples.builtins (RankingEntry.to_value Examples.once) =
    Some Examples.twice ∧
  @normalizeRanking Examples.builtins (RankingEntry.to_value Examples.twice) =
    Some Examples.twice.
Proof.
  destruct (@normalizeRanking_again Examples.builtins Examples.row Examples.once)
    as [Hagain Hfixed].
  - reflexivity.
  - split; [exact Hagain|]. apply Hfixed. simpl. lia.
Defined.

(** C4 fails as stated: the example row is accepted, and normalizing its
    entry again yields a different entry: highestRdps is taken from the
    amount, and fastestSec and the character, server, class and spec
    descriptors are lost. *)
Lemma normalizeRanking_not_idempotent :
  @normalizeRanking Examples.builtins Examples.row = Some Examples.once ∧
  @normalizeRanking Examples.builtins (RankingEntry.to_value Examples.once) =
    Some Examples.twice ∧
  Examples.twice ≠ Examples.once.
Proof. repeat split; [vm_compute; reflexivity..|discriminate]. Qed.

(** A run of [getRankings]: of the three rows of the payload, the first
    normalizes, the second is repaired from the fights of its report, and
    the third is dropped. *)
Example getRankings_example :
  (@getRankings Examples.builtins Examples.reports Examples.firstRank
     Examples.upstream).1 =
    Returned (resultOf Examples.firstRank [Examples.once; Examples.repaired]).
Proof. vm_compute. reflexivity. Qed.

Lemma getRankings_entries_known_witness :
  known Examples.repaired ∧
  ∃ row, row ∈ [Examples.row; Examples.nestedRow; Examples.bareRow] ∧
    (@normalizeRanking Examples.builtins row = Some Examples.repaired
     ∨ @normalizeRanking Examples.builtins row = None ∧
       ∃ code, parseReportCode row = Some code ∧
         @repairRow Examples.builtins Examples.reports 100 (row, code) =
           Some Examples.repaired).
Proof.
  destruct (@getRankings_entries_known Examples.builtins Examples.reports
              Examples.firstRank) as [Hreturned Hresolved].
  split.
  - eapply (Hreturned Examples.upstream _ _ Examples.repaired);
      [vm_compute; reflexivity|].
    right. left.
  - apply (Hresolved [Examples.row; Examples.nestedRow; Examples.bareRow]
             Examples.repaired).
    vm_compute. right. left.
Defined.

End RankingsSpec.

(** ** Sorted arrays *)

Module SortedFacts.

Section Sorted.
Context {A : Type} (gt : A → A → bool).
Context (Htotal : ∀ a b, gt a b = true → gt b a = false).
Context (Htrans : ∀ a b c, gt a b = false → gt b c = false → gt a c = false).

Lemma insert_sorted_sorted x l :
  StronglySorted (λ a b, gt a b = false) l →
  StronglySorted (λ a b, gt a b = false) (JS.insert_sorted gt x l).
Proof.
  induction 1 as [|y l Hl IH Hy]; simpl; [by repeat constructor|].
  destruct (gt x y) eqn:Hxy.
  - constructor; [done|].
    apply Forall_forall. intros z Hz.
    rewrite SortFacts.insert_sorted_perm in Hz.
    apply elem_of_cons in Hz as [->|Hz]; [by apply Htotal|].
    by eapply (proj1 (Forall_forall _ _)) in Hy.
  - constructor; [by constructor|].
    constructor; [done|].
    eapply Forall_impl; [exact Hy|]. intros z Hz. by eapply Htrans.
Qed.

(** When the comparator never being positive is a total preorder, the
    sorted array is in order. *)
Lemma sort_sorted l : StronglySorted (λ a b, gt a b = false) (JS.sort gt l).
Proof.
  induction l as [|x l IH]; simpl; [constructor|].
  by apply insert_sorted_sorted.
Qed.

Lemma sorted_last_greatest l final :
  StronglySorted (λ a b, gt a b = false) l → last l = Some final →
  ∀ other, other ∈ l → gt other final = false.
Proof.
  induction 1 as [|y l Hl IH Hy]; [done|].
  intros Hlast other Hother.
  destruct l as [|z l].
  - simpl in Hlast. injection Hlast as <-.
    apply list_elem_of_singleton in Hother. subst other.
    by apply SortFacts.gt_irrefl.
  - change (last (y :: z :: l)) with (last (z :: l)) in Hlast.
    apply elem_of_cons in Hother as [->|Hother]; [|by apply IH].
    rewrite Forall_forall in Hy. apply Hy.
    rewrite last_lookup in Hlast. by eapply list_elem_of_lookup_2.
Qed.

End Sorted.

End SortedFacts.

(** ** The retrying client: bounds *)

Module ClientBounds.

Import Client.

Lemma turn_sleep {T} maxRetries attempt (a : Attempt T) ms :
  turn maxRetries attempt a = Sleep ms →
  attempt ≤ maxRetries ∧ ms = backoff attempt.
Proof.
  unfold turn, caught.
  repeat case_match; simplify_eq; intros [= <-];
    repeat match goal with
    | H : (_ && _) = true |- _ => apply andb_true_iff in H as [? ?]
    end; split; (done || lia).
Qed.

Lemma request_loop_bounds {T} maxRetries attempt (upstream : list (Attempt T)) :
  0 ≤ attempt →
  let run := request_loop maxRetries attempt upstream in
  attempts run ≤ Z.max (attempt + 1) (maxRetries + 1) ∧
  attempt ≤ attempts run ∧
  slept run = backoff <$> seqZ (attempt + 1) (Z.of_nat (length (slept run))) ∧
  (outcome run ≠ Awaiting →
   Z.of_nat (length (slept run)) = attempts run - attempt - 1).
Proof.
  revert attempt.
  induction upstream as [|a upstream IH]; intros attempt Hattempt; simpl.
  - repeat split; (done || lia).
  - destruct (turn maxRetries (attempt + 1) a) as [ms| |] eqn:Hturn; simpl.
    + apply turn_sleep in Hturn as [Hle ->].
      destruct (IH (attempt + 1) ltac:(lia)) as (Hmax & Hmin & Hslept & Hlen).
      repeat split; try lia.
      * rewrite Nat2Z.inj_succ, seqZ_cons by lia. csimpl. f_equal.
        rewrite Z.pred_succ. exact Hslept.
      * intros Hout. specialize (Hlen Hout). lia.
    + repeat split; (done || lia).
    + repeat split; (done || lia).
Qed.

(** X1: Whatever the upstream does, [request] makes at most [maxRetries + 1]
    attempts (one when the maximum is negative), the sleeps it takes are
    250 ms, 500 ms, 1000 ms, ... in this order, and it has slept once
    between two successive attempts when it ends. *)
Theorem request_attempts_bounded {T} config (upstream : list (Attempt T)) :
  let run := request config upstream in
  attempts run ≤ Z.max 0 (default DEFAULT_RETRIES (maxRetries config)) + 1 ∧
  slept run = backoff <$> seqZ 1 (Z.of_nat (length (slept run))) ∧
  (outcome run ≠ Awaiting →
   Z.of_nat (length (slept run)) = attempts run - 1).
Proof.
  destruct (request_loop_bounds
              (default DEFAULT_RETRIES (maxRetries config)) 0 upstream)
    as (Hmax & _ & Hslept & Hlen); [done|].
  unfold request. repeat split; [lia|exact Hslept|].
  intros Hout. specialize (Hlen Hout). lia.
Qed.

End ClientBounds.

(** ** Cursor pagination: the requests *)

Module ReportRequests.

Import Report.

Lemma getAllEvents_loop_requested params replies cursor all :
  let run := getAllEvents_loop params replies cursor all in
  StronglySorted Z.lt (requested run) ∧
  Forall (λ c, cursor ≤ c) (requested run) ∧
  (length (requested run) ≤ length replies)%nat ∧
  (replies ≠ [] → head (requested run) = Some cursor).
Proof.
  revert cursor all.
  induction replies as [|reply replies IH]; intros cursor all; simpl.
  - repeat split; (done || constructor).
  - assert (StronglySorted Z.lt [cursor] ∧ Forall (λ c, cursor ≤ c) [cursor]
            ∧ (1 ≤ S (length replies))%nat
            ∧ (reply :: replies ≠ [] → Some cursor = Some cursor)) as Hone.
    { split; [|split; [|split]]; [repeat constructor|repeat constructor; lia|lia|done]. }
    destruct reply as [[events|]|message]; simpl; try exact Hone.
    destruct (lastPage events cursor) eqn:Hlast; [exact Hone|].
    unfold lastPage in Hlast.
    destruct (EventsPage.nextPageTimestamp events) as [t|]; [|done].
    apply orb_false_iff in Hlast as [_ Hlt%Z.leb_gt]. simpl.
    destruct (IH t (all ++ page_data events)) as (Hsorted & Hfrom & Hlen & _).
    split; [|split; [|split]]; [| |lia|done].
    + constructor; [done|].
      eapply Forall_impl; [exact Hfrom|]. simpl. lia.
    + constructor; [lia|].
      eapply Forall_impl; [exact Hfrom|]. simpl. lia.
Qed.

(** X2: Whatever the upstream answers, the cursors with which [getAllEvents]
    requests its pages are strictly increasing, starting from the start
    time of the fight: no page is requested twice, and there is one
    request for each answer it used. *)
Theorem getAllEvents_cursors_increase params replies :
  let run := getAllEvents params replies in
  StronglySorted Z.lt (requested run) ∧
  (length (requested run) ≤ length replies)%nat ∧
  (replies ≠ [] → head (requested run) = Some (startTime params)).
Proof.
  destruct (getAllEvents_loop_requested params replies (startTime params) [])
    as (Hsorted & _ & Hlen & Hhead).
  done.
Qed.

End ReportRequests.

(** ** Fight selection: the override and the strategies *)

Module PickFightStrategies.

Import PickFight.

Lemma byStartTime_total a b :
  (0 <? byStartTime a b) = true → (0 <? byStartTime b a) = false.
Proof. unfold byStartTime. rewrite Z.ltb_lt, Z.ltb_ge. lia. Qed.

Lemma byStartTime_trans a b c :
  (0 <? byStartTime a b) = false → (0 <? byStartTime b c) = false →
  (0 <? byStartTime a c) = false.
Proof. unfold byStartTime. rewrite !Z.ltb_ge. lia. Qed.

Lemma byDurationDesc_total a b :
  (0 <? byDurationDesc a b) = true → (0 <? byDurationDesc b a) = false.
Proof. unfold byDurationDesc. rewrite Z.ltb_lt, Z.ltb_ge. lia. Qed.

Lemma byDurationDesc_trans a b c :
  (0 <? byDurationDesc a b) = false → (0 <? byDurationDesc b c) = false →
  (0 <? byDurationDesc a c) = false.
Proof. unfold byDurationDesc. rewrite !Z.ltb_ge. lia. Qed.

Lemma byBest_total a b : (0 <? byBest a b) = true → (0 <? byBest b a) = false.
Proof.
  intros Hab. apply PickFightSpec.byBest_ranksAtOrAbove.
  apply PickFightSpec.ranksAtOrAbove_total.
  intros Hranks%PickFightSpec.byBest_ranksAtOrAbove. congruence.
Qed.

Lemma byBest_trans a b c :
  (0 <? byBest a b) = false → (0 <? byBest b c) = false →
  (0 <? byBest a c) = false.
Proof.
  rewrite !PickFightSpec.byBest_ranksAtOrAbove.
  apply PickFightSpec.ranksAtOrAbove_trans.
Qed.

Lemma find_id_Some fights id f :
  List.find (λ f, Fight.id f =? id) fights = Some f →
  f ∈ fights ∧ Fight.id f = id.
Proof.
  intros [Hin Hid%Z.eqb_eq]%find_some. by rewrite list_elem_of_In.
Qed.


Section WithBuiltins.
Context `{JS.Builtins}.

(** The strategies that are looked up by name are no [byBoss:] strategy. *)
Lemma parseByBoss_named strategy :
  strategy = "lastKill" ∨ strategy = "firstKill" ∨ strategy = "longest"
  ∨ strategy = "best" →
  parseByBoss strategy = None.
Proof. by intros [->|[->|[->| ->]]]. Qed.

Lemma parseByBoss_Some strategy n :
  parseByBoss strategy = Some n →
  String.eqb strategy "lastKill" = false ∧
  String.eqb strategy "firstKill" = false ∧
  String.eqb strategy "longest" = false.
Proof.
  unfold parseByBoss.
  destruct (JS.startsWith strategy "byBoss:") eqn:Hstarts; [|done].
  intros _. destruct strategy as [|c strategy]; [done|].
  change (JS.startsWith (String c strategy) "byBoss:")
    with (Ascii.eqb "b" c && JS.startsWith strategy "yBoss:") in Hstarts.
  apply andb_true_iff in Hstarts as [Hc%Ascii.eqb_eq _].
  subst c. done.
Qed.

(** The narrowing, the boss filter and the difficulty preference of the
    code, in the words of the specification. *)
Lemma killNarrowed_narrowed fights options f :
  f ∈ killNarrowed fights options ↔
  Notions.narrowed fights (onlyKill options) f.
Proof.
  unfold killNarrowed, Notions.narrowed.
  destruct (onlyKill options); [|by split; [|intros [? _]]].
  destruct (List.filter Fight.kill fights) as [|k kills] eqn:Hkills; simpl.
  - split; [|by intros [? _]]. intros Hf. split; [done|].
    intros _ (g & Hg & Hkill).
    assert (g ∈ List.filter Fight.kill fights) as Hin
      by by apply PickFightSpec.elem_of_List_filter.
    rewrite Hkills in Hin. by apply elem_of_nil in Hin.
  - rewrite <- Hkills, PickFightSpec.elem_of_List_filter.
    split; [by intros [? ?]|]. intros [Hf Hkill]. split; [done|].
    apply Hkill; [done|].
    assert (k ∈ List.filter Fight.kill fights) as Hin
      by (rewrite Hkills; by left).
    apply PickFightSpec.elem_of_List_filter in Hin as [? ?]. by exists k.
Qed.

Lemma matchesBoss_ofBoss n f : matchesBoss n f = true ↔ Notions.ofBoss n f.
Proof.
  unfold matchesBoss, Notions.ofBoss. rewrite orb_true_iff.
  destruct (Fight.boss f) as [b|]; split.
  - intros [Hb|He]; [left; by exists b|by right].
  - intros [(b' & [= <-] & Hb)|He]; [by left|by right].
  - intros [?|He]; [done|by right].
  - intros [(b' & ? & _)|He]; [done|by right].
Qed.

Lemma withDifficultyPriority_preferred pool difficulty f :
  f ∈ withDifficultyPriority pool difficulty ↔
  Notions.preferred (λ g, g ∈ pool) difficulty f.
Proof.
  unfold withDifficultyPriority, Notions.preferred.
  destruct difficulty as [d|]; [|by split; [|intros [? _]]].
  destruct (List.filter (λ f, bool_decide (Fight.difficulty f = Some d)) pool)
    as [|p preferred] eqn:Hfilter; simpl.
  - split; [|by intros [? _]]. intros Hf. split; [done|].
    intros ? [= <-] (g & Hg & Hd).
    assert (g ∈ List.filter
                  (λ f, bool_decide (Fight.difficulty f = Some d)) pool)
      as Hin.
    { apply PickFightSpec.elem_of_List_filter. split; [done|].
      by apply bool_decide_eq_true. }
    rewrite Hfilter in Hin. by apply elem_of_nil in Hin.
  - rewrite <- Hfilter, PickFightSpec.elem_of_List_filter, bool_decide_eq_true.
    split; [by intros [? ?]; split; [|intros ? [= <-]]|].
    intros [Hf Hd]. split; [done|]. apply Hd; [done|].
    assert (p ∈ List.filter
                  (λ f, bool_decide (Fight.difficulty f = Some d)) pool)
      as Hin by (rewrite Hfilter; by left).
    apply PickFightSpec.elem_of_List_filter in Hin as [? ?%bool_decide_eq_true].
    by exists p.
Qed.

Lemma preferred_iff (P Q : Fight.t → Prop) difficulty f :
  (∀ g, P g ↔ Q g) →
  Notions.preferred P difficulty f ↔ Notions.preferred Q difficulty f.
Proof.
  intros HPQ. unfold Notions.preferred. rewrite HPQ.
  split; intros [Hf Hd]; (split; [done|]); intros d Hsome (g & Hg & Hgd);
    apply (Hd d Hsome); exists g; (split; [by apply HPQ|done]).
Qed.

(** The fights the strategies choose from, when there are some. *)
Lemma candidatesOf_Ok fights options candidates f :
  candidatesOf fights options = Ok candidates →
  f ∈ candidates ↔
  f ∈ withDifficultyPriority
        (match parseByBoss (strategy options) with
         | Some n => List.filter (matchesBoss n) (killNarrowed fights options)
         | None => killNarrowed fights options
         end) (difficulty options).
Proof.
  unfold candidatesOf.
  destruct (parseByBoss (strategy options)) as [n|]; [|by intros [= <-]].
  case_match; [done|]. by intros [= <-].
Qed.

(** X3: Every fight [pickFight] returns is a fight of the report: the
    selection carries the report code asked for and the id, encounter,
    name, times, difficulty, kill flag and boss of one fight of the list,
    and its duration is the end time minus the start time of that
    fight. *)
Theorem pickFight_selects_listed_fight fights options sel :
  pickFight fights options = Ok sel →
  SelectedFightMeta.reportCode sel = reportCode options ∧
  ∃ f, f ∈ fights ∧
    SelectedFightMeta.fightID sel = Fight.id f ∧
    SelectedFightMeta.encounterID sel = Fight.encounterID f ∧
    SelectedFightMeta.name sel = Fight.name f ∧
    SelectedFightMeta.startTime sel = Fight.startTime f ∧
    SelectedFightMeta.endTime sel = Fight.endTime f ∧
    SelectedFightMeta.durationMs sel = Fight.endTime f - Fight.startTime f ∧
    SelectedFightMeta.difficulty sel = Fight.difficulty f ∧
    SelectedFightMeta.kill sel = Fight.kill f ∧
    SelectedFightMeta.boss sel = Fight.boss f.
Proof.
  intros Hpick.
  assert (∃ f reason, f ∈ fights ∧
            sel = toSelectedFight (reportCode options) f reason)
    as (f & reason & Hf & ->).
  { revert Hpick. unfold pickFight. case_match; [done|].
    destruct (debugFightID options) as [id|].
    - destruct (List.find _ fights) as [f|] eqn:Hfind; [|done].
      intros [= <-]. exists f. eexists. split; [|done].
      by eapply find_id_Some.
    - destruct (candidatesOf fights options) as [candidates|] eqn:Hcandidates;
        [|done].
      intros (f & reason & Hf & ->)%PickFightSpec.applyStrategy_candidate.
      exists f, reason. split; [|done].
      eapply PickFightSpec.killNarrowed_subset.
      by eapply PickFightSpec.candidatesOf_subset. }
  split; [done|]. exists f. by repeat split.
Qed.


(** X5: [lastKill] returns the kill that started last among the candidates,
    and [firstKill] the one that started first. *)
Theorem pickFight_lastKill_firstKill fights options sel :
  debugFightID options = None →
  pickFight fights options = Ok sel →
  let candidates :=
    withDifficultyPriority (killNarrowed fights options) (difficulty options) in
  (strategy options = "lastKill" →
   SelectedFightMeta.kill sel = true ∧
   ∀ g, g ∈ candidates → Fight.kill g = true →
     Fight.startTime g ≤ SelectedFightMeta.startTime sel) ∧
  (strategy options = "firstKill" →
   SelectedFightMeta.kill sel = true ∧
   ∀ g, g ∈ candidates → Fight.kill g = true →
     SelectedFightMeta.startTime sel ≤ Fight.startTime g).
Proof.
  intros Hdebug Hpick candidates. unfold pickFight in Hpick.
  rewrite Hdebug in Hpick. case_match; [done|].
  split; intros Hstrategy;
    unfold candidatesOf, parseByBoss in Hpick; rewrite Hstrategy in Hpick;
    simpl in Hpick; fold candidates in Hpick;
    unfold applyStrategy, sorted in Hpick; rewrite Hstrategy in Hpick;
    simpl in Hpick; case_match; try done;
    apply PickFightSpec.selected_Ok in Hpick as (f & Hf & ->); simpl.
  - pose proof (SortedFacts.sort_sorted _ byStartTime_total byStartTime_trans
                  (List.filter Fight.kill candidates)) as Hsorted.
    pose proof (SortedFacts.sorted_last_greatest _ byStartTime_total _ _
                  Hsorted Hf) as Hgreatest.
    apply last_Some_elem_of, SortFacts.elem_of_sort,
      PickFightSpec.elem_of_List_filter in Hf as [_ Hkill].
    split; [done|]. intros g Hg Hgkill.
    specialize (Hgreatest g). rewrite SortFacts.elem_of_sort in Hgreatest.
    specialize (Hgreatest ltac:(by apply PickFightSpec.elem_of_List_filter)).
    unfold byStartTime in Hgreatest. apply Z.ltb_ge in Hgreatest. lia.
  - apply SortFacts.head_sort_least in Hf as [Hin Hleast];
      [|apply byStartTime_total|apply byStartTime_trans].
    apply PickFightSpec.elem_of_List_filter in Hin as [_ Hkill].
    split; [done|]. intros g Hg Hgkill.
    specialize (Hleast g ltac:(by apply PickFightSpec.elem_of_List_filter)).
    unfold byStartTime in Hleast. apply Z.ltb_ge in Hleast. lia.
Qed.

(** X6: [longest] returns a candidate that no candidate outlasts. *)
Theorem pickFight_longest fights options sel :
  debugFightID options = None → strategy options = "longest" →
  pickFight fights options = Ok sel →
  ∀ g, g ∈ withDifficultyPriority (killNarrowed fights options)
             (difficulty options) →
    duration g ≤ SelectedFightMeta.durationMs sel.
Proof.
  intros Hdebug Hstrategy. unfold pickFight. rewrite Hdebug.
  case_match; [done|].
  unfold candidatesOf, parseByBoss. rewrite Hstrategy. simpl.
  unfold applyStrategy, sorted. rewrite Hstrategy. simpl.
  intros (f & Hf & ->)%PickFightSpec.selected_Ok g Hg. simpl.
  apply SortFacts.head_sort_least in Hf as [_ Hleast];
    [|apply byDurationDesc_total|apply byDurationDesc_trans].
  specialize (Hleast g Hg). unfold byDurationDesc in Hleast.
  apply Z.ltb_ge in Hleast. lia.
Qed.

(** X7: A [byBoss:<n>] strategy chooses among the fights that pass the kill
    narrowing and whose boss or encounter is [n], after the difficulty
    preference: it returns the one of them that ranks first in the order
    of [best] (kill, difficulty, duration, start time, each descending),
    and throws only when no fight that passes the kill narrowing has the
    boss. *)
Theorem pickFight_byBoss fights options n :
  debugFightID options = None → parseByBoss (strategy options) = Some n →
  fights ≠ [] →
  let pool f :=
    Notions.narrowed fights (onlyKill options) f ∧ Notions.ofBoss n f in
  match pickFight fights options with
  | Ok sel =>
      ∃ f, Notions.preferred pool (difficulty options) f ∧
        SelectedFightMeta.fightID sel = Fight.id f ∧
        SelectedFightMeta.reason sel = "strategy=" +:+ strategy options ∧
        ∀ other, Notions.preferred pool (difficulty options) other →
          ranksAtOrAbove f other
  | Raise _ => ∀ f, ¬ pool f
  end.
Proof.
  intros Hdebug Hboss Hfights pool. unfold pickFight. rewrite Hdebug.
  destruct fights as [|f0 fights]; [done|].
  change (length (f0 :: fights) =? 0)%nat with false. cbv iota.
  unfold candidatesOf. rewrite Hboss.
  assert (∀ f,
            f ∈ List.filter (matchesBoss n) (killNarrowed (f0 :: fights) options)
            ↔ pool f) as Hpool.
  { intros f. unfold pool.
    by rewrite PickFightSpec.elem_of_List_filter, killNarrowed_narrowed,
      matchesBoss_ofBoss. }
  assert (∀ f,
            f ∈ withDifficultyPriority
                  (List.filter (matchesBoss n)
                     (killNarrowed (f0 :: fights) options))
                  (difficulty options)
            ↔ Notions.preferred pool (difficulty options) f) as Hpreferred.
  { intros f. rewrite withDifficultyPriority_preferred.
    by apply preferred_iff. }
  destruct (List.filter (matchesBoss n) (killNarrowed (f0 :: fights) options))
    as [|p rest] eqn:Hlist.
  { intros f Hf%Hpool. by apply elem_of_nil in Hf. }
  change (length (p :: rest) =? 0)%nat with false. cbv iota.
  unfold applyStrategy, sorted.
  destruct (parseByBoss_Some _ _ Hboss) as (-> & -> & ->).
  rewrite Hboss, orb_true_r.
  destruct (head _) as [f|] eqn:Hhead; simpl.
  - apply SortFacts.head_sort_least in Hhead as [Hin Hleast];
      [|apply byBest_total|apply byBest_trans].
    exists f. split; [by apply Hpreferred|]. split; [done|]. split; [done|].
    intros other Hother%Hpreferred.
    by apply PickFightSpec.byBest_ranksAtOrAbove, Hleast.
  - apply head_None, SortFacts.sort_nil_inv in Hhead.
    assert (p ∈ p :: rest) as Hp by by left.
    apply Hpool in Hp.
    unfold withDifficultyPriority in Hhead.
    destruct (difficulty options) as [d|]; [|done].
    case_match eqn:Hsome; [|done].
    rewrite Hhead in Hsome. done.
Qed.

(** X8: The difficulty asked for is a preference that is honoured whenever it
    can be: if a fight of the report that passes the kill narrowing (and
    the boss filter of a [byBoss:] strategy) has this difficulty, so has
    every fight returned. *)
Theorem pickFight_prefers_difficulty fights options d f sel :
  debugFightID options = None → difficulty options = Some d →
  f ∈ killNarrowed fights options → Fight.difficulty f = Some d →
  (∀ n, parseByBoss (strategy options) = Some n → matchesBoss n f = true) →
  pickFight fights options = Ok sel →
  SelectedFightMeta.difficulty sel = Some d.
Proof.
  intros Hdebug Hdifficulty Hf Hd Hboss. unfold pickFight. rewrite Hdebug.
  case_match; [done|].
  destruct (candidatesOf fights options) as [candidates|] eqn:Hcandidates;
    [|done].
  intros (g & reason & Hg & ->)%PickFightSpec.applyStrategy_candidate. simpl.
  apply (candidatesOf_Ok _ _ _ g Hcandidates) in Hg.
  rewrite Hdifficulty in Hg. unfold withDifficultyPriority in Hg.
  set (pool := match parseByBoss (strategy options) with
               | Some n => List.filter (matchesBoss n) (killNarrowed fights options)
               | None => killNarrowed fights options
               end) in *.
  assert (f ∈ pool) as Hpool.
  { unfold pool. destruct (parseByBoss (strategy options)) as [n|]; [|done].
    apply PickFightSpec.elem_of_List_filter. split; [done|]. by apply Hboss. }
  assert (f ∈ List.filter (λ f, bool_decide (Fight.difficulty f = Some d)) pool)
    as Hpreferred.
  { apply PickFightSpec.elem_of_List_filter. split; [done|].
    by apply bool_decide_eq_true. }
  destruct (List.filter _ pool) as [|p preferred] eqn:Hfilter;
    [by apply elem_of_nil in Hpreferred|].
  change (0 <? Z.of_nat (length (p :: preferred))) with true in Hg.
  cbv iota in Hg. rewrite <- Hfilter in Hg.
  apply PickFightSpec.elem_of_List_filter in Hg as [_ Hg].
  by apply bool_decide_eq_true in Hg.
Qed.

End WithBuiltins.

Lemma pickFight_selects_listed_fight_witness :
  SelectedFightMeta.reportCode Samples.third = "ABC123" ∧
  ∃ f, f ∈ Examples.fights ∧
    3 = Fight.id f ∧
    101 = Fight.encounterID f ∧
    "Boss B" = Fight.name f ∧
    310000 = Fight.startTime f ∧
    520000 = Fight.endTime f ∧
    210000 = Fight.endTime f - Fight.startTime f ∧
    Some 101 = Fight.difficulty f ∧
    true = Fight.kill f ∧
    Some 101 = Fight.boss f.
Proof.
  apply (@pickFight_selects_listed_fight Examples.builtins Examples.fights
           (Examples.pick "best") Samples.third).
  reflexivity.
Defined.


Lemma pickFight_lastKill_firstKill_witness :
  SelectedFightMeta.kill
    (toSelectedFight "ABC123" Examples.fight3 "strategy=lastKill") = true ∧
  Fight.startTime Examples.fight2 ≤ 310000.
Proof.
  destruct (proj1 (@pickFight_lastKill_firstKill Examples.builtins
                     Examples.fights (Examples.pick "lastKill")
                     (toSelectedFight "ABC123" Examples.fight3
                        "strategy=lastKill") eq_refl eq_refl) eq_refl)
    as [Hkill Hlast].
  split; [exact Hkill|]. apply Hlast; [by left|reflexivity].
Defined.

Lemma pickFight_longest_witness : duration Examples.fight2 ≤ 210000.
Proof.
  apply (@pickFight_longest Examples.builtins Examples.fights
           (Examples.pick "longest")
           (toSelectedFight "ABC123" Examples.fight3 "strategy=longest"));
    try reflexivity.
  by left.
Defined.

(** Of the kills of the boss 100 on the difficulty asked for, the longer
    one is selected: not the wipe, not the kill on a higher difficulty,
    not the kill of another boss, not the kill that starts later. *)
Lemma pickFight_byBoss_witness :
  ∃ f,
    Notions.preferred
      (λ f, Notions.narrowed Samples.evening true f
            ∧ Notions.ofBoss (JS.of_Z 100) f)
      (Some 100) f ∧
    22 = Fight.id f ∧
    "strategy=byBoss:100" = "strategy=" +:+ "byBoss:100" ∧
    ∀ other,
      Notions.preferred
        (λ f, Notions.narrowed Samples.evening true f
              ∧ Notions.ofBoss (JS.of_Z 100) f)
        (Some 100) other →
      ranksAtOrAbove f other.
Proof.
  apply (@pickFight_byBoss Examples.builtins Samples.evening
           (Samples.prefer "byBoss:100" 100) (JS.of_Z 100));
    [reflexivity|reflexivity|discriminate].
Defined.

Lemma pickFight_prefers_difficulty_witness :
  SelectedFightMeta.difficulty
    (toSelectedFight "ABC123" Examples.fight2 "strategy=best") = Some 100.
Proof.
  apply (@pickFight_prefers_difficulty Examples.builtins Examples.fights
           (Samples.prefer "best" 100) 100 Examples.fight2);
    try reflexivity; [by left|discriminate].
Defined.

End PickFightStrategies.

(** ** The boss timeline *)

Module BossTimelineShape.

Import BossTimeline.

Lemma byTimestamp_total (a b : CastEvent.t) :
  (0 <? CastEvent.timestamp a - CastEvent.timestamp b) = true →
  (0 <? CastEvent.timestamp b - CastEvent.timestamp a) = false.
Proof. rewrite Z.ltb_lt, Z.ltb_ge. lia. Qed.

Lemma byTimestamp_trans (a b c : CastEvent.t) :
  (0 <? CastEvent.timestamp a - CastEvent.timestamp b) = false →
  (0 <? CastEvent.timestamp b - CastEvent.timestamp c) = false →
  (0 <? CastEvent.timestamp a - CastEvent.timestamp c) = false.
Proof. rewrite !Z.ltb_ge. lia. Qed.

Lemma relativeSeconds_mono a b fightStartTime :
  a ≤ b →
  (relativeSeconds a fightStartTime <= relativeSeconds b fightStartTime)%Q.
Proof.
  intros Hab. unfold relativeSeconds, Qle, Qdiv. simpl.
  rewrite !Z.mul_1_r. nia.
Qed.

Lemma StronglySorted_map {A B} (R : A → A → Prop) (S : B → B → Prop)
    (f : A → B) l :
  (∀ a b, R a b → S (f a) (f b)) →
  StronglySorted R l → StronglySorted S (f <$> l).
Proof.
  intros Hf. induction 1 as [|x l Hl IH Hx]; csimpl; constructor; [done|].
  apply Forall_fmap. eapply Forall_impl; [exact Hx|]. intros y. apply Hf.
Qed.

(** The inferred boss is the source of some event. *)
Lemma boss_has_events events actors boss :
  inferBossActorId events actors = Some boss →
  List.filter (λ event, bool_decide (CastEvent.sourceID event = Some boss))
    events ≠ [].
Proof.
  intros Hinfer Hnil.
  pose proof (BossTimelineSpec.inferBossActorId_tally actors events) as Hboss.
  rewrite Hinfer in Hboss. destruct Hboss as [Hpos _].
  unfold eventCount in Hpos.
  assert (List.filter (counted actors boss) events = []) as Hcounted.
  { revert Hnil. unfold counted. clear.
    induction events as [|event events IH]; simpl; [done|].
    case_bool_decide; simpl; [done|]. exact IH. }
  rewrite Hcounted in Hpos. simpl in Hpos. lia.
Qed.

Lemma buildBossTimeline_nonempty events actors fightStartTime extra boss :
  inferBossActorId events actors = Some boss →
  buildBossTimeline events actors fightStartTime extra ≠ [].
Proof.
  intros Hinfer. unfold buildBossTimeline. rewrite Hinfer.
  pose proof (boss_has_events _ _ _ Hinfer) as Hsome.
  intros Hnil%fmap_nil_inv%SortFacts.sort_nil_inv.
  destruct (List.filter isCastLike _) eqn:Hcast; simpl in Hnil; done.
Qed.

(** X9: The boss timeline is in chronological order. *)
Theorem buildBossTimeline_chronological events actors fightStartTime extra :
  StronglySorted (λ a b, (TimelineEntry.t_ a <= TimelineEntry.t_ b)%Q)
    (buildBossTimeline events actors fightStartTime extra).
Proof.
  unfold buildBossTimeline.
  destruct (inferBossActorId events actors) as [boss|]; [|constructor].
  eapply StronglySorted_map;
    [|apply SortedFacts.sort_sorted;
       [apply byTimestamp_total|apply byTimestamp_trans]].
  intros a b Hab%Z.ltb_ge.
  destruct (resolveAbility a actors extra), (resolveAbility b actors extra).
  simpl. apply relativeSeconds_mono. lia.
Qed.

(** What the entry of an event shows, whatever names the abilities. *)
Lemma showing_entry event actors fightStartTime extra boss :
  Notions.showing
    (let '(abilityName, abilityId) := resolveAbility event actors extra in
     {| TimelineEntry.t_ :=
          relativeSeconds (CastEvent.timestamp event) fightStartTime;
        TimelineEntry.source :=
          default ("Actor#" +:+ pretty boss)
            (Actor.name <$> ActorMap.byId actors !! boss);
        TimelineEntry.ability := abilityName;
        TimelineEntry.abilityId := abilityId |}) =
  Notions.shown actors fightStartTime boss event.
Proof. unfold resolveAbility. by destruct extra. Qed.

(** An actor that is no candidate is a player or a pet. *)
Lemma isEnemyCandidate_false actors id :
  isEnemyCandidate (ActorMap.byId actors !! id) = false ↔
  ∃ actor, ActorMap.byId actors !! id = Some actor ∧
    (Actor.type actor = "Player" ∨ Actor.type actor = "Pet"
     ∨ is_Some (Actor.petOwner actor)).
Proof.
  unfold isEnemyCandidate, isPlayer, isPet. split.
  - destruct (ActorMap.byId actors !! id) as [actor|]; [|done].
    intros Hfalse. exists actor. split; [done|].
    destruct (String.eqb_spec (Actor.type actor) "Player") as [|_];
      [by left|].
    destruct (String.eqb_spec (Actor.type actor) "Pet") as [|_];
      [right; by left|].
    destruct (Actor.petOwner actor) as [owner|]; [right; right; by eexists|].
    done.
  - intros (actor & -> & [->|[->|[owner ->]]]); [done|done|].
    by destruct (String.eqb (Actor.type actor) "Player"),
      (String.eqb (Actor.type actor) "Pet").
Qed.

(** X10: when no boss is inferred the timeline is empty.  Otherwise the
    boss is an actor that is neither a player nor a pet, and the timeline
    has exactly one entry for each of its events whose type is [cast] or
    [begincast] (in any case), or, when it has no such event, one for
    each of its events: the entry of an event shows its time in seconds
    from the start of the fight, the name of the boss ([Actor#<id>] when
    the master data have no such actor) and the ability id of the event;
    and there is at least one. *)
Theorem buildBossTimeline_boss_events events actors fightStartTime extra :
  let timeline := buildBossTimeline events actors fightStartTime extra in
  match inferBossActorId events actors with
  | None => timeline = []
  | Some boss =>
      let bossEvents :=
        List.filter
          (λ event, bool_decide (CastEvent.sourceID event = Some boss)) events in
      let castLike := List.filter Notions.castOrBegincast bossEvents in
      let picked := if decide (castLike = []) then bossEvents else castLike in
      Notions.nonPlayerNonPet actors boss ∧
      picked ≠ [] ∧
      Notions.showing <$> timeline
        ≡ₚ Notions.shown actors fightStartTime boss <$> picked
  end.
Proof.
  intros timeline. unfold timeline, buildBossTimeline.
  pose proof (BossTimelineSpec.inferBossActorId_tally actors events) as Hboss.
  destruct (inferBossActorId events actors) as [boss|] eqn:Hinfer; [|done].
  simpl. destruct Hboss as [Hpos _].
  pose proof (boss_has_events _ _ _ Hinfer) as Hsome.
  set (bossEvents :=
         List.filter
           (λ event, bool_decide (CastEvent.sourceID event = Some boss)) events)
    in *.
  change (List.filter isCastLike bossEvents)
    with (List.filter Notions.castOrBegincast bossEvents).
  set (castLike := List.filter Notions.castOrBegincast bossEvents).
  assert ((if (0 <? length castLike)%nat then castLike else bossEvents) =
          if decide (castLike = []) then bossEvents else castLike) as ->.
  { destruct castLike; [done|]. by destruct (decide _). }
  split;
    [by eapply BossTimelineSpec.isEnemyCandidate_nonPlayerNonPet,
       BossTimelineSpec.eventCount_candidate|].
  split; [by destruct (decide (castLike = []))|].
  rewrite <- list_fmap_compose.
  match goal with
  | |- ?f <$> ?l ≡ₚ _ =>
      replace (f <$> l)
        with (Notions.shown actors fightStartTime boss <$> l)
        by (apply list_fmap_ext; intros i event _; symmetry;
            apply showing_entry)
  end.
  apply fmap_Permutation, SortFacts.sort_perm.
Qed.

(** X11: the timeline is empty exactly when every event that has a
    source comes from an actor of the master data that is a player or a
    pet: an actor of type [Player], of type [Pet] or with an owner. *)
Theorem buildBossTimeline_empty_iff events actors fightStartTime extra :
  buildBossTimeline events actors fightStartTime extra = [] ↔
  ∀ event id, event ∈ events → CastEvent.sourceID event = Some id →
    ∃ actor, ActorMap.byId actors !! id = Some actor ∧
      (Actor.type actor = "Player" ∨ Actor.type actor = "Pet"
       ∨ is_Some (Actor.petOwner actor)).
Proof.
  pose proof (BossTimelineSpec.inferBossActorId_tally actors events) as Hboss.
  destruct (inferBossActorId events actors) as [boss|] eqn:Hinfer.
  - pose proof (buildBossTimeline_nonempty events actors fightStartTime extra
                  boss Hinfer) as Hne.
    destruct Hboss as [Hpos _].
    split; [done|]. intros Hnone. exfalso.
    unfold eventCount in Hpos.
    destruct (List.filter (counted actors boss) events) as [|event rest]
      eqn:Hfilter; [simpl in Hpos; lia|].
    assert (event ∈ List.filter (counted actors boss) events) as Hin
      by (rewrite Hfilter; by left).
    apply PickFightSpec.elem_of_List_filter in Hin as [Hin Hcounted].
    unfold BossTimeline.counted in Hcounted.
    apply andb_true_iff in Hcounted as [Hsource%bool_decide_eq_true Hcandidate].
    specialize (Hnone event boss Hin Hsource).
    apply isEnemyCandidate_false in Hnone.
    by rewrite Hnone in Hcandidate.
  - split; [|by unfold buildBossTimeline; rewrite Hinfer].
    intros _ event id Hin Hsource. apply isEnemyCandidate_false.
    destruct (isEnemyCandidate (ActorMap.byId actors !! id)) eqn:Hcandidate;
      [|done].
    specialize (Hboss id). unfold eventCount in Hboss.
    assert (event ∈ List.filter (counted actors id) events) as Hcounted.
    { apply PickFightSpec.elem_of_List_filter. split; [done|].
      unfold counted. by rewrite bool_decide_eq_true_2, Hcandidate. }
    destruct (List.filter (counted actors id) events);
      [by apply elem_of_nil in Hcounted|simpl in Hboss; lia].
Qed.

(** Of the scene, the timeline has the cast and the beginning of a cast
    of the enemy 3: not its hit, and nothing of the player, who has more
    events, or of the pets. *)
Lemma buildBossTimeline_boss_events_witness :
  Notions.showing
  <$> buildBossTimeline Samples.scene Samples.roster 1000 None
    ≡ₚ [ ((inject_Z (3000 - 1000) / 1000)%Q, "Titan", 10);
         ((inject_Z (2000 - 1000) / 1000)%Q, "Titan", 9) ].
Proof.
  exact (proj2 (proj2 (buildBossTimeline_boss_events Samples.scene
                         Samples.roster 1000 None))).
Defined.

(** The events of the player and of the pets alone give no timeline. *)
Lemma buildBossTimeline_empty_iff_witness :
  buildBossTimeline Samples.friends Samples.roster 1000 None = [].
Proof.
  apply (proj2 (buildBossTimeline_empty_iff Samples.friends Samples.roster
                  1000 None)).
  intros event id Hin Hsource.
  repeat (apply elem_of_cons in Hin as [->|Hin]);
    [| | |by apply elem_of_nil in Hin];
    injection Hsource as <-; eexists; (split; [reflexivity|]); simpl.
  - by left.
  - right. by left.
  - right. right. by eexists.
Defined.

End BossTimelineShape.

(** ** Boss inference: ties *)

Module BossTies.

Import BossTimeline.

(** The second loop returns the first entry with the greatest count. *)
Lemma pickBest_first counts best b :
  fold_left pickBest counts best = Some b →
  (best = Some b ∧ ∀ entry, entry ∈ counts → entry.2 ≤ b.2) ∨
  ∃ before after,
    counts = before ++ b :: after ∧
    (∀ entry, entry ∈ before → entry.2 < b.2) ∧
    (∀ b0, best = Some b0 → b0.2 < b.2) ∧
    (∀ entry, entry ∈ after → entry.2 ≤ b.2).
Proof.
  revert best. induction counts as [|entry counts IH]; intros best; simpl.
  - intros ->. left. split; [done|]. by intros ? ?%elem_of_nil.
  - intros [[Hbest Hmax]|(before & after & -> & Hbefore & Hbest & Hafter)]%IH.
    + unfold pickBest in Hbest. destruct best as [b0|].
      * destruct (b0.2 <? entry.2) eqn:Hlt.
        -- injection Hbest as ->. right. exists [], counts.
           split; [done|]. split; [by intros ? ?%elem_of_nil|].
           split; [|done]. intros ? [= <-]. by apply Z.ltb_lt.
        -- injection Hbest as ->. left. split; [done|].
           intros e [->|He]%elem_of_cons; [by apply Z.ltb_ge|by apply Hmax].
      * injection Hbest as ->. right. exists [], counts.
        split; [done|]. split; [by intros ? ?%elem_of_nil|]. done.
    + right. exists (entry :: before), after. split; [done|].
      unfold pickBest in Hbest.
      split; [|split; [|done]].
      * intros e [->|He]%elem_of_cons; [|by apply Hbefore].
        destruct best as [b0|]; [|by apply Hbest].
        destruct (b0.2 <? entry.2) eqn:Hlt; [by apply Hbest|].
        apply Z.ltb_ge in Hlt. specialize (Hbest _ eq_refl). lia.
      * intros b0 ->. destruct (b0.2 <? entry.2) eqn:Hlt.
        -- apply Z.ltb_lt in Hlt. specialize (Hbest _ eq_refl). lia.
        -- by apply Hbest.
Qed.

Section Order.
Context (actors : ActorMap.t).

Lemma eventCount_app events events' id :
  eventCount actors (events ++ events') id =
    eventCount actors events id + eventCount actors events' id.
Proof. unfold eventCount. rewrite List.filter_app, length_app. lia. Qed.

Lemma eventCount_pos_split events id :
  0 < eventCount actors events id →
  ∃ pre event post,
    events = pre ++ event :: post ∧ counted actors id event = true.
Proof.
  unfold eventCount.
  induction events as [|event events IH]; simpl; [lia|].
  destruct (counted actors id event) eqn:Hcounted.
  - intros _. by exists [], event, events.
  - intros (pre & event' & post & -> & Hevent)%IH.
    by exists (event :: pre), event', post.
Qed.

Lemma tally_keys events id :
  id ∈ (tally actors events).*1 ↔ 0 < eventCount actors events id.
Proof.
  pose proof (BossTimelineSpec.tally_get actors events id) as Hget.
  pose proof (BossTimelineSpec.eventCount_nonneg actors events id).
  destruct (Z.eqb_spec (eventCount actors events id) 0) as [Hzero|Hpos].
  - apply BossTimelineSpec.map_get_None in Hget. split; [done|lia].
  - apply BossTimelineSpec.map_get_elem_of in Hget.
    split; [lia|]. intros _. apply list_elem_of_fmap. by eexists (_, _).
Qed.

(** The keys of the map of the first loop are in the order in which the
    actors are first counted. *)
Lemma tally_order events k1 k2 before after :
  (tally actors events).*1 = before ++ k1 :: after → k2 ∈ after →
  ∃ pre event post,
    events = pre ++ event :: post ∧ counted actors k1 event = true ∧
    eventCount actors pre k2 = 0.
Proof.
  revert before after.
  induction events as [|event events IH] using rev_ind; intros before after.
  { by destruct before. }
  assert (∀ pre ev post, events = pre ++ ev :: post →
            events ++ [event] = pre ++ ev :: (post ++ [event])) as Hsnoc.
  { intros pre ev post ->. by rewrite <- app_assoc. }
  unfold tally. rewrite fold_left_app. simpl. fold (tally actors events).
  unfold countEvent at 1.
  destruct (CastEvent.sourceID event) as [s|] eqn:Hsource.
  2: { intros Hkeys Hk2. destruct (IH _ _ Hkeys Hk2) as (pre & ev & post & ? & ? & ?).
       exists pre, ev, (post ++ [event]). by rewrite (Hsnoc pre ev post). }
  destruct (isEnemyCandidate (ActorMap.byId actors !! s)) eqn:Hcandidate.
  2: { intros Hkeys Hk2. destruct (IH _ _ Hkeys Hk2) as (pre & ev & post & ? & ? & ?).
       exists pre, ev, (post ++ [event]). by rewrite (Hsnoc pre ev post). }
  rewrite BossTimelineSpec.map_set_keys. case_bool_decide as Hpresent.
  { intros Hkeys Hk2. destruct (IH _ _ Hkeys Hk2) as (pre & ev & post & ? & ? & ?).
    exists pre, ev, (post ++ [event]). by rewrite (Hsnoc pre ev post). }
  intros Hkeys Hk2.
  destruct after as [|a after _] using rev_ind; [by apply elem_of_nil in Hk2|].
  rewrite app_comm_cons, app_assoc in Hkeys.
  apply app_inj_tail in Hkeys as [Hkeys <-].
  apply elem_of_app in Hk2 as [Hk2|Hk2%list_elem_of_singleton].
  { destruct (IH _ _ Hkeys Hk2) as (pre & ev & post & ? & ? & ?).
    exists pre, ev, (post ++ [event]). by rewrite (Hsnoc pre ev post). }
  subst k2.
  assert (eventCount actors events s = 0) as Hzero.
  { pose proof (BossTimelineSpec.tally_get actors events s) as Hget.
    destruct (Z.eqb_spec (eventCount actors events s) 0); [done|].
    rewrite Hget in Hpresent. by destruct Hpresent. }
  assert (k1 ∈ (tally actors events).*1) as Hk1.
  { rewrite Hkeys. apply elem_of_app. right. by left. }
  apply tally_keys, eventCount_pos_split in Hk1 as (pre & ev & post & -> & Hev).
  exists pre, ev, (post ++ [event]). rewrite <- app_assoc. split; [done|].
  split; [done|].
  rewrite eventCount_app in Hzero.
  pose proof (BossTimelineSpec.eventCount_nonneg actors pre s).
  pose proof (BossTimelineSpec.eventCount_nonneg actors (ev :: post) s).
  lia.
Qed.

End Order.

(** X12: Ties go to the actor seen first: an actor with as many events as the
    inferred boss has none before the first event of the boss. *)
Theorem inferBossActorId_tie_break events actors boss id :
  inferBossActorId events actors = Some boss → id ≠ boss →
  eventCount actors events id = eventCount actors events boss →
  ∃ pre event post,
    events = pre ++ event :: post ∧ counted actors boss event = true ∧
    eventCount actors pre id = 0.
Proof.
  intros Hinfer Hne Hsame.
  pose proof (BossTimelineSpec.inferBossActorId_tally actors events) as Hboss.
  rewrite Hinfer in Hboss. destruct Hboss as [Hpos _].
  unfold inferBossActorId in Hinfer. fold (tally actors events) in Hinfer.
  destruct (fold_left pickBest (tally actors events) None) as [[b c]|] eqn:Hfold;
    [|done].
  injection Hinfer as ->.
  apply pickBest_first in Hfold
    as [[[=] _]|(before & after & Htally & Hbefore & _ & _)].
  assert (NoDup (tally actors events).*1) as Hnodup
    by apply BossTimelineSpec.tally_NoDup.
  assert (c = eventCount actors events boss) as ->.
  { pose proof (BossTimelineSpec.tally_get actors events boss) as Hget.
    assert ((boss, c) ∈ tally actors events) as Hin.
    { rewrite Htally. apply elem_of_app. right. by left. }
    apply BossTimelineSpec.elem_of_map_get in Hin; [|done].
    rewrite Hin in Hget.
    by destruct (eventCount actors events boss =? 0); simplify_eq. }
  assert ((id, eventCount actors events boss) ∈ tally actors events) as Hid.
  { apply BossTimelineSpec.map_get_elem_of.
    rewrite BossTimelineSpec.tally_get, Hsame.
    by rewrite (proj2 (Z.eqb_neq _ _)) by lia. }
  eapply (tally_order actors events boss id (before.*1) (after.*1)).
  { rewrite Htally, fmap_app. done. }
  rewrite Htally in Hid.
  apply elem_of_app in Hid as [Hid|[Hid|Hid]%elem_of_cons].
  - apply Hbefore in Hid. simpl in Hid. lia.
  - by simplify_eq.
  - apply list_elem_of_fmap. by eexists (_, _).
Qed.

Lemma inferBossActorId_tie_break_witness :
  ∃ pre event post,
    [Examples.use 1000 2 9 None; Examples.use 2000 3 9 None] =
      pre ++ event :: post ∧
    counted Examples.npcs 2 event = true ∧
    eventCount Examples.npcs pre 3 = 0.
Proof.
  apply (inferBossActorId_tie_break
           [Examples.use 1000 2 9 None; Examples.use 2000 3 9 None]
           Examples.npcs 2 3); [reflexivity|discriminate|reflexivity].
Defined.

End BossTies.

(** ** Player casts *)

Module PlayerCastsShape.

Import BossTimeline PlayerCasts Notions.

Lemma byTime_gt (a b : PlayerCastEntry.t) :
  negb (Qle_bool (PlayerCastEntry.t_ a - PlayerCastEntry.t_ b) 0) = false ↔
  (PlayerCastEntry.t_ a <= PlayerCastEntry.t_ b)%Q.
Proof.
  rewrite negb_false_iff, Qle_bool_iff. split; intros; lra.
Qed.

Lemma byTime_total (a b : PlayerCastEntry.t) :
  negb (Qle_bool (PlayerCastEntry.t_ a - PlayerCastEntry.t_ b) 0) = true →
  negb (Qle_bool (PlayerCastEntry.t_ b - PlayerCastEntry.t_ a) 0) = false.
Proof.
  rewrite byTime_gt, negb_true_iff, <- not_true_iff_false, Qle_bool_iff.
  intros; lra.
Qed.

Lemma byTime_trans (a b c : PlayerCastEntry.t) :
  negb (Qle_bool (PlayerCastEntry.t_ a - PlayerCastEntry.t_ b) 0) = false →
  negb (Qle_bool (PlayerCastEntry.t_ b - PlayerCastEntry.t_ c) 0) = false →
  negb (Qle_bool (PlayerCastEntry.t_ a - PlayerCastEntry.t_ c) 0) = false.
Proof. rewrite !byTime_gt. intros; lra. Qed.

Lemma elem_of_record_set_key {V} key (v v' : V) key' r :
  (key', v') ∈ record_set key v r →
  (key' = key ∧ v' = v) ∨ (key', v') ∈ r.
Proof.
  induction r as [|[k w] r IH]; simpl.
  - intros [= -> ->]%list_elem_of_singleton. by left.
  - destruct (String.eqb_spec k key) as [->|Hne].
    + intros [[= -> ->]|Hin]%elem_of_cons; [by left|right; by right].
    + intros [[= -> ->]|Hin]%elem_of_cons; [right; by left|].
      destruct (IH Hin) as [?|?]; [by left|right; by right].
Qed.

Lemma elem_of_map_set_key {V} k (v v' : V) k' m :
  (k', v') ∈ JS.map_set k v m → (k' = k ∧ v' = v) ∨ (k', v') ∈ m.
Proof.
  induction m as [|[k0 w] m IH]; simpl.
  - intros [= -> ->]%list_elem_of_singleton. by left.
  - destruct (Z.eqb_spec k0 k) as [->|Hne].
    + intros [[= -> ->]|Hin]%elem_of_cons; [by left|right; by right].
    + intros [[= -> ->]|Hin]%elem_of_cons; [right; by left|].
      destruct (IH Hin) as [?|?]; [by left|right; by right].
Qed.

Section Casts.
Context (actors : ActorMap.t) (fightStartTime : Z).
Context (extra : option (gmap Z string)).

Lemma castsOf_more events event id entries :
  castsOf actors fightStartTime events id entries →
  castsOf actors fightStartTime (events ++ [event]) id entries.
Proof.
  intros (Hne & actor & Hactor & Hplayer & Hmade).
  split; [done|]. exists actor. split; [done|]. split; [done|].
  eapply Forall_impl; [exact Hmade|].
  intros entry (? & ? & e & He & ?). split; [done|]. split; [done|].
  exists e. split; [|done]. apply elem_of_app. by left.
Qed.

Lemma isPlayer_Some id :
  isPlayer (ActorMap.byId actors !! id) = true →
  ∃ actor, ActorMap.byId actors !! id = Some actor ∧
    Actor.type actor = "Player".
Proof.
  unfold isPlayer. destruct (ActorMap.byId actors !! id) as [actor|]; [|done].
  intros Htype%String.eqb_eq. by exists actor.
Qed.

(** The groups of the first loop are casts of players. *)
Lemma grouped_castsOf events :
  Forall (λ group, castsOf actors fightStartTime events group.1 group.2)
    (fold_left (groupEvent actors fightStartTime extra) events []).
Proof.
  induction events as [|event events IH] using rev_ind; [constructor|].
  rewrite fold_left_app. simpl.
  set (grouped := fold_left (groupEvent actors fightStartTime extra) events [])
    in *.
  assert (Forall (λ group,
            castsOf actors fightStartTime (events ++ [event]) group.1 group.2)
            grouped) as IH'.
  { eapply Forall_impl; [exact IH|]. intros group. apply castsOf_more. }
  unfold groupEvent.
  destruct (CastEvent.sourceID event) as [sourceID|] eqn:Hsource; [|done].
  destruct (PlayerCasts.isPlayer (ActorMap.byId actors !! sourceID))
    eqn:Hplayer; [|done].
  simpl.
  destruct (resolveAbility event actors extra) as [abilityName abilityId]
    eqn:Hresolve.
  apply Forall_forall. intros [id entries] Hin.
  apply elem_of_map_set_key in Hin as [[-> ->]|Hin];
    [|by apply (proj1 (Forall_forall _ _) IH') in Hin].
  destruct (isPlayer_Some _ Hplayer) as (actor & Hactor & Htype).
  simpl. split; [by destruct (default [] _)|].
  exists actor. split; [done|]. split; [done|].
  apply Forall_app. split.
  - destruct (JS.map_get sourceID grouped) as [old|] eqn:Hget; [|constructor].
    apply BossTimelineSpec.map_get_elem_of in Hget.
    apply (proj1 (Forall_forall _ _) IH') in Hget
      as (_ & actor' & Hactor' & _ & Hmade).
    simpl in *. by simplify_eq.
  - constructor; [|constructor]. split; [done|]. rewrite Hactor. simpl.
    split; [done|]. exists event. split; [apply elem_of_app; right; by left|].
    split; [done|]. split; [|done].
    unfold resolveAbility, BossTimeline.resolveAbility in Hresolve.
    by destruct extra; injection Hresolve as _ <-.
Qed.

(** X13: Every key of the record is [<name>#<id>] for a player [id] of the
    master data named [name]; its entries are casts of that player alone,
    each made of an event of that player, there is at least one, and they
    are in chronological order.  No event of an actor that is not a player
    (a pet, an enemy, an actor the master data do not have) is listed. *)
Theorem buildPlayerCasts_casts_of_players events key entries :
  (key, entries) ∈ buildPlayerCasts events actors fightStartTime extra →
  ∃ id actor,
    ActorMap.byId actors !! id = Some actor ∧
    Actor.type actor = "Player" ∧
    key = Actor.name actor +:+ "#" +:+ pretty id ∧
    entries ≠ [] ∧
    StronglySorted
      (λ a b, (PlayerCastEntry.t_ a <= PlayerCastEntry.t_ b)%Q) entries ∧
    Forall (made fightStartTime events id actor) entries.
Proof.
  unfold buildPlayerCasts.
  pose proof (grouped_castsOf events) as Hgrouped.
  revert Hgrouped.
  generalize (fold_left (groupEvent actors fightStartTime extra) events []).
  intros grouped Hgrouped.
  cut (∀ result,
         (key, entries) ∈ fold_left keyGroup grouped result →
         (key, entries) ∈ result ∨
         ∃ id actor,
           ActorMap.byId actors !! id = Some actor ∧
           Actor.type actor = "Player" ∧
           key = Actor.name actor +:+ "#" +:+ pretty id ∧
           entries ≠ [] ∧
           StronglySorted
             (λ a b, (PlayerCastEntry.t_ a <= PlayerCastEntry.t_ b)%Q)
             entries ∧
           Forall (made fightStartTime events id actor) entries).
  { intros Hcut Hin. by destruct (Hcut [] Hin) as [?%elem_of_nil|?]. }
  induction Hgrouped as [|[id group] grouped Hgroup _ IH]; intros result; simpl;
    [by left|].
  intros [Hin|?]%IH; [|by right].
  unfold keyGroup in Hin. simpl in Hin.
  set (sorted :=
         JS.sort
           (λ a b, negb (Qle_bool (PlayerCastEntry.t_ a - PlayerCastEntry.t_ b) 0))
           group) in *.
  destruct sorted as [|first rest] eqn:Hsorted; [by left|].
  apply elem_of_record_set_key in Hin as [[-> ->]|Hin]; [|by left].
  right. destruct Hgroup as (Hne & actor & Hactor & Hplayer & Hmade).
  simpl in *.
  assert (Forall (made fightStartTime events id actor) (first :: rest))
    as Hmade'.
  { rewrite <- Hsorted. apply Forall_forall. intros entry Hentry.
    apply SortFacts.elem_of_sort in Hentry.
    by apply (proj1 (Forall_forall _ _) Hmade). }
  exists id, actor. split; [done|]. split; [done|].
  split.
  { apply Forall_cons in Hmade' as [(-> & -> & _) _]. done. }
  split; [done|]. split; [|done].
  rewrite <- Hsorted. unfold sorted. rewrite <- (list_fmap_id (JS.sort _ group)).
  eapply BossTimelineShape.StronglySorted_map;
    [|apply SortedFacts.sort_sorted; [apply byTime_total|apply byTime_trans]].
  intros a b. apply byTime_gt.
Qed.

End Casts.

Lemma buildPlayerCasts_casts_of_players_witness :
  ∃ id actor,
    ActorMap.byId Examples.party !! id = Some actor ∧
    Actor.type actor = "Player" ∧
    "Alice#1" = Actor.name actor +:+ "#" +:+ pretty id ∧
    [Examples.playerEntry "Fire"] ≠ [] ∧
    StronglySorted
      (λ a b, (PlayerCastEntry.t_ a <= PlayerCastEntry.t_ b)%Q)
      [Examples.playerEntry "Fire"] ∧
    Forall (made 0 Examples.pull id actor) [Examples.playerEntry "Fire"].
Proof.
  apply (buildPlayerCasts_casts_of_players Examples.party 0 None Examples.pull
           "Alice#1" [Examples.playerEntry "Fire"]).
  vm_compute. left.
Defined.

End PlayerCastsShape.

(** ** Keys of the player record *)

Module PlayerKeys.

Import JS.

Import Notions.

Lemma forall_string_app f s1 s2 :
  forall_string f (s1 +:+ s2) = forall_string f s1 && forall_string f s2.
Proof.
  induction s1 as [|c s1 IH]; simpl; [done|]. by rewrite IH, andb_assoc.
Qed.

Lemma pretty_N_char_plain x : plain (pretty_N_char x) = true.
Proof. unfold pretty_N_char. by repeat case_match. Qed.

Lemma pretty_N_go_plain x s :
  forall_string plain s = true → forall_string plain (pretty_N_go x s) = true.
Proof.
  revert s. induction (N.lt_wf_0 x) as [x _ IH]; intros s Hs.
  assert (x = 0 ∨ 0 < x)%N as [->|Hpos] by lia.
  - by rewrite pretty_N_go_0.
  - rewrite pretty_N_go_step by done. apply IH.
    + by apply N.div_lt.
    + simpl. by rewrite pretty_N_char_plain.
Qed.

Lemma pretty_N_plain (x : N) : forall_string plain (pretty x) = true.
Proof.
  unfold pretty, pretty_N. case_decide; [done|]. by apply pretty_N_go_plain.
Qed.

(** The decimal text of an integer has no [#]. *)
Lemma pretty_Z_plain (z : Z) : forall_string plain (pretty z) = true.
Proof.
  destruct z as [|p|p]; [done| |].
  - apply pretty_N_plain.
  - change (pretty (Z.neg p)) with ("-" +:+ pretty (N.pos p)).
    rewrite forall_string_app, pretty_N_plain. done.
Qed.

Lemma append_cons c s t : String c s +:+ t = String c (s +:+ t).
Proof. reflexivity. Qed.

Lemma append_nil s : EmptyString +:+ s = s.
Proof. reflexivity. Qed.

(** A key [<name>#<id>] determines the id, whatever the name holds. *)
Lemma key_inj name1 name2 (id1 id2 : Z) :
  name1 +:+ "#" +:+ pretty id1 = name2 +:+ "#" +:+ pretty id2 → id1 = id2.
Proof.
  pose proof (pretty_Z_plain id1) as H1. pose proof (pretty_Z_plain id2) as H2.
  intros Hkey. apply (inj pretty).
  revert H1 H2 Hkey. generalize (pretty id1) (pretty id2). intros p1 p2 H1 H2.
  revert name2.
  induction name1 as [|c1 name1 IH]; intros [|c2 name2];
    rewrite ?append_cons, ?append_nil.
  - by intros [= ->].
  - intros [= <- ->]. rewrite forall_string_app in H1. simpl in H1.
    by rewrite andb_false_r in H1.
  - intros [= -> <-]. rewrite forall_string_app in H2. simpl in H2.
    by rewrite andb_false_r in H2.
  - intros [= _ Hrest]. by eapply IH.
Qed.

End PlayerKeys.

(** ** Player casts: nothing is lost *)

Module PlayerCastsComplete.

Import BossTimeline PlayerCasts Notions.

Lemma record_set_here {V} key (v : V) r : (key, v) ∈ record_set key v r.
Proof.
  induction r as [|[k w] r IH]; simpl; [by left|].
  destruct (String.eqb_spec k key) as [->|Hne]; [by left|by right].
Qed.

Lemma record_set_other {V} key (v : V) k w r :
  (k, w) ∈ r → k ≠ key → (k, w) ∈ record_set key v r.
Proof.
  intros Hin Hne. induction r as [|[k' w'] r IH]; simpl;
    [by apply elem_of_nil in Hin|].
  apply elem_of_cons in Hin as [[= <- <-]|Hin].
  - destruct (String.eqb_spec k key) as [->|_]; [done|by left].
  - destruct (String.eqb_spec k' key) as [->|_]; right; [done|by apply IH].
Qed.

Section Casts.
Context (actors : ActorMap.t) (fightStartTime : Z).
Context (extra : option (gmap Z string)).

Lemma groupEvent_player grouped event id :
  CastEvent.sourceID event = Some id →
  PlayerCasts.isPlayer (ActorMap.byId actors !! id) = true →
  groupEvent actors fightStartTime extra grouped event =
    JS.map_set id
      (default [] (JS.map_get id grouped)
         ++ [castEntry actors fightStartTime extra id event]) grouped.
Proof.
  intros Hsource Hplayer. unfold groupEvent. rewrite Hsource, Hplayer. simpl.
  unfold castEntry. by destruct (resolveAbility event actors extra).
Qed.

(** The first loop gathers, for every player, the entries of the events
    of that player, in the order of the events. *)
Lemma grouped_get events id :
  PlayerCasts.isPlayer (ActorMap.byId actors !! id) = true →
  JS.map_get id (fold_left (groupEvent actors fightStartTime extra) events []) =
    let mine :=
      List.filter (λ event, bool_decide (CastEvent.sourceID event = Some id))
        events in
    if decide (mine = []) then None
    else Some (castEntry actors fightStartTime extra id <$> mine).
Proof.
  intros Hplayer.
  induction events as [|event events IH] using rev_ind; [done|].
  rewrite fold_left_app, List.filter_app. simpl.
  set (grouped := fold_left (groupEvent actors fightStartTime extra) events [])
    in *.
  set (mine := List.filter _ events) in *. cbv zeta in IH.
  destruct (CastEvent.sourceID event) as [s|] eqn:Hsource.
  2: { unfold groupEvent. rewrite Hsource.
       rewrite bool_decide_eq_false_2 by done. by rewrite app_nil_r. }
  destruct (decide (s = id)) as [->|Hne].
  - rewrite (groupEvent_player _ _ id) by done.
    rewrite BossTimelineSpec.map_get_set_eq.
    rewrite bool_decide_eq_true_2 by done.
    rewrite decide_False by (by destruct mine).
    rewrite IH, fmap_app. by destruct (decide (mine = [])) as [->|].
  - rewrite bool_decide_eq_false_2 by congruence. rewrite app_nil_r.
    rewrite <- IH. unfold groupEvent. rewrite Hsource.
    destruct (PlayerCasts.isPlayer (ActorMap.byId actors !! s)); simpl; [|done].
    destruct (resolveAbility event actors extra).
    by apply BossTimelineSpec.map_get_set_ne.
Qed.

Lemma keyGroup_castsOf events result id group :
  castsOf actors fightStartTime events id group →
  ∃ actor, ActorMap.byId actors !! id = Some actor ∧
    keyGroup result (id, group) =
      record_set (Actor.name actor +:+ "#" +:+ pretty id)
        (JS.sort
           (λ a b,
              negb (Qle_bool (PlayerCastEntry.t_ a - PlayerCastEntry.t_ b) 0))
           group) result.
Proof.
  intros (Hne & actor & Hactor & _ & Hmade). exists actor. split; [done|].
  unfold keyGroup. simpl.
  destruct (JS.sort _ group) as [|first rest] eqn:Hsorted;
    [by apply SortFacts.sort_nil_inv in Hsorted|].
  assert (first ∈ group) as Hfirst.
  { apply (SortFacts.elem_of_sort
             (λ a b,
                negb (Qle_bool (PlayerCastEntry.t_ a - PlayerCastEntry.t_ b) 0))).
    rewrite Hsorted. by left. }
  apply (proj1 (Forall_forall _ _) Hmade) in Hfirst as (-> & -> & _). done.
Qed.

Lemma keyGroup_keeps events groups result key entries id :
  (key, entries) ∈ result →
  (∃ name, key = name +:+ "#" +:+ pretty id) →
  Forall (λ group,
            castsOf actors fightStartTime events group.1 group.2 ∧
            group.1 ≠ id) groups →
  (key, entries) ∈ fold_left keyGroup groups result.
Proof.
  intros Hin [name ->] Hgroups. revert result Hin.
  induction Hgroups as [|[id' group] groups [Hgroup Hne] _ IH]; intros result Hin;
    simpl; [done|].
  apply IH. simpl in *.
  destruct (keyGroup_castsOf events result id' group Hgroup)
    as (actor & _ & ->).
  apply record_set_other; [done|].
  intros Hkey%PlayerKeys.key_inj. done.
Qed.

(** X14: Every cast of a player is listed, once, under the key of that player:
    the entries under [<name>#<id>] are, up to their order, the entries of
    the events whose source is [id]. *)
Theorem buildPlayerCasts_complete events id actor :
  ActorMap.byId actors !! id = Some actor → Actor.type actor = "Player" →
  let mine :=
    List.filter (λ event, bool_decide (CastEvent.sourceID event = Some id))
      events in
  mine ≠ [] →
  ∃ entries,
    (Actor.name actor +:+ "#" +:+ pretty id, entries)
      ∈ buildPlayerCasts events actors fightStartTime extra ∧
    entries ≡ₚ castEntry actors fightStartTime extra id <$> mine.
Proof.
  intros Hactor Htype mine Hmine.
  assert (PlayerCasts.isPlayer (ActorMap.byId actors !! id) = true) as Hplayer.
  { unfold PlayerCasts.isPlayer. rewrite Hactor. by apply String.eqb_eq. }
  pose proof (grouped_get events id Hplayer) as Hget. cbv zeta in Hget.
  fold mine in Hget. rewrite decide_False in Hget by done.
  apply BossTimelineSpec.map_get_elem_of in Hget.
  pose proof (PlayerCastsShape.grouped_castsOf actors fightStartTime extra events)
    as Hgrouped.
  assert (NoDup (fold_left (groupEvent actors fightStartTime extra) events []).*1)
    as Hnodup.
  { clear. induction events as [|event events IH] using rev_ind; [constructor|].
    rewrite fold_left_app. simpl. unfold groupEvent at 1.
    repeat case_match; try done. by apply BossTimelineSpec.map_set_NoDup. }
  unfold buildPlayerCasts.
  revert Hget Hgrouped Hnodup.
  generalize (fold_left (groupEvent actors fightStartTime extra) events []).
  intros grouped Hget Hgrouped Hnodup.
  exists (JS.sort
            (λ a b,
               negb (Qle_bool (PlayerCastEntry.t_ a - PlayerCastEntry.t_ b) 0))
            (castEntry actors fightStartTime extra id <$> mine)).
  split; [|apply SortFacts.sort_perm].
  generalize (@nil (string * list PlayerCastEntry.t)).
  induction grouped as [|[id' group] grouped IH]; intros result;
    [by apply elem_of_nil in Hget|].
  apply Forall_cons in Hgrouped as [Hgroup Hgrouped].
  apply NoDup_cons in Hnodup as [Hfresh Hnodup]. simpl in *.
  apply elem_of_cons in Hget as [[= <- <-]|Hget]; [|by apply IH].
  destruct (keyGroup_castsOf events result id _ Hgroup) as (actor' & Hactor' & ->).
  assert (actor' = actor) as -> by congruence.
  apply (keyGroup_keeps events _ _ _ _ id); [apply record_set_here|by eexists|].
  apply Forall_forall. intros [id' group'] Hin. split.
  - by apply (proj1 (Forall_forall _ _) Hgrouped) in Hin.
  - simpl. intros ->. apply Hfresh. apply list_elem_of_fmap. by eexists (_, _).
Qed.

End Casts.

Lemma buildPlayerCasts_complete_witness :
  ∃ entries,
    ("Alice#1", entries) ∈ buildPlayerCasts Examples.pull Examples.party 0 None ∧
    entries ≡ₚ
      castEntry Examples.party 0 None 1 <$> [Examples.use 1000 1 7 (Some "Fire")].
Proof.
  apply (buildPlayerCasts_complete Examples.party 0 None Examples.pull 1
           (Examples.actor 1 "Alice" "Player").2);
    [reflexivity|reflexivity|discriminate].
Defined.

End PlayerCastsComplete.

(** ** Rankings: what is returned *)

Module RankingsShape.

Import JS Rankings Notions.

Lemma scoreForSort_finite e : Rankings.scoreForSort e = Finite (scoreOf e).
Proof.
  unfold scoreOf, scoreForSort.
  destruct (RankingEntry.highestRdps e) as [[]|], (RankingEntry.amount e); done.
Qed.

Lemma percent_finite e :
  finiteOr (of_Z (-1)) (RankingEntry.bestPercent e) = Finite (percentOf e).
Proof.
  unfold percentOf, finiteOr.
  by destruct (RankingEntry.bestPercent e) as [[]|].
Qed.

Lemma rank_extended e :
  finiteOr PosInfinity (Some (RankingEntry.rank e)) =
    match rankOf e with Some q => Finite q | None => PosInfinity end.
Proof. unfold rankOf, finiteOr. by destruct (RankingEntry.rank e). Qed.

Lemma positive_finite x : positive (Finite x) = false ↔ (x <= 0)%Q.
Proof.
  unfold positive, ltb. by rewrite negb_false_iff, Qle_bool_iff.
Qed.

Lemma number_eqb_finite x y :
  number_eqb (Finite x) (Finite y) = true ↔ (x == y)%Q.
Proof. apply Qeq_bool_iff. Qed.

Lemma tie_order (sa sb pa pb : Q) :
  positive
    (if negb (number_eqb (Finite sa) (Finite sb))
     then sub (Finite sb) (Finite sa)
     else if negb (number_eqb (Finite pa) (Finite pb))
          then sub (Finite pb) (Finite pa) else of_Z 0) = false ↔
  (sb < sa)%Q ∨ (sa == sb)%Q ∧ (pb <= pa)%Q.
Proof.
  destruct (number_eqb (Finite sa) (Finite sb)) eqn:Hs; cbn [negb sub].
  - apply number_eqb_finite in Hs.
    destruct (number_eqb (Finite pa) (Finite pb)) eqn:Hp; cbn [negb sub].
    + apply number_eqb_finite in Hp. unfold of_Z. rewrite positive_finite.
      split; [intros _; right; split; [done|lra]|intros _; apply Qle_refl].
    + rewrite positive_finite.
      split; [intros ?; right; split; [done|lra]|intros [?|[_ ?]]; lra].
  - apply not_true_iff_false in Hs. rewrite number_eqb_finite in Hs.
    rewrite positive_finite.
    split; [intros ?; left; lra|intros [?|[? _]]; [lra|done]].
Qed.

Lemma byRank_order a b : positive (byRank a b) = false ↔ ranksAtOrBefore a b.
Proof.
  unfold byRank, ranksAtOrBefore, tieOrder.
  rewrite !scoreForSort_finite, !percent_finite, !rank_extended.
  destruct (rankOf a) as [ra|], (rankOf b) as [rb|].
  - destruct (number_eqb (Finite ra) (Finite rb)) eqn:Hr.
    + apply number_eqb_finite in Hr. cbn [negb]. rewrite tie_order.
      split; [by right|intros [?|[_ ?]]; [lra|done]].
    + apply not_true_iff_false in Hr. rewrite number_eqb_finite in Hr.
      cbn [negb sub]. rewrite positive_finite.
      split; [intros ?; left; lra|intros [?|[? _]]; [lra|done]].
  - by cbn.
  - by cbn.
  - cbn [number_eqb negb]. apply tie_order.
Qed.

Lemma tieOrder_total a b : ¬ tieOrder a b → tieOrder b a.
Proof.
  unfold tieOrder. intros Hnot.
  destruct (Q_dec (scoreOf a) (scoreOf b)) as [[Hlt|Hgt]|Heq].
  - by left.
  - exfalso. apply Hnot. by left.
  - right. split; [by symmetry|].
    destruct (Qlt_le_dec (percentOf a) (percentOf b)) as [Hlt|Hle];
      [by apply Qlt_le_weak|].
    exfalso. apply Hnot. by right.
Qed.

Lemma ranksAtOrBefore_total a b : ¬ ranksAtOrBefore a b → ranksAtOrBefore b a.
Proof.
  unfold ranksAtOrBefore.
  destruct (rankOf a) as [ra|], (rankOf b) as [rb|].
  - intros Hnot.
    destruct (Q_dec ra rb) as [[Hlt|Hgt]|Heq].
    + exfalso. apply Hnot. by left.
    + by left.
    + right. split; [by symmetry|]. apply tieOrder_total.
      intros Htie. apply Hnot. by right.
  - intros Hnot. by destruct Hnot.
  - done.
  - apply tieOrder_total.
Qed.

Lemma tieOrder_trans a b c : tieOrder a b → tieOrder b c → tieOrder a c.
Proof.
  unfold tieOrder. intros [?|[? ?]] [?|[? ?]];
    try (left; lra); right; split; lra.
Qed.

Lemma ranksAtOrBefore_trans a b c :
  ranksAtOrBefore a b → ranksAtOrBefore b c → ranksAtOrBefore a c.
Proof.
  unfold ranksAtOrBefore.
  destruct (rankOf a) as [ra|], (rankOf b) as [rb|], (rankOf c) as [rc|];
    try done; try apply tieOrder_trans.
  intros [?|[? ?]] [?|[? ?]]; try (left; lra).
  right. split; [lra|]. by eapply tieOrder_trans.
Qed.

Lemma byRank_total a b :
  positive (byRank a b) = true → positive (byRank b a) = false.
Proof.
  intros Hab. apply byRank_order, ranksAtOrBefore_total.
  intros Hranks%byRank_order. congruence.
Qed.

Lemma byRank_trans a b c :
  positive (byRank a b) = false → positive (byRank b c) = false →
  positive (byRank a c) = false.
Proof. rewrite !byRank_order. apply ranksAtOrBefore_trans. Qed.

Lemma StronglySorted_take {A} (R : A → A → Prop) n l :
  StronglySorted R l → StronglySorted R (take n l).
Proof.
  intros Hl. revert n.
  induction Hl as [|x l Hl IH Hx]; intros [|n]; simpl; try constructor; [done|].
  apply Forall_forall. intros y Hy%RankingsSpec.elem_of_take_subset.
  by apply (proj1 (Forall_forall _ _) Hx).
Qed.

Lemma includes_refl s : includes s s = true.
Proof.
  assert (startsWith s s = true) as Hstarts.
  { induction s as [|c s IH]; simpl; [done|].
    by rewrite Ascii.eqb_refl, IH. }
  destruct s; simpl in *; [done|]. by rewrite Hstarts.
Qed.

Lemma table_Some k v t : table k t = Some v → (k, v) ∈ t.
Proof.
  induction t as [|[k' v'] t IH]; simpl; [done|].
  destruct (String.eqb_spec k k') as [->|_].
  - intros [= ->]. by left.
  - intros ?%IH. by right.
Qed.

Lemma table_elem_of k v t : NoDup t.*1 → (k, v) ∈ t → table k t = Some v.
Proof.
  induction t as [|[k' v'] t IH]; csimpl; [by intros _ ?%elem_of_nil|].
  intros [Hfresh Hkeys]%NoDup_cons [[= <- <-]|Hin]%elem_of_cons.
  - by rewrite String.eqb_refl.
  - destruct (String.eqb_spec k k') as [->|_]; [|by apply IH].
    destruct Hfresh. apply list_elem_of_fmap. by exists (k', v).
Qed.

Lemma canonicalToClassId_NoDup : NoDup canonicalToClassId.*1.
Proof. apply (bool_decide_unpack _). by vm_compute. Qed.

(** The filter of the code, in the words of the specification. *)
Lemma matchesJobFilter_passesJob e job :
  matchesJobFilter e job = true ↔ passesJob e job.
Proof.
  unfold matchesJobFilter, passesJob, jobAsked. cbv zeta.
  change normalizeJob with plainJob.
  set (qRaw := plainJob (trim (default EmptyString job))).
  set (q := default qRaw (table qRaw aliases)).
  set (c := plainJob (default EmptyString (RankingEntry.className e))).
  set (s := plainJob (default EmptyString (RankingEntry.specName e))).
  destruct (String.eqb_spec qRaw "constructor") as [Hctor|Hctor];
    [by split; [|intros [? _]]|].
  destruct (String.eqb_spec q EmptyString) as [Hblank|Hblank];
    [by split; [intros _; split; [|left]|]|].
  rewrite !orb_true_iff. split.
  - intros [[[[Hc%String.eqb_eq|Hs%String.eqb_eq]|Hc]|Hs]|Hid];
      (split; [done|]); right.
    + left. rewrite Hc. apply includes_refl.
    + right. left. rewrite Hs. apply includes_refl.
    + by left.
    + right. by left.
    + right. right.
      destruct (table q canonicalToClassId) as [classId|] eqn:Htable; [|done].
      exists classId. split; [by apply table_Some|by apply String.eqb_eq].
  - intros [_ [?|[Hc|[Hs|(classId & Hin & Hid)]]]]; [done|..].
    + left. left. by right.
    + left. by right.
    + right.
      rewrite (table_elem_of _ _ _ canonicalToClassId_NoDup Hin).
      by apply String.eqb_eq.
Qed.

Section WithBuiltins.
Context `{Builtins}.

Section GetRankings.
Context (reports : Reports) (params : RankingsParams).

Lemma withRows_limited rows w result w' :
  withRows reports params rows w = (Returned result, w') →
  ∃ entries,
    result =
      resultOf params
        (take (Z.to_nat (safePageSize params))
           (normalizeAndSortRankings entries params)) ∧
    outOfRange params (length (rankings result)) = false.
Proof.
  unfold withRows, throw. repeat case_match; try done.
  intros [= <- <-]. eexists. split; [reflexivity|done].
Qed.

Lemma withoutRows_limited payload w result w' :
  withoutRows reports params payload w = (Returned result, w') →
  ∃ entries,
    result =
      resultOf params
        (take (Z.to_nat (safePageSize params))
           (normalizeAndSortRankings entries params)) ∧
    outOfRange params (length (rankings result)) = false.
Proof.
  unfold withoutRows, throw, mbind, M_bind.
  repeat case_match; try done;
    intros [= <- <-]; eexists; (split; [reflexivity|done]).
Qed.

(** What either branch of [getRankings] returns: the first entries of a
    sorted, filtered list, the entry at [rankIndex] among them. *)
Lemma getRankings_limited w result w' :
  getRankings reports params w = (Returned result, w') →
  ∃ entries,
    result =
      resultOf params
        (take (Z.to_nat (safePageSize params))
           (normalizeAndSortRankings entries params)) ∧
    outOfRange params (length (rankings result)) = false.
Proof.
  unfold getRankings, mbind, M_bind.
  destruct (firstPage params w)
    as [[[[data useMetricOnly] resolvedDifficulty]| |] w1]; try done.
  match goal with
  | |- context [match ?m w1 with _ => _ end] =>
      destruct (m w1) as [[rankingsRaw| |] w2]; try done
  end.
  case_match; [apply withoutRows_limited|apply withRows_limited].
Qed.

Lemma safePageSize_bounds : 1 ≤ safePageSize params ≤ 100.
Proof. unfold safePageSize. destruct (pageSize params); lia. Qed.

(** X15: The result of [getRankings] echoes the query, and its rankings hold
    the entry at [rankIndex]: there are at least [rankIndex + 1] and at
    most [pageSize] of them, the page size being clamped to 1..100 (10
    when none is given); so a [rankIndex] at or beyond the page size is
    always refused. *)
Theorem getRankings_holds_rank_index w result w' :
  getRankings reports params w = (Returned result, w') →
  0 ≤ rankIndex params < Z.of_nat (length (rankings result)) ∧
  Z.of_nat (length (rankings result)) ≤ safePageSize params ≤ 100 ∧
  is_Some (rankings result !! Z.to_nat (rankIndex params)) ∧
  r_encounterID result = encounterID params ∧
  r_metric result = metric params ∧
  r_difficulty result = difficulty params ∧
  r_pageSize result = safePageSize params ∧
  r_rankIndex result = rankIndex params.
Proof.
  intros (entries & -> & Hrange)%getRankings_limited.
  pose proof safePageSize_bounds as Hsize. simpl in *.
  unfold outOfRange in Hrange.
  apply orb_false_iff in Hrange as [Hneg%Z.ltb_ge Hlen%Z.leb_gt].
  rewrite length_take in *.
  split; [lia|]. split; [lia|]. split; [|done].
  apply lookup_lt_is_Some. rewrite length_take. lia.
Qed.

(** X16: The rankings returned are in ranking order: by rank ascending,
    entries without a finite rank last; then by score (the highest rDPS
    when finite, else the amount) descending; then by percentile
    descending.  And every one of them passes the job filter of the
    query: when the query names a job, by its class name or else its spec
    name, the class or spec name of the entry contains that job, an
    abbreviation standing for the full name, or its class is the class id
    of the job; an entry of another job is left out. *)
Theorem getRankings_sorted_and_filtered w result w' :
  getRankings reports params w = (Returned result, w') →
  StronglySorted ranksAtOrBefore (rankings result) ∧
  Forall (λ e, passesJob e (className params ∪ specName params))
    (rankings result).
Proof.
  intros (entries & -> & _)%getRankings_limited. simpl. split.
  - apply StronglySorted_take. unfold normalizeAndSortRankings.
    rewrite <- (list_fmap_id (sort _ _)).
    eapply BossTimelineShape.StronglySorted_map;
      [|apply SortedFacts.sort_sorted; [apply byRank_total|apply byRank_trans]].
    intros a b. apply byRank_order.
  - apply Forall_forall.
    intros e He%RankingsSpec.elem_of_take_subset.
    unfold normalizeAndSortRankings in He.
    apply SortFacts.elem_of_sort, PickFightSpec.elem_of_List_filter in He.
    apply matchesJobFilter_passesJob. tauto.
Qed.

End GetRankings.

End WithBuiltins.

Lemma getRankings_holds_rank_index_witness :
  let result := resultOf Examples.firstRank [Examples.once; Examples.repaired] in
  0 ≤ 0 < Z.of_nat (length (rankings result)) ∧
  Z.of_nat (length (rankings result)) ≤ 10 ≤ 100 ∧
  is_Some (rankings result !! Z.to_nat 0) ∧
  r_encounterID result = 100 ∧
  r_metric result = "rdps" ∧
  r_difficulty result = Some 101 ∧
  r_pageSize result = 10 ∧
  r_rankIndex result = 0.
Proof.
  eapply (@getRankings_holds_rank_index Examples.builtins Examples.reports
            Examples.firstRank Examples.upstream).
  vm_compute. reflexivity.
Defined.

(** Asked for the dragoons by [DRG], of three rows of one rank the black
    mage is left out, although its score is the highest, and the dragoon
    with the higher score comes first, although its row comes last. *)
Lemma getRankings_sorted_and_filtered_witness :
  StronglySorted ranksAtOrBefore
    [ Samples.ranked 6000 "c1B2c3D4" "Carol" "Dragoon";
      Samples.ranked 5000 "a1B2c3D4" "Alice" "Dragoon" ] ∧
  Forall (λ e, passesJob e (Some "DRG"))
    [ Samples.ranked 6000 "c1B2c3D4" "Carol" "Dragoon";
      Samples.ranked 5000 "a1B2c3D4" "Alice" "Dragoon" ].
Proof.
  eapply (@getRankings_sorted_and_filtered Examples.builtins Examples.reports
            Samples.dragoons Samples.jobs
            (resultOf Samples.dragoons
               [ Samples.ranked 6000 "c1B2c3D4" "Carol" "Dragoon";
                 Samples.ranked 5000 "a1B2c3D4" "Alice" "Dragoon" ])).
  vm_compute. reflexivity.
Defined.

End RankingsShape.

(** ** Rankings: the requests *)

Module RankingsRequests.

Import JS Rankings Notions.

Section Sends.
Context {A B : Type}.

Lemma sends_ret (a : A) : sendsAtMost (M_ret A a) 0.
Proof. intros w. simpl. lia. Qed.

Lemma sends_throw message : sendsAtMost (@throw A message) 0.
Proof. intros w. simpl. lia. Qed.

Lemma sends_mono (m : M A) n n' :
  sendsAtMost m n → (n ≤ n')%nat → sendsAtMost m n'.
Proof. intros Hm Hle w. specialize (Hm w). lia. Qed.

(** A bind, when what the first part returns satisfies [Q]. *)
Lemma sends_bind (Q : A → Prop) (m : M A) (k : A → M B) n1 n2 :
  (∀ w a w', m w = (Returned a, w') → Q a) →
  sendsAtMost m n1 → (∀ a, Q a → sendsAtMost (k a) n2) →
  sendsAtMost (M_bind A B k m) (n1 + n2).
Proof.
  intros Hpost Hm Hk w. unfold M_bind. specialize (Hm w).
  destruct (m w) as [[a| |] w'] eqn:Hrun; simpl in *; try lia.
  specialize (Hk a (Hpost _ _ _ Hrun) w'). lia.
Qed.

Lemma sends_catch (m : M A) (handler : string → M A) n1 n2 :
  sendsAtMost m n1 → (∀ message, sendsAtMost (handler message) n2) →
  sendsAtMost (catch m handler) (n1 + n2).
Proof.
  intros Hm Hhandler w. unfold catch. specialize (Hm w).
  destruct (m w) as [[a| |] w'] eqn:Hrun; simpl in *; try lia.
  specialize (Hhandler message w'). lia.
Qed.

End Sends.

Lemma sends_send r : sendsAtMost (send r) 1.
Proof. intros w. unfold send. destruct (replies w) as [|[]]; simpl; lia. Qed.

Lemma sends_bind_any {A B} (m : M A) (k : A → M B) n1 n2 :
  sendsAtMost m n1 → (∀ a, sendsAtMost (k a) n2) →
  sendsAtMost (M_bind A B k m) (n1 + n2).
Proof.
  intros Hm Hk. apply (sends_bind (λ _, True)); [done|done|]. intros a _. apply Hk.
Qed.

Section WithBuiltins.
Context `{Builtins}.

Section GetRankings.
Context (reports : Reports) (params : RankingsParams).

Lemma sends_requestRankings difficulty size page partition :
  sendsAtMost (requestRankings params difficulty size page partition) 1.
Proof. apply sends_send. Qed.

Lemma sends_requestRankingsMetricOnly size page partition :
  sendsAtMost (requestRankingsMetricOnly params size page partition) 1.
Proof. apply sends_send. Qed.

Lemma sends_firstPage : sendsAtMost (firstPage params) 3.
Proof.
  unfold firstPage.
  apply (sends_catch _ _ 1 2).
  - apply (sends_bind_any _ _ 1 0); [apply sends_requestRankings|].
    intros data. apply sends_ret.
  - intros message.
    assert (sendsAtMost
              (M_bind _ _ (λ data : value, M_ret _ (data, true, @None Z))
                 (requestRankingsMetricOnly params
                    (Some (apiPageSize params)) None (partition params))) 1)
      as Hmetric.
    { apply (sends_bind_any _ _ 1 0); [apply sends_requestRankingsMetricOnly|].
      intros data. apply sends_ret. }
    case_match; [eapply sends_mono; [apply sends_throw|lia]|].
    case_match; [|eapply sends_mono; [exact Hmetric|lia]].
    apply (sends_catch _ _ 1 1); [|intros _; exact Hmetric].
    apply (sends_bind_any _ _ 1 0); [apply sends_requestRankings|].
    intros data. apply sends_ret.
Qed.

Lemma sends_collectPages (fetchPage : Z → M value) pages all :
  (∀ page, sendsAtMost (fetchPage page) 1) →
  sendsAtMost (collectPages params fetchPage pages all) (length pages).
Proof.
  intros Hfetch. revert all.
  induction pages as [|page pages IH]; intros all; simpl.
  - apply sends_ret.
  - apply (sends_bind_any _ _ 1 (length pages)).
    + apply (sends_catch _ _ 1 0).
      * apply (sends_bind_any _ _ 1 0); [apply Hfetch|].
        intros payload. apply sends_ret.
      * intros message. case_match; [apply sends_ret|apply sends_throw].
    + intros [payload|]; [|eapply sends_mono; [apply sends_ret|lia]].
      repeat case_match;
        try (eapply sends_mono; [apply sends_ret|lia]).
      apply IH.
Qed.

(** The pages [collectPages] returns begin with those it was given. *)
Lemma collectPages_keeps (fetchPage : Z → M value) pages all w rows w' :
  collectPages params fetchPage pages all w = (Returned rows, w') →
  (length all ≤ length rows)%nat.
Proof.
  revert all w.
  induction pages as [|page pages IH]; intros all w; simpl.
  - by intros [= <- _].
  - unfold mbind, M_bind at 1.
    destruct (catch _ _ w) as [[[payload|]| |] w1]; try done;
      [|by intros [= <- _]].
    repeat case_match; try (by intros [= <- _]);
      try (intros [= <- _]; rewrite length_app; lia).
    intros Hrows%IH. rewrite length_app in Hrows. lia.
Qed.

Lemma sends_collectPagedRows seed (fetchPage : Z → M value) :
  (∀ page, sendsAtMost (fetchPage page) 1) →
  sendsAtMost (collectPagedRows params seed fetchPage)
    (Z.to_nat (maxPages params - 1)).
Proof.
  intros Hfetch. unfold collectPagedRows.
  repeat case_match; try (eapply sends_mono; [apply sends_ret|lia]).
  eapply sends_mono; [by apply sends_collectPages|].
  rewrite length_seqZ. lia.
Qed.

Lemma collectPagedRows_keeps seed (fetchPage : Z → M value) w rows w' :
  collectPagedRows params seed fetchPage w = (Returned rows, w') →
  (length seed ≤ length rows)%nat.
Proof.
  unfold collectPagedRows.
  repeat case_match; try (by intros [= <- _]). apply collectPages_keeps.
Qed.

Lemma sends_relaxedRows :
  sendsAtMost (relaxedRows params) (2 * Z.to_nat (maxPages params)).
Proof.
  pose (P := Z.to_nat (maxPages params - 1)).
  assert (1 ≤ Z.to_nat (maxPages params))%nat as Hpages.
  { unfold maxPages. case_match; lia. }
  unfold relaxedRows.
  eapply sends_mono; [apply (sends_bind_any _ _ (1 + P) (1 + P))|lia].
  - case_match; [|eapply sends_mono; [apply sends_ret|lia]].
    eapply sends_mono; [apply (sends_catch _ _ (1 + P) 0)|lia];
      [|intros _; apply sends_ret].
    apply (sends_bind_any _ _ 1 P); [apply sends_requestRankings|].
    intros mapped. cbv zeta.
    case_match; [|eapply sends_mono; [apply sends_ret|lia]].
    eapply sends_mono; [apply (sends_catch _ _ P 0)|lia];
      [|intros _; apply sends_ret].
    apply sends_collectPagedRows. intros page. apply sends_requestRankings.
  - intros rows.
    case_match; [|eapply sends_mono; [apply sends_ret|lia]].
    apply (sends_bind_any _ _ 1 P); [apply sends_requestRankingsMetricOnly|].
    intros relaxed. cbv zeta.
    case_match; [|eapply sends_mono; [apply sends_ret|lia]].
    apply sends_collectPagedRows. intros page.
    apply sends_requestRankingsMetricOnly.
Qed.

Lemma sends_withRows rows : sendsAtMost (withRows reports params rows) 0.
Proof.
  unfold withRows. cbv zeta.
  repeat case_match; (apply sends_ret || apply sends_throw).
Qed.

Lemma sends_withoutRows payload :
  sendsAtMost (withoutRows reports params payload)
    (2 * Z.to_nat (maxPages params)).
Proof.
  unfold withoutRows. cbv zeta.
  match goal with
  | |- sendsAtMost (match ?p with VStr _ => _ | _ => _ end) _ =>
      destruct p as [| | | |e| |]
  end; try (eapply sends_mono; [apply sends_throw|lia]).
  destruct (includes e _); [|eapply sends_mono; [apply sends_throw|lia]].
  eapply sends_mono;
    [apply (sends_bind_any _ _ (2 * Z.to_nat (maxPages params)) 0)|];
    [apply sends_relaxedRows| |lia].
  intros rows.
  repeat case_match; (apply sends_ret || apply sends_throw).
Qed.

(** X17: Whatever the upstream answers, [getRankings] sends at most
    [2 * maxPages + 3] rankings requests: at most three for the first
    page and its fallbacks, then either the further pages, or, when the
    first page has no rows, the relaxed queries and their pages.  With a
    job filter, where [maxPages] is 4, that is at most 11 requests. *)
Theorem getRankings_requests_bounded w :
  let after := (getRankings reports params w).2 in
  (length (sent after) ≤
     length (sent w) + Z.to_nat (2 * maxPages params + 3))%nat ∧
  (shouldScanWide params = true →
   (length (sent after) ≤ length (sent w) + 11)%nat).
Proof.
  assert (2 ≤ maxPages params ∧
          (shouldScanWide params = true → maxPages params = 4))
    as [Hpages Hwide].
  { unfold maxPages. case_match; split; (done || lia). }
  cut (sendsAtMost (getRankings reports params)
         (Z.to_nat (2 * maxPages params + 3))).
  { intros Hsends. specialize (Hsends w). cbv zeta. split; [done|].
    intros Hscan. rewrite (Hwide Hscan) in Hsends. simpl in Hsends. lia. }
  unfold getRankings.
  eapply sends_mono;
    [apply (sends_bind_any _ _ 3 (2 * Z.to_nat (maxPages params)));
       [apply sends_firstPage|]|lia].
  intros [[data useMetricOnly] resolvedDifficulty].
  destruct (0 <? size (extractRankingsRows data)) eqn:Hrows.
  - eapply sends_mono;
      [apply (sends_bind (λ rows, size rows ≠ 0) _ _
                (Z.to_nat (maxPages params - 1)) 0)|lia].
    + intros w0 rows w1 Hkeeps%collectPagedRows_keeps.
      apply Z.ltb_lt in Hrows. unfold size in *. lia.
    + apply sends_collectPagedRows. intros page.
      destruct useMetricOnly;
        [apply sends_requestRankingsMetricOnly|apply sends_requestRankings].
    + intros rows Hne. rewrite (proj2 (Z.eqb_neq _ _) Hne).
      apply sends_withRows.
  - apply (sends_bind_any _ _ 0); [apply sends_ret|].
    intros rows. case_match; [apply sends_withoutRows|].
    eapply sends_mono; [apply sends_withRows|lia].
Qed.

End GetRankings.

End WithBuiltins.

End RankingsRequests.

(** ** Rankings: the job filter and the repair of a row *)

Module RankingsFilters.

Import JS Rankings Notions.

Lemma matchesJobFilter_blank entry q :
  normalizeJob (trim q) = EmptyString →
  matchesJobFilter entry (Some q) = true.
Proof. intros Hq. unfold matchesJobFilter. simpl. by rewrite Hq. Qed.

(** X18: The job filter knows the jobs by their three-letter abbreviations and
    by their class ids: an abbreviation filters as the full name does, a
    full name accepts the entries whose class is the id of the job, and
    no filter accepts every entry. *)
Theorem matchesJobFilter_aliases entry :
  (∀ abbr full, (abbr, full) ∈ aliases →
     matchesJobFilter entry (Some abbr) = matchesJobFilter entry (Some full)) ∧
  (∀ full classId, (full, classId) ∈ canonicalToClassId →
     RankingEntry.className entry = Some classId →
     matchesJobFilter entry (Some full) = true) ∧
  matchesJobFilter entry None = true.
Proof.
  split; [|split; [|done]].
  - intros abbr full Hin. unfold aliases in Hin.
    repeat (apply elem_of_cons in Hin as [[= -> ->]|Hin]; [reflexivity|]).
    by apply elem_of_nil in Hin.
  - intros full classId Hin Hclass. unfold canonicalToClassId in Hin.
    unfold matchesJobFilter. rewrite Hclass.
    repeat (apply elem_of_cons in Hin as [[= -> ->]|Hin];
            [cbn; by rewrite !orb_true_r|]).
    by apply elem_of_nil in Hin.
Qed.

Section WithBuiltins.
Context `{Builtins}.

Lemma closer_finite s d best f :
  closer (Finite s) (Finite <$> d) best f =
    if ltb (Finite (distance s d f)) best.2
    then (f, Finite (distance s d f)) else best.
Proof.
  unfold closer, distance. by destruct d.
Qed.

(** The score loop keeps a fight that is nearest among those seen. *)
Lemma closer_fold s d pool first :
  let best := fold_left (closer (Finite s) (Finite <$> d)) pool
                (first, PosInfinity) in
  pool ≠ [] →
  best.1 ∈ pool ∧ best.2 = Finite (distance s d best.1) ∧
  ∀ g, g ∈ pool → (distance s d best.1 <= distance s d g)%Q.
Proof.
  intros best Hpool. unfold best. clear best.
  induction pool as [|f pool IH] using rev_ind; [done|]. clear Hpool.
  rewrite fold_left_app. simpl. rewrite closer_finite.
  destruct (decide (pool = [])) as [->|Hne].
  { simpl. split; [by left|]. split; [done|].
    intros g ->%list_elem_of_singleton. apply Qle_refl. }
  destruct (IH Hne) as (Hin & Hscore & Hmin).
  set (best := fold_left _ pool _) in *.
  rewrite Hscore. unfold ltb.
  destruct (Qle_bool (distance s d best.1) (distance s d f)) eqn:Hle; simpl.
  - apply Qle_bool_iff in Hle.
    split; [apply elem_of_app; by left|]. split; [done|].
    intros g [Hg| ->%list_elem_of_singleton]%elem_of_app; [by apply Hmin|done].
  - apply not_true_iff_false in Hle. rewrite Qle_bool_iff in Hle.
    split; [apply elem_of_app; right; by left|]. split; [done|].
    intros g [Hg| ->%list_elem_of_singleton]%elem_of_app; [|apply Qle_refl].
    specialize (Hmin g Hg). lra.
Qed.

Lemma find_head_filter {A} (p : A → bool) l :
  List.find p l = head (List.filter p l).
Proof. induction l as [|x l IH]; simpl; [done|]. by destruct (p x). Qed.

(** Without a start time: the first kill, or the first fight. *)
Lemma first_kill pool first :
  head pool = Some first →
  ∃ f, f ∈ pool ∧
    Fight.id f =
      default (Fight.id first) (Fight.id <$> List.find Fight.kill pool) ∧
    head (List.filter Fight.kill pool ++ pool) = Some f.
Proof.
  intros Hfirst. rewrite find_head_filter.
  destruct (List.filter Fight.kill pool) as [|k kills] eqn:Hkills; simpl.
  - exists first. split; [by apply head_Some_elem_of|done].
  - exists k. split; [|done].
    assert (k ∈ List.filter Fight.kill pool) as Hk by (rewrite Hkills; by left).
    by apply PickFightSpec.elem_of_List_filter in Hk as [? _].
Qed.

(** X19: The fight id inferred for a ranking row is the id of a fight of its
    report, of the encounter when the report has fights of the encounter;
    with a finite start time it is a fight nearest to the row by start
    time and, when the row has a finite duration, duration; with none it
    is the first kill, or the first fight when there is no kill.  Only a
    report without fights gives no id. *)
Theorem pickFightIdFromReport_nearest fights encounterID startTime duration :
  let ofEncounter :=
    List.filter (λ f, Fight.encounterID f =? encounterID) fights in
  let pool := if decide (ofEncounter = []) then fights else ofEncounter in
  match pickFightIdFromReport fights encounterID startTime duration with
  | None => fights = []
  | Some id =>
      ∃ f, f ∈ pool ∧ Fight.id f = id ∧
        match finitePart startTime with
        | Some s =>
            ∀ g, g ∈ pool →
              (distance s (finitePart duration) f
               <= distance s (finitePart duration) g)%Q
        | None =>
            head (List.filter Fight.kill pool ++ pool) = Some f
        end
  end.
Proof.
  intros ofEncounter pool. unfold pickFightIdFromReport.
  fold ofEncounter.
  assert ((if (0 <? length ofEncounter)%nat then ofEncounter else fights) = pool)
    as ->.
  { unfold pool. by destruct ofEncounter. }
  assert (pool = [] → fights = []) as Hnil.
  { unfold pool. by destruct (decide (ofEncounter = [])). }
  destruct pool as [|first rest] eqn:Hpool; [by apply Hnil|].
  rewrite <- Hpool. clear Hnil.
  assert (head pool = Some first) as Hfirst by by rewrite Hpool.
  destruct startTime as [[s| | |]|]; cbn [finitePart];
    try (destruct (first_kill pool first Hfirst) as (f & ? & ? & ?);
         by exists f).
  assert ((match duration with
           | Some (Finite d) => Some (Finite d)
           | _ => None
           end) = Finite <$> finitePart duration) as ->.
  { by destruct duration as [[]|]. }
  destruct (closer_fold s (finitePart duration) pool first) as (Hin & _ & Hmin);
    [by rewrite Hpool|].
  eexists. split; [exact Hin|]. split; [done|]. exact Hmin.
Qed.

End WithBuiltins.

End RankingsFilters.

(** ** The XIVAPI resolver *)

Module XivApiSpec.

Import JS XivApi.

Lemma fetch_loop_unfold maxRetries attempt upstream :
  fetch_loop maxRetries attempt upstream =
    let done (result : FetchResult) (fetches : Z) : Client.Run FetchResult :=
      {| Client.outcome := Returned result; Client.attempts := fetches;
         Client.slept := [] |} in
    if maxRetries + 1 <? attempt then done (fail request) (attempt - 1)
    else
      match upstream with
      | [] =>
          {| Client.outcome := Awaiting; Client.attempts := attempt - 1;
             Client.slept := [] |}
      | a :: upstream' =>
          let again :=
            Client.after_sleep (Client.backoff attempt)
              (fetch_loop maxRetries (attempt + 1) upstream') in
          match a with
          | Fails =>
              if maxRetries <? attempt then done (fail request) attempt else again
          | Responds response =>
              if status response =? 404 then done (fail notfound) attempt
              else if ((status response =? 429) || (500 <=? status response))
                      && (attempt <=? maxRetries)
              then again
              else if negb ((200 <=? status response)
                            && (status response <=? 299))
              then done (fail request) attempt
              else
                match json response with
                | Some payload => done (ok payload) attempt
                | None => done (fail parse) attempt
                end
          end
      end.
Proof. by destruct upstream. Qed.

Lemma fetch_loop_bounds maxRetries attempt upstream :
  1 ≤ attempt →
  let run := fetch_loop maxRetries attempt upstream in
  (∀ message, Client.outcome run ≠ Thrown message) ∧
  Client.attempts run ≤ Z.max (attempt - 1) (maxRetries + 1) ∧
  Client.slept run =
    Client.backoff <$> seqZ attempt (Z.of_nat (length (Client.slept run))) ∧
  (maxRetries + 2 - attempt ≤ Z.of_nat (length upstream) →
   Client.outcome run ≠ Awaiting).
Proof.
  revert attempt.
  induction upstream as [|a upstream IH]; intros attempt Hattempt;
    rewrite fetch_loop_unfold; cbv zeta.
  - destruct (maxRetries + 1 <? attempt) eqn:Hexit; simpl.
    + repeat split; (done || lia).
    + apply Z.ltb_ge in Hexit. repeat split; (done || lia).
  - destruct (maxRetries + 1 <? attempt) eqn:Hexit;
      [simpl; repeat split; (done || lia)|].
    apply Z.ltb_ge in Hexit.
    assert (attempt ≤ maxRetries →
      (∀ message,
         Client.outcome
           (Client.after_sleep (Client.backoff attempt)
              (fetch_loop maxRetries (attempt + 1) upstream)) ≠ Thrown message) ∧
      Client.attempts
        (Client.after_sleep (Client.backoff attempt)
           (fetch_loop maxRetries (attempt + 1) upstream))
        ≤ Z.max (attempt - 1) (maxRetries + 1) ∧
      Client.slept
        (Client.after_sleep (Client.backoff attempt)
           (fetch_loop maxRetries (attempt + 1) upstream)) =
        Client.backoff <$>
          seqZ attempt
            (Z.of_nat
               (length
                  (Client.slept
                     (Client.after_sleep (Client.backoff attempt)
                        (fetch_loop maxRetries (attempt + 1) upstream))))) ∧
      (maxRetries + 2 - attempt ≤ Z.of_nat (length (a :: upstream)) →
       Client.outcome
         (Client.after_sleep (Client.backoff attempt)
            (fetch_loop maxRetries (attempt + 1) upstream)) ≠ Awaiting))
      as Hagain.
    { intros Hle.
      destruct (IH (attempt + 1) ltac:(lia)) as (Hthrown & Hmax & Hslept & Hwait).
      simpl. split; [done|]. split; [lia|]. split.
      - rewrite Nat2Z.inj_succ, seqZ_cons by lia. csimpl. f_equal.
        rewrite Z.pred_succ. exact Hslept.
      - intros Hlen. apply Hwait. lia. }
    destruct a as [|response].
    + destruct (maxRetries <? attempt) eqn:Hlast;
        [simpl; repeat split; (done || lia)|].
      apply Hagain. by apply Z.ltb_ge.
    + repeat case_match;
        try (simpl; repeat split; (done || lia)).
      apply Hagain.
      match goal with
      | H : (_ && _) = true |- _ => apply andb_true_iff in H as [_ H]
      end.
      by apply Z.leb_le.
Qed.

(** X20: [fetchJsonWithRetry] never throws: whatever the upstream does it
    answers with a result, after at most [maxRetries + 1] fetches (none
    when that is not positive) separated by sleeps of 250 ms, 500 ms,
    1000 ms, ... *)
Theorem fetchJsonWithRetry_bounded maxRetries upstream :
  let run := fetchJsonWithRetry maxRetries upstream in
  (∀ message, Client.outcome run ≠ Thrown message) ∧
  Client.attempts run ≤ Z.max 0 (maxRetries + 1) ∧
  Client.slept run =
    Client.backoff <$> seqZ 1 (Z.of_nat (length (Client.slept run))) ∧
  (maxRetries + 1 ≤ Z.of_nat (length upstream) →
   Client.outcome run ≠ Awaiting).
Proof.
  destruct (fetch_loop_bounds maxRetries 1 upstream)
    as (Hthrown & Hmax & Hslept & Hwait); [done|].
  unfold fetchJsonWithRetry. repeat split; try done.
  intros Hlen. apply Hwait. lia.
Qed.

(** X21: A client error ends [fetchJsonWithRetry] at the attempt on which it
    arrives, without a sleep and whatever retries remain: a 404 as
    [notfound], any other status that is neither a success, 429 nor a
    server error as [request]. *)
Theorem fetchJsonWithRetry_client_error maxRetries attempt response upstream :
  attempt ≤ maxRetries + 1 →
  status response ≠ 429 → status response < 500 →
  ¬ (200 ≤ status response ≤ 299) →
  fetch_loop maxRetries attempt (Responds response :: upstream) =
    {| Client.outcome :=
         Returned (fail (if status response =? 404 then notfound else request));
       Client.attempts := attempt;
       Client.slept := [] |}.
Proof.
  intros Hattempt H429 H500 Hok. rewrite fetch_loop_unfold. cbv zeta.
  rewrite (proj2 (Z.ltb_ge _ _)) by lia.
  destruct (status response =? 404) eqn:H404; [done|].
  rewrite (proj2 (Z.eqb_neq _ _) H429), (proj2 (Z.leb_gt _ _) H500). simpl.
  destruct (200 <=? status response) eqn:Hlo; [|done].
  destruct (status response <=? 299) eqn:Hhi; [|done].
  apply Z.leb_le in Hlo, Hhi. lia.
Qed.

Lemma fetchJsonWithRetry_client_error_witness :
  fetchJsonWithRetry 2
    [Responds {| status := 400; json := None |};
     Responds {| status := 200; json := Some (VStr "late") |}] =
    {| Client.outcome := Returned (fail request);
       Client.attempts := 1; Client.slept := [] |}.
Proof.
  apply (fetchJsonWithRetry_client_error 2 1 {| status := 400; json := None |});
    simpl; lia.
Defined.

(** X22: The ids asked of XIVAPI are the positive ability ids of the events, as
    the timelines read them: an event without an ability id, or with one
    that is not positive, is never looked up. *)
Theorem toAbilityId_positive event id :
  toAbilityId event = Some id ↔
  BossTimeline.abilityIdOf event = id ∧ 0 < id
  ∧ is_Some (CastEvent.abilityGameID event
               ∪ (CastEvent.ability event ≫= AbilityRef.gameID)
               ∪ (CastEvent.ability event ≫= AbilityRef.guid)).
Proof.
  unfold toAbilityId, BossTimeline.abilityIdOf.
  destruct (_ ∪ _ ∪ _) as [i|]; simpl.
  - destruct (Z.ltb_spec 0 i); split.
    + intros [= ->]. done.
    + by intros (-> & _ & _).
    + done.
    + intros (-> & ? & _). lia.
  - split; [done|]. by intros (_ & _ & []).
Qed.

Lemma set_add_NoDup x ids : NoDup ids → NoDup (set_add x ids).
Proof.
  intros Hids. unfold set_add. case_bool_decide; [done|].
  apply NoDup_app. split; [done|]. split; [|apply NoDup_singleton].
  by intros y Hy ->%list_elem_of_singleton.
Qed.

Lemma elem_of_set_add y x ids : y ∈ set_add x ids ↔ y = x ∨ y ∈ ids.
Proof.
  unfold set_add. case_bool_decide as Hx.
  - split; [by right|]. by intros [->|?].
  - rewrite elem_of_app, list_elem_of_singleton. tauto.
Qed.

(** X23: The ids tried for an ability are the raw id first and, for a raw id of
    a million or more, its remainders by a million and by a hundred
    thousand when they are not zero: at most three ids, without
    repetition, each positive, at most the raw id and congruent to it
    modulo a hundred thousand. *)
Theorem candidateIds_residues rawId :
  head (candidateIds rawId) = Some rawId ∧
  NoDup (candidateIds rawId) ∧
  (length (candidateIds rawId) ≤ 3)%nat ∧
  ∀ id, id ∈ candidateIds rawId →
    id = rawId ∨
    1000000 ≤ rawId ∧ 0 < id < rawId ∧ (rawId - id) mod 100000 = 0.
Proof.
  unfold candidateIds.
  destruct (1000000 <=? rawId) eqn:Hlarge.
  2: { repeat split; [apply NoDup_singleton|simpl; lia|].
       intros id ->%list_elem_of_singleton. by left. }
  apply Z.leb_le in Hlarge.
  rewrite !Z.rem_mod_nonneg by lia.
  pose proof (Z.mod_pos_bound rawId 1000000 ltac:(lia)) as H1m.
  pose proof (Z.mod_pos_bound rawId 100000 ltac:(lia)) as H100k.
  assert ((rawId - rawId mod 1000000) mod 100000 = 0) as Hr1.
  { rewrite (Z.div_mod rawId 1000000) at 1 by lia.
    replace (1000000 * (rawId `div` 1000000) + rawId `mod` 1000000
             - rawId `mod` 1000000)
      with (rawId `div` 1000000 * 10 * 100000) by lia.
    apply Z.mod_mul. lia. }
  assert ((rawId - rawId mod 100000) mod 100000 = 0) as Hr2.
  { rewrite (Z.div_mod rawId 100000) at 1 by lia.
    replace (100000 * (rawId `div` 100000) + rawId `mod` 100000
             - rawId `mod` 100000)
      with (rawId `div` 100000 * 100000) by lia.
    apply Z.mod_mul. lia. }
  split; [|split; [|split]].
  - unfold set_add. repeat case_match; done.
  - repeat case_match; repeat apply set_add_NoDup; apply NoDup_singleton.
  - unfold set_add. repeat case_match; simpl; lia.
  - intros id Hid.
    repeat case_match;
      repeat (apply elem_of_set_add in Hid as [->|Hid]);
      try apply list_elem_of_singleton in Hid;
      repeat match goal with
      | H : (0 <? _) = true |- _ => apply Z.ltb_lt in H
      end;
      subst; try (by left); right; (split; [done|]); (split; [lia|done]).
Qed.

End XivApiSpec.

(** ** Trimmed names *)

Module XivApiNames.

Import JS XivApi.

Section WithText.
Context `{Text.Builtins}.

Lemma firstNested_origin rec keys name :
  firstNested rec keys = Some name →
  name ≠ EmptyString ∧
  ∃ key s, key ∈ keys ∧ get rec key = VStr s ∧ name = Text.trim s.
Proof.
  induction keys as [|key keys IH]; simpl; [done|].
  destruct (get rec key) as [| |b|n|nested|items|fields] eqn:Hget;
    try (intros (? & k & s & ? & ? & ?)%IH; split; [done|];
         exists k, s; split; [by right|done]).
  destruct (Text.trim nested) as [|c t] eqn:Htrim; simpl.
  - intros (? & k & s & ? & ? & ?)%IH. split; [done|].
    exists k, s. split; [by right|done].
  - intros [= <-]. split; [done|]. exists key, nested.
    split; [by left|done].
Qed.

Lemma firstNested_None rec keys key s :
  firstNested rec keys = None → key ∈ keys → get rec key = VStr s →
  Text.trim s = EmptyString.
Proof.
  induction keys as [|key' keys IH]; simpl; [by intros _ ?%elem_of_nil|].
  intros Hnone [->|Hin]%elem_of_cons Hget.
  - rewrite Hget in Hnone. by destruct (Text.trim s).
  - apply IH; [|done..]. destruct (get rec key'); try done.
    by destruct (0 <? String.length _)%nat.
Qed.

(** Where a name comes from: the candidate is the string [s], or holds it
    under one of the four languages. *)
Lemma extractStringName_origin v name :
  extractStringName v = Some name →
  name ≠ EmptyString ∧
  ∃ s, name = Text.trim s ∧
    (v = VStr s
     ∨ ∃ key, key ∈ ["ja"; "en"; "de"; "fr"] ∧ get v key = VStr s).
Proof.
  unfold extractStringName.
  destruct v as [| |b|n|s|items|fields].
  - done.
  - done.
  - by destruct b.
  - by destruct (truthy (VNum n)).
  - destruct (Text.trim s) as [|c t] eqn:Htrim; [done|]. simpl.
    intros [= <-]. split; [done|]. exists s. split; [done|by left].
  - cbn [truthy is_object andb].
    intros (? & key & s & ? & ? & ?)%firstNested_origin.
    split; [done|]. exists s. split; [done|]. right. by exists key.
  - cbn [truthy is_object andb].
    intros (? & key & s & ? & ? & ?)%firstNested_origin.
    split; [done|]. exists s. split; [done|]. right. by exists key.
Qed.

Lemma extractStringName_None v s :
  extractStringName v = None →
  v = VStr s ∨ (∃ key, key ∈ ["ja"; "en"; "de"; "fr"] ∧ get v key = VStr s) →
  Text.trim s = EmptyString.
Proof.
  unfold extractStringName. intros Hnone [->|(key & Hkey & Hget)].
  - by destruct (Text.trim s).
  - destruct v as [| |b|n|s'|items|fields]; try done.
    all: cbn [truthy is_object andb] in Hnone; by eapply firstNested_None.
Qed.

(** X24: a name read from a payload of XIVAPI is never empty and is
    trimmed text: it is the trimmed string at one of the ten places of
    the payload, or the trimmed string that place holds under [ja], [en],
    [de] or [fr]; so trimming it again leaves it as it is, trimming being
    idempotent.  No name is read only from a payload that is not an
    object or is null, or when every string at these places and under
    these languages is blank. *)
Theorem parseAbilityNameFromPayload_trimmed payload :
  match parseAbilityNameFromPayload payload with
  | Some name =>
      name ≠ EmptyString ∧
      ((∀ s, Text.trim (Text.trim s) = Text.trim s) → Text.trim name = name) ∧
      ∃ candidate s,
        candidate ∈ directCandidates payload ∧ name = Text.trim s ∧
        (candidate = VStr s
         ∨ ∃ key, key ∈ ["ja"; "en"; "de"; "fr"] ∧ get candidate key = VStr s)
  | None =>
      is_object payload = false ∨ payload = VNull ∨
      ∀ candidate s,
        candidate ∈ directCandidates payload →
        candidate = VStr s
        ∨ (∃ key, key ∈ ["ja"; "en"; "de"; "fr"]
             ∧ get candidate key = VStr s) →
        Text.trim s = EmptyString
  end.
Proof.
  unfold parseAbilityNameFromPayload.
  destruct (truthy payload) eqn:Htruthy; cbn [negb orb].
  2: { destruct payload; try (by left); try (right; by left); done. }
  destruct (is_object payload) eqn:Hobject; cbn [negb orb]; [|by left].
  generalize (directCandidates payload). intros candidates.
  induction candidates as [|candidate candidates IH]; simpl.
  - right. right. by intros ? ? ?%elem_of_nil.
  - destruct (extractStringName candidate) as [name|] eqn:Hname.
    + destruct (extractStringName_origin _ _ Hname) as (? & s & -> & Hplace).
      split; [done|]. split; [by intros trim_trim|].
      exists candidate, s. split; [by left|done].
    + destruct (firstName candidates) as [name|].
      * destruct IH as (? & ? & c & s & ? & ? & ?). split; [done|].
        split; [done|]. exists c, s. split; [by right|done].
      * destruct IH as [?|[?|Hblank]]; [by left|right; by left|].
        right. right. intros c s [->|Hin]%elem_of_cons Hplace.
        -- by eapply extractStringName_None.
        -- by eapply Hblank.
Qed.

End WithText.

(** Of the sheet, whose own name is blank, the Japanese name under
    [fields] is read, without the ideographic space before it and the
    space after it. *)
Lemma parseAbilityNameFromPayload_trimmed_witness :
  @parseAbilityNameFromPayload Samples.utf8 Samples.sheet = Some "ストーム" ∧
  ∃ candidate s,
    candidate ∈ directCandidates Samples.sheet ∧
    "ストーム" = @Text.trim Samples.utf8 s ∧
    (candidate = VStr s
     ∨ ∃ key, key ∈ ["ja"; "en"; "de"; "fr"] ∧ get candidate key = VStr s).
Proof.
  split; [reflexivity|].
  exact (proj2 (proj2 (@parseAbilityNameFromPayload_trimmed Samples.utf8
                         Samples.sheet))).
Defined.

End XivApiNames.

(** ** The access token *)

Module AuthSpec.

Import Auth.

Lemma getAccessToken_hit cached later reply :
  later + 30000 < expiresAt cached →
  getAccessToken (Some cached) later reply =
    {| outcome := Returned (accessToken cached); cache := Some cached;
       requested := false |}.
Proof.
  intros Hlater. unfold getAccessToken.
  by rewrite (proj2 (Z.ltb_lt _ _) Hlater).
Qed.

Lemma getAccessToken_returned cache now reply token :
  outcome (getAccessToken cache now reply) = Returned token →
  ∃ cached,
    Auth.cache (getAccessToken cache now reply) = Some cached ∧
    accessToken cached = token.
Proof.
  unfold getAccessToken.
  repeat case_match; simpl; try done; intros [= <-]; by eexists.
Qed.

(** X25: A token that [getAccessToken] returned is returned again, without
    asking the token endpoint and without touching the cache, by every
    later call made more than 30 seconds before the cached token expires;
    and a call that fails leaves the cache as it was. *)
Theorem getAccessToken_reuses_token cache now reply :
  let first := getAccessToken cache now reply in
  (∀ token, outcome first = Returned token →
     ∃ cached, Auth.cache first = Some cached ∧ accessToken cached = token ∧
       ∀ later reply',
         later + 30000 < expiresAt cached →
         getAccessToken (Auth.cache first) later reply' =
           {| outcome := Returned token; cache := Auth.cache first;
              requested := false |}) ∧
  (∀ message, outcome first = Thrown message → Auth.cache first = cache).
Proof.
  intros first. split.
  - intros token (cached & Hcache & Htoken)%getAccessToken_returned.
    exists cached. fold first in Hcache. rewrite Hcache.
    split; [done|]. split; [done|].
    intros later reply' Hlater. rewrite <- Htoken.
    by apply getAccessToken_hit.
  - intros message. unfold first, getAccessToken.
    repeat case_match; simpl; done.
Qed.

End AuthSpec.

(** ** Master data *)

Module ReportDataSpec.

Import ReportData.

Lemma byId_last actors id :
  fold_left setActor actors ∅ !! id =
    last (List.filter (λ actor, Actor.id actor =? id) actors).
Proof.
  induction actors as [|actor actors IH] using rev_ind; [done|].
  rewrite fold_left_app, List.filter_app. simpl. unfold setActor at 1.
  destruct (Z.eqb_spec (Actor.id actor) id) as [<-|Hne].
  - by rewrite lookup_insert_eq, last_snoc.
  - rewrite lookup_insert_ne by done. by rewrite app_nil_r.
Qed.

Lemma abilityByGameId_named abilities id name :
  fold_left setAbility abilities ∅ !! id = Some name →
  name ≠ EmptyString ∧
  Some {| gameID := Some id; name := Some name |} ∈ abilities.
Proof.
  induction abilities as [|ability abilities IH] using rev_ind; [done|].
  rewrite fold_left_app. simpl. unfold setAbility at 1.
  assert (∀ P : Prop,
            (fold_left setAbility abilities ∅ !! id = Some name → P) →
            fold_left setAbility abilities ∅ !! id = Some name → P) as Hkeep
    by auto.
  destruct ability as [[[g|] [n|]]|];
    try (intros [? ?]%IH; split; [done|]; apply elem_of_app; by left).
  destruct (String.eqb_spec n EmptyString) as [->|Hne];
    [intros [? ?]%IH; split; [done|]; apply elem_of_app; by left|].
  destruct (decide (g = id)) as [->|Hg].
  - rewrite lookup_insert_eq. intros [= ->]. split; [done|].
    apply elem_of_app. right. by left.
  - rewrite lookup_insert_ne by done.
    intros [? ?]%IH. split; [done|]. apply elem_of_app. by left.
Qed.

Lemma abilityByGameId_complete abilities id name :
  Some {| gameID := Some id; name := Some name |} ∈ abilities →
  name ≠ EmptyString →
  is_Some (fold_left setAbility abilities ∅ !! id).
Proof.
  intros Hin Hname.
  induction abilities as [|ability abilities IH] using rev_ind;
    [by apply elem_of_nil in Hin|].
  rewrite fold_left_app. simpl. unfold setAbility at 1.
  apply elem_of_app in Hin as [Hin| <-%list_elem_of_singleton].
  - specialize (IH Hin).
    destruct ability as [[[g|] [n|]]|]; try done.
    destruct (String.eqb n EmptyString); [done|].
    destruct (decide (g = id)) as [->|Hg];
      [by rewrite lookup_insert_eq|by rewrite lookup_insert_ne].
  - rewrite (proj2 (String.eqb_neq _ _) Hname).
    by rewrite lookup_insert_eq.
Qed.

(** X26: The actor map of a report has every actor of the master data under
    its id, the last one when an id repeats, and the name of every
    ability that comes with a numeric id and a name that is not empty:
    no ability is ever mapped to an empty name.  Only a report that is
    null makes [getReportActorMap] throw. *)
Theorem getReportActorMap_lookup reportCode report :
  match getReportActorMap reportCode report with
  | Raise _ => report = None
  | Ok actorMap =>
      ∃ masterData, report = Some masterData ∧
      (∀ id,
         ActorMap.byId actorMap !! id =
           last (List.filter (λ actor, Actor.id actor =? id)
                   (default [] (actors masterData)))) ∧
      (∀ id name,
         ActorMap.abilityByGameId actorMap !! id = Some name →
         name ≠ EmptyString ∧
         Some {| gameID := Some id; name := Some name |}
           ∈ default [] (abilities masterData)) ∧
      (∀ id name,
         Some {| gameID := Some id; name := Some name |}
           ∈ default [] (abilities masterData) →
         name ≠ EmptyString →
         is_Some (ActorMap.abilityByGameId actorMap !! id))
  end.
Proof.
  destruct report as [masterData|]; [|done]. simpl.
  exists masterData. split; [done|]. split; [apply byId_last|].
  split; [apply abilityByGameId_named|apply abilityByGameId_complete].
Qed.

End ReportDataSpec.

(** ** Player summaries *)

Module SummarySpec.

Import JS Summary.

Lemma foldr_add_perm (l1 l2 : list Z) :
  l1 ≡ₚ l2 → foldr Z.add 0 l1 = foldr Z.add 0 l2.
Proof. induction 1; simpl; lia. Qed.

Lemma traverse_Ok {A B} (f : A → Result B) (g : A → B) xs :
  Forall (λ x, f x = Ok (g x)) xs → traverse f xs = Ok (g <$> xs).
Proof.
  induction 1 as [|x xs Hx _ IH]; simpl; [done|]. by rewrite Hx, IH.
Qed.

Lemma StronglySorted_weaken {A} (R1 R2 : A → A → Prop) l :
  (∀ a b, R1 a b → R2 a b) → StronglySorted R1 l → StronglySorted R2 l.
Proof.
  intros Himpl. induction 1 as [|x l _ IH Hx]; constructor; [done|].
  eapply Forall_impl; [exact Hx|]. intros b. apply Himpl.
Qed.

(** The groups of the entries of a player by ability. *)
Section Groups.

Implicit Types (entries : list PlayerCastEntry.t).

Lemma byAbility_get entries id :
  map_get id (fold_left groupEntry entries []) =
    let mine :=
      List.filter (λ entry, PlayerCastEntry.abilityId entry =? id) entries in
    if decide (mine = []) then None else Some mine.
Proof.
  induction entries as [|entry entries IH] using rev_ind; [done|].
  rewrite fold_left_app, List.filter_app. simpl. cbv zeta in IH.
  unfold groupEntry at 1.
  destruct (Z.eqb_spec (PlayerCastEntry.abilityId entry) id) as [->|Hne].
  - rewrite BossTimelineSpec.map_get_set_eq, IH.
    destruct (decide (List.filter _ entries = [])) as [->|Hsome]; simpl.
    + done.
    + by rewrite decide_False by (by intros [_ [=]]%app_eq_nil).
  - rewrite BossTimelineSpec.map_get_set_ne by done.
    by rewrite app_nil_r.
Qed.

Lemma byAbility_NoDup entries : NoDup (fold_left groupEntry entries []).*1.
Proof.
  induction entries as [|entry entries IH] using rev_ind; [constructor|].
  rewrite fold_left_app. simpl. by apply BossTimelineSpec.map_set_NoDup.
Qed.

Lemma byAbility_elem_of entries id group :
  (id, group) ∈ fold_left groupEntry entries [] →
  group ≠ [] ∧
  group = List.filter (λ entry, PlayerCastEntry.abilityId entry =? id) entries.
Proof.
  intros Hin%BossTimelineSpec.elem_of_map_get; [|apply byAbility_NoDup].
  rewrite byAbility_get in Hin. cbv zeta in Hin.
  destruct (decide (List.filter _ entries = [])); [done|].
  by injection Hin as <-.
Qed.

Lemma map_set_lengths {V} (m : list (Z * list V)) k x :
  foldr Z.add 0
    ((λ g, Z.of_nat (length g.2))
     <$> map_set k (default [] (map_get k m) ++ [x]) m) =
  foldr Z.add 0 ((λ g : Z * list V, Z.of_nat (length g.2)) <$> m) + 1.
Proof.
  induction m as [|[k' v] m IH]; simpl; [done|].
  destruct (Z.eqb_spec k' k) as [->|Hne]; csimpl.
  - rewrite length_app. simpl. lia.
  - rewrite IH. lia.
Qed.

Lemma byAbility_lengths entries :
  foldr Z.add 0
    ((λ g, Z.of_nat (length g.2)) <$> fold_left groupEntry entries []) =
  Z.of_nat (length entries).
Proof.
  induction entries as [|entry entries IH] using rev_ind; [done|].
  rewrite fold_left_app. simpl. unfold groupEntry at 1.
  rewrite map_set_lengths, IH, length_app. simpl. lia.
Qed.

End Groups.

Lemma traverse_Forall2 {A B} (f : A → Result B) xs :
  Forall (λ x, ∃ y, f x = Ok y) xs →
  ∃ ys, traverse f xs = Ok ys ∧ Forall2 (λ x y, f x = Ok y) xs ys.
Proof.
  induction 1 as [|x xs [y Hy] _ (ys & Hys & Hall)]; simpl.
  - exists []. by split; [|constructor].
  - exists (y :: ys). rewrite Hy, Hys. by split; [|constructor].
Qed.

Lemma Forall2_elem_of_l {A B} (P : A → B → Prop) xs ys :
  Forall2 P xs ys → Forall2 (λ x y, x ∈ xs ∧ P x y) xs ys.
Proof.
  intros Hall.
  cut (∀ all : list A, (∀ x, x ∈ xs → x ∈ all) →
         Forall2 (λ x y, x ∈ all ∧ P x y) xs ys).
  { intros Hcut. by apply Hcut. }
  induction Hall as [|x y xs ys Hxy _ IH]; intros all Hsub; constructor.
  - split; [|done]. apply Hsub. by left.
  - apply IH. intros x' Hin. apply Hsub. by right.
Qed.

(** The summary of a group that is not empty. *)
Lemma summarizeAbility_Ok group durationMinutes :
  group ≠ [] →
  ∃ a, summarizeAbility group durationMinutes = Ok a ∧
    count a = Z.of_nat (length group) ∧
    (firstUse a <= lastUse a)%Q ∧
    (avgInterval a = None ↔ count a = 1) ∧
    ∃ first, first ∈ group ∧ abilityId a = PlayerCastEntry.abilityId first
      ∧ ability a = PlayerCastEntry.ability first.
Proof.
  intros Hgroup. unfold summarizeAbility.
  set (sorted := sort _ group).
  assert (sorted ≡ₚ group) as Hperm by apply SortFacts.sort_perm.
  assert (StronglySorted
            (λ a b, negb (Qle_bool (PlayerCastEntry.t_ a - PlayerCastEntry.t_ b) 0)
                    = false) sorted) as Hsorted.
  { apply SortedFacts.sort_sorted;
      [apply PlayerCastsShape.byTime_total|apply PlayerCastsShape.byTime_trans]. }
  destruct sorted as [|first rest] eqn:Hlist.
  { symmetry in Hperm. by apply Permutation_nil_r in Hperm. }
  destruct (last (first :: rest)) as [final|] eqn:Hlast;
    [|by apply last_None in Hlast].
  cbn [head]. eexists. split; [reflexivity|]. cbn [count firstUse lastUse
    avgInterval abilityId ability].
  split; [by rewrite <- Hperm|]. split; [|split].
  - apply PlayerCastsShape.byTime_gt.
    eapply (SortedFacts.sorted_last_greatest _ PlayerCastsShape.byTime_total);
      [exact Hsorted|exact Hlast|by left].
  - unfold averageIntervalSeconds.
    destruct rest as [|second rest]; simpl; [done|].
    split; [done|lia].
  - exists first. split; [|done]. rewrite <- Hperm. by left.
Qed.

Lemma counts_lengths durationMinutes
    (groups all : list (Z * list PlayerCastEntry.t)) summaries :
  Forall2
    (λ group a, group ∈ all ∧ summarizeAbility group.2 durationMinutes = Ok a)
    groups summaries →
  (∀ group, group ∈ all → group.2 ≠ []) →
  count <$> summaries = (λ g, Z.of_nat (length g.2)) <$> groups.
Proof.
  intros Hall Hne.
  induction Hall as [|group a groups summaries' [Hin Ha] _ IH]; [done|].
  csimpl. rewrite IH.
  destruct (summarizeAbility_Ok group.2 durationMinutes (Hne _ Hin))
    as (a' & Ha' & Hcount & _).
  rewrite Ha in Ha'. injection Ha' as <-. by rewrite Hcount.
Qed.

Section WithBuiltins.
Context `{Builtins} `{Collation}.

(** What [summarizePlayer] makes of the entries under a key. *)
Lemma summarizePlayer_Ok durationMinutes key entries :
  ∃ p, summarizePlayer durationMinutes (key, entries) = Ok p ∧
    head (split_on "#" key) = Some (player p) ∧
    totalCasts p = Z.of_nat (length entries) ∧
    foldr Z.add 0 (count <$> abilities p) = totalCasts p ∧
    ∀ a, a ∈ abilities p →
      count a =
        Z.of_nat
          (length
             (List.filter
                (λ entry, PlayerCastEntry.abilityId entry =? abilityId a)
                entries)) ∧
      1 ≤ count a ∧ (firstUse a <= lastUse a)%Q ∧
      (avgInterval a = None ↔ count a = 1).
Proof.
  unfold summarizePlayer.
  set (byAbility := fold_left groupEntry entries []).
  destruct (traverse_Forall2
              (λ group, summarizeAbility group.2 durationMinutes) byAbility)
    as (summaries & -> & Hall).
  { apply Forall_forall. intros [id group] [Hne _]%byAbility_elem_of.
    destruct (summarizeAbility_Ok group durationMinutes Hne) as (a & ? & _).
    by exists a. }
  eexists. split; [reflexivity|]. cbn [player totalCasts abilities].
  split; [by destruct key as [|c key]; simpl; repeat case_match|].
  split; [done|].
  apply Forall2_elem_of_l in Hall as Hall'.
  split.
  - rewrite (foldr_add_perm _ (count <$> summaries))
      by (by rewrite SortFacts.sort_perm).
    rewrite <- (byAbility_lengths entries). fold byAbility. f_equal.
    apply (counts_lengths durationMinutes byAbility byAbility); [done|].
    by intros [id group] [? _]%byAbility_elem_of.
  - intros a Ha%SortFacts.elem_of_sort.
    apply list_elem_of_lookup in Ha as [i Ha].
    destruct (Forall2_lookup_r _ _ _ _ _ Hall' Ha) as ([id group] & _ & Hin & Hgroup).
    apply byAbility_elem_of in Hin as [Hne Hfilter].
    destruct (summarizeAbility_Ok group durationMinutes Hne)
      as (a' & Ha' & Hcount & Huse & Havg & first & Hfirst & Hid & _).
    simpl in Hgroup. rewrite Hgroup in Ha'. injection Ha' as <-.
    rewrite Hfilter in Hfirst.
    apply PickFightSpec.elem_of_List_filter in Hfirst as [_ Hsame%Z.eqb_eq].
    split; [|split; [|done]].
    + rewrite Hcount, Hid, Hsame. by rewrite <- Hfilter.
    + rewrite Hcount. destruct group; [done|simpl; lia].
Qed.

Lemma summarizePlayer_abilities durationMinutes keyed p :
  summarizePlayer durationMinutes keyed = Ok p →
  ∃ summaries, abilities p = sort (λ a b, 0 <? byCount a b) summaries.
Proof.
  destruct keyed as [key entries]. unfold summarizePlayer.
  destruct (traverse _ _) as [summaries|]; [|done].
  intros [= <-]. by exists summaries.
Qed.

Lemma traverse_summarizePlayer durationMinutes castsByPlayer :
  ∃ result,
    traverse (summarizePlayer durationMinutes) castsByPlayer = Ok result ∧
    Forall2 (λ keyed p, summarizePlayer durationMinutes keyed = Ok p)
      castsByPlayer result.
Proof.
  apply traverse_Forall2, Forall_forall. intros [key entries] _.
  destruct (summarizePlayer_Ok durationMinutes key entries) as (p & ? & _).
  by exists p.
Qed.

(** X27: [buildPlayerSummary] never throws, although [summarizeAbility]
    does on an empty array: it returns one summary for each key. The
    summary of a key is named by the part of the key before the first
    [#], its total is the number of entries of the key, and the counts of
    its abilities add up to that total. Each ability counts the entries of
    the key with its id, at least one; its first use is not after its
    last; and it has an average interval unless it was used once. *)
Theorem buildPlayerSummary_accounts castsByPlayer fightDurationMs :
  ∃ result, buildPlayerSummary castsByPlayer fightDurationMs = Ok result ∧
    length result = length castsByPlayer ∧
    ∀ p, p ∈ result →
      ∃ key entries, (key, entries) ∈ castsByPlayer ∧
        head (split_on "#" key) = Some (player p) ∧
        totalCasts p = Z.of_nat (length entries) ∧
        foldr Z.add 0 (count <$> abilities p) = totalCasts p ∧
        ∀ a, a ∈ abilities p →
          count a =
            Z.of_nat
              (length
                 (List.filter
                    (λ entry, PlayerCastEntry.abilityId entry =? abilityId a)
                    entries)) ∧
          1 ≤ count a ∧ (firstUse a <= lastUse a)%Q ∧
          (avgInterval a = None ↔ count a = 1).
Proof.
  unfold buildPlayerSummary.
  set (durationMinutes := (inject_Z fightDurationMs / 1000 / 60)%Q).
  destruct (traverse_summarizePlayer durationMinutes castsByPlayer)
    as (result & -> & Hall).
  eexists. split; [reflexivity|]. split.
  - rewrite SortFacts.sort_perm. symmetry. by eapply Forall2_length.
  - intros p Hp%SortFacts.elem_of_sort.
    apply list_elem_of_lookup in Hp as [i Hp].
    destruct (Forall2_lookup_r _ _ _ _ _ Hall Hp) as ([key entries] & Hkey & Hsum).
    exists key, entries. split; [by eapply list_elem_of_lookup_2|].
    destruct (summarizePlayer_Ok durationMinutes key entries)
      as (p' & Hp' & Hfacts).
    rewrite Hsum in Hp'. injection Hp' as <-. exact Hfacts.
Qed.

(** The orders of the two sorts, when [localeCompare] orders the names. *)
Section Ordered.

Hypothesis Hopposite :
  ∀ a b, 0 < localeCompare a b → localeCompare b a ≤ 0.
Hypothesis Htransitive :
  ∀ a b c, localeCompare a b ≤ 0 → localeCompare b c ≤ 0 →
    localeCompare a c ≤ 0.

Lemma byTotalCasts_order a b :
  (0 <? byTotalCasts a b) = false ↔
  totalCasts b < totalCasts a
  ∨ totalCasts a = totalCasts b ∧ localeCompare (player a) (player b) ≤ 0.
Proof.
  unfold byTotalCasts. cbv zeta.
  destruct (Z.eqb_spec (totalCasts b - totalCasts a) 0); simpl; lia.
Qed.

Lemma byCount_order a b :
  (0 <? byCount a b) = false ↔
  count b < count a
  ∨ count a = count b ∧ localeCompare (ability a) (ability b) ≤ 0.
Proof.
  unfold byCount. cbv zeta.
  destruct (Z.eqb_spec (count b - count a) 0); simpl; lia.
Qed.

Lemma byTotalCasts_total a b :
  (0 <? byTotalCasts a b) = true → (0 <? byTotalCasts b a) = false.
Proof.
  intros Hab. apply byTotalCasts_order.
  destruct (0 <? byTotalCasts b a) eqn:Hba; [|by apply byTotalCasts_order].
  apply not_false_iff_true in Hab, Hba.
  rewrite byTotalCasts_order in Hab. rewrite byTotalCasts_order in Hba.
  pose proof (Hopposite (player a) (player b)).
  pose proof (Hopposite (player b) (player a)). lia.
Qed.

Lemma byTotalCasts_trans a b c :
  (0 <? byTotalCasts a b) = false → (0 <? byTotalCasts b c) = false →
  (0 <? byTotalCasts a c) = false.
Proof.
  rewrite !byTotalCasts_order.
  pose proof (Htransitive (player a) (player b) (player c)). lia.
Qed.

Lemma byCount_total a b :
  (0 <? byCount a b) = true → (0 <? byCount b a) = false.
Proof.
  intros Hab. apply byCount_order.
  destruct (0 <? byCount b a) eqn:Hba; [|by apply byCount_order].
  apply not_false_iff_true in Hab, Hba.
  rewrite byCount_order in Hab. rewrite byCount_order in Hba.
  pose proof (Hopposite (ability a) (ability b)).
  pose proof (Hopposite (ability b) (ability a)). lia.
Qed.

Lemma byCount_trans a b c :
  (0 <? byCount a b) = false → (0 <? byCount b c) = false →
  (0 <? byCount a c) = false.
Proof.
  rewrite !byCount_order.
  pose proof (Htransitive (ability a) (ability b) (ability c)). lia.
Qed.

(** X28: when [localeCompare] orders the names (it is not positive both
    ways, and not being positive is transitive), [buildPlayerSummary]
    returns the players by total casts, the most first, and those with the
    same total by name; and the abilities of each player by count, the
    most used first, and those with the same count by name. *)
Theorem buildPlayerSummary_ordered castsByPlayer fightDurationMs :
  ∃ result, buildPlayerSummary castsByPlayer fightDurationMs = Ok result ∧
    StronglySorted
      (λ a b, totalCasts b < totalCasts a
              ∨ totalCasts a = totalCasts b
                ∧ localeCompare (player a) (player b) ≤ 0)
      result ∧
    ∀ p, p ∈ result →
      StronglySorted
        (λ a b, count b < count a
                ∨ count a = count b
                  ∧ localeCompare (ability a) (ability b) ≤ 0)
        (abilities p).
Proof.
  unfold buildPlayerSummary.
  set (durationMinutes := (inject_Z fightDurationMs / 1000 / 60)%Q).
  destruct (traverse_summarizePlayer durationMinutes castsByPlayer)
    as (result & -> & Hall).
  eexists. split; [reflexivity|]. split.
  - eapply StronglySorted_weaken;
      [|apply SortedFacts.sort_sorted;
          [apply byTotalCasts_total|apply byTotalCasts_trans]].
    intros a b. apply byTotalCasts_order.
  - intros p Hp%SortFacts.elem_of_sort.
    apply list_elem_of_lookup in Hp as [i Hp].
    destruct (Forall2_lookup_r _ _ _ _ _ Hall Hp) as (keyed & _ & Hsum).
    apply summarizePlayer_abilities in Hsum as [summaries ->].
    eapply StronglySorted_weaken;
      [|apply SortedFacts.sort_sorted;
          [apply byCount_total|apply byCount_trans]].
    intros a b. apply byCount_order.
Qed.

End Ordered.

End WithBuiltins.

Lemma buildPlayerSummary_ordered_witness :
  ∃ result,
    @buildPlayerSummary Examples.builtins
      (λ a b, Z.of_nat (String.length a) - Z.of_nat (String.length b))
      [("Alice#1",
        [{| PlayerCastEntry.t_ := 1; PlayerCastEntry.source := "Alice";
            PlayerCastEntry.sourceId := 1; PlayerCastEntry.ability := "Cure";
            PlayerCastEntry.abilityId := 120 |}]);
       ("Bob#2",
        [{| PlayerCastEntry.t_ := 2; PlayerCastEntry.source := "Bob";
            PlayerCastEntry.sourceId := 2; PlayerCastEntry.ability := "Fire";
            PlayerCastEntry.abilityId := 141 |};
         {| PlayerCastEntry.t_ := 1; PlayerCastEntry.source := "Bob";
            PlayerCastEntry.sourceId := 2; PlayerCastEntry.ability := "Fire";
            PlayerCastEntry.abilityId := 141 |}])]
      60000 = Ok result ∧
    StronglySorted
      (λ a b, totalCasts b < totalCasts a
              ∨ totalCasts a = totalCasts b
                ∧ Z.of_nat (String.length (player a))
                  - Z.of_nat (String.length (player b)) ≤ 0)
      result ∧
    ∀ p, p ∈ result →
      StronglySorted
        (λ a b, count b < count a
                ∨ count a = count b
                  ∧ Z.of_nat (String.length (ability a))
                    - Z.of_nat (String.length (ability b)) ≤ 0)
        (abilities p).
Proof.
  apply (@buildPlayerSummary_ordered Examples.builtins
           (λ a b, Z.of_nat (String.length a) - Z.of_nat (String.length b)));
    unfold localeCompare; intros; lia.
Defined.

End SummarySpec.

(** ** The encounter search *)

Module EncountersSpec.

Import Encounters Notions.

Section WithText.
Context `{Text.Builtins}.

(** The state of the loops after the encounters that gave [all]: either
    the function has returned the first candidates, or it holds them all
    and they are fewer than asked for. *)
Lemma scanEncounter_found k maxResults zone encs all (search : Search) :
  (if search.2
   then length search.1 = Z.to_nat (Z.max 1 maxResults) ∧ search.1 `prefix_of` all
   else search.1 = all ∧ (all = [] ∨ Z.of_nat (length all) < maxResults)) →
  let search' := fold_left (scanEncounter k maxResults zone) encs search in
  let all' :=
    all ++ ((λ enc,
               {| c_id := id enc; c_name := name enc;
                  c_zoneId := zoneId zone; c_zoneName := zoneName zone |})
            <$> List.filter (matches k) encs) in
  if search'.2
  then length search'.1 = Z.to_nat (Z.max 1 maxResults) ∧ search'.1 `prefix_of` all'
  else search'.1 = all' ∧ (all' = [] ∨ Z.of_nat (length all') < maxResults).
Proof.
  cbv zeta. revert all search.
  induction encs as [|enc encs IH]; intros all [out returned] Hinv.
  { simpl. by rewrite app_nil_r. }
  simpl in Hinv. cbn [fold_left List.filter].
  replace (scanEncounter k maxResults zone (out, returned) enc)
    with (if returned then (out, returned)
          else if negb (matches k enc) then (out, returned)
          else
            let out :=
              out ++ [{| c_id := id enc; c_name := name enc;
                         c_zoneId := zoneId zone;
                         c_zoneName := zoneName zone |}] in
            (out, maxResults <=? Z.of_nat (length out))) by done.
  cbv zeta. destruct returned.
  - destruct Hinv as [Hlength Hprefix].
    specialize (IH (all ++ if matches k enc
                           then [{| c_id := id enc; c_name := name enc;
                                    c_zoneId := zoneId zone;
                                    c_zoneName := zoneName zone |}]
                           else []) (out, true)).
    destruct (matches k enc); csimpl in *.
    + rewrite <- app_assoc in IH. apply IH.
      split; [done|]. by apply prefix_app_r.
    + rewrite app_nil_r in IH. by apply IH.
  - destruct Hinv as [-> Hfew].
    destruct (matches k enc); csimpl; [|by apply IH].
    set (c := {| c_id := id enc; c_name := name enc;
                 c_zoneId := zoneId zone; c_zoneName := zoneName zone |}).
    specialize (IH (all ++ [c])
                  (all ++ [c], maxResults <=? Z.of_nat (length (all ++ [c])))).
    rewrite <- !app_assoc in IH. apply IH. cbn [fst snd].
    rewrite length_app. simpl.
    destruct (Z.leb_spec maxResults (Z.of_nat (length all + 1)))
      as [Hfull|Hroom].
    + split; [|done]. rewrite ?length_app. simpl.
      destruct Hfew as [->|Hfew]; simpl in *; lia.
    + split; [done|]. right. rewrite ?length_app. simpl. lia.
Qed.

Lemma scanZone_found k maxResults zones all (search : Search) :
  (if search.2
   then length search.1 = Z.to_nat (Z.max 1 maxResults) ∧ search.1 `prefix_of` all
   else search.1 = all ∧ (all = [] ∨ Z.of_nat (length all) < maxResults)) →
  let search' := fold_left (scanZone k maxResults) zones search in
  let all' := all ++ found k zones in
  if search'.2
  then length search'.1 = Z.to_nat (Z.max 1 maxResults) ∧ search'.1 `prefix_of` all'
  else search'.1 = all' ∧ (all' = [] ∨ Z.of_nat (length all') < maxResults).
Proof.
  cbv zeta. revert all search.
  induction zones as [|zone zones IH]; intros all search Hinv.
  { simpl. by rewrite app_nil_r. }
  simpl. rewrite app_assoc. apply IH.
  by apply (scanEncounter_found k maxResults zone).
Qed.

(** X29: [searchEncounters] returns nothing when the trimmed, lower-cased
    keyword is empty.  Otherwise it returns the encounters whose
    lower-cased name, or whose id in decimal, contains the trimmed,
    lower-cased keyword, in the order of the zones and of their
    encounters, cut after [maxResults] of them, and after one when
    [maxResults] is below one. *)
Theorem searchEncounters_first_matches zones keyword maxResults :
  let k := Text.toLowerCase (Text.trim keyword) in
  searchEncounters zones keyword maxResults =
    if String.eqb k EmptyString then []
    else take (Z.to_nat (Z.max 1 maxResults)) (found k (default [] zones)).
Proof.
  cbv zeta. unfold searchEncounters.
  destruct (String.eqb _ EmptyString); [done|].
  pose proof (scanZone_found (Text.toLowerCase (Text.trim keyword)) maxResults
                (default [] zones) [] ([], false)) as Hinv.
  cbv zeta in Hinv. simpl in Hinv. specialize (Hinv (conj eq_refl (or_introl eq_refl))).
  destruct (fold_left _ _ _) as [out returned]. simpl in *.
  destruct returned.
  - destruct Hinv as [Hlength [rest ->]].
    by rewrite <- Hlength, take_app_length.
  - destruct Hinv as [-> Hfew]. symmetry. apply take_ge.
    destruct Hfew as [->|Hfew]; simpl; lia.
Qed.

End WithText.

(** Of the zones, the keyword [TiTan] finds the two encounters named
    after Titan in latin letters and no other; [100] finds the encounters
    100 and 1002 by their ids; a limit below one keeps the first; a
    keyword of white space finds nothing; and the Japanese name of Titan
    after an ideographic space finds the encounter with that name. *)
Lemma searchEncounters_first_matches_witness :
  @searchEncounters Samples.utf8 (Some Samples.zones) "  TiTan " 30 =
    [ Samples.candidate 100 "Titan" 1 "Trials";
      Samples.candidate 103 "TITANOMACHY" 3 "Ultimates" ] ∧
  @searchEncounters Samples.utf8 (Some Samples.zones) "100" 30 =
    [ Samples.candidate 100 "Titan" 1 "Trials";
      Samples.candidate 1002 "Garuda" 1 "Trials" ] ∧
  @searchEncounters Samples.utf8 (Some Samples.zones) "titan" 0 =
    [ Samples.candidate 100 "Titan" 1 "Trials" ] ∧
  @searchEncounters Samples.utf8 (Some Samples.zones) " 　 " 30 = [] ∧
  @searchEncounters Samples.utf8 (Some Samples.zones) "　タイタン" 30 =
    [ Samples.candidate 105 "タイタン討滅戦" 3 "Ultimates" ].
Proof.
  rewrite !(@searchEncounters_first_matches Samples.utf8). done.
Defined.

End EncountersSpec.

(** ** The grid of the view *)

Module ViewModelSpec.

Import ViewModel.

















End ViewModelSpec.
